(** * Workflow step execution engine: tool policies and step executor

    A shallow embedding of the two services of the engine,
    [ToolPolicyService] (role based tool access policies, file backed with an
    in-memory cache) and [WorkflowStepExecutor] (session configuration,
    session context, template rendering, acceptance validation, step
    artifacts and the progress log), followed by the properties proved of
    them.

    Conventions of the model.
    - Strings are sequences of 8-bit characters; the model is exact for
      ASCII text ([trim], [toLowerCase] and lengths are the ASCII ones).
    - [async] methods are state transformers that run to completion; where
      the source starts an [async] method without awaiting it (the
      constructor of the policy service, and [clearCache]) the model has
      the state at its first suspension point and the state once it has
      settled.
    - A directory is a finite map from file names to contents, a path
      below the runs directory the list of its components. Names are taken
      as they are: a role or a step id with a path separator in it is
      outside the model. File system failures other than a missing file
      are not modelled.
    - The executor reaches the policy service through a singleton of the
      process; the state the executor works on carries the state of that
      service and whether it has been constructed. The step that is the
      first to use the service constructs it, and the [loadDefaults] the
      constructor starts goes on while the step waits for the file
      system: how often it is resumed at each wait is a parameter of the
      model, and the theorems hold for every choice of it.
    - Numbers are integers. *)

From Stdlib Require Import ZArith NArith Ascii String List Lia.
From stdpp Require Import base option list strings gmap pretty.

Set Default Proof Using "Type".
Set Warnings "-register-all".
Local Open Scope Z_scope.

(** ** Strings as the source uses them *)

Module Str.

(** [String.prototype.toLowerCase] on ASCII letters. *)
Definition lower_char (c : ascii) : ascii :=
  let n := N_of_ascii c in
  if ((65 <=? n) && (n <=? 90))%N then ascii_of_N (n + 32) else c.

Fixpoint toLowerCase (s : string) : string :=
  match s with
  | EmptyString => EmptyString
  | String c s' => String (lower_char c) (toLowerCase s')
  end.

(** White space and line terminators of the language, ASCII range:
    TAB, LF, VT, FF, CR and SPACE. *)
Definition is_space (c : ascii) : bool :=
  let n := N_of_ascii c in
  ((9 <=? n) && (n <=? 13) || (n =? 32))%N.

Fixpoint trimStart (s : string) : string :=
  match s with
  | EmptyString => EmptyString
  | String c s' => if is_space c then trimStart s' else s
  end.

Definition trimEnd (s : string) : string :=
  String.rev (trimStart (String.rev s)).

(** [String.prototype.trim]. *)
Definition trim (s : string) : string := trimEnd (trimStart s).

(** [s.startsWith(p)]. *)
Fixpoint startsWith (p s : string) : bool :=
  match p, s with
  | EmptyString, _ => true
  | String a p', String b s' => if ascii_dec a b then startsWith p' s' else false
  | String _ _, EmptyString => false
  end.

(** [s.endsWith(p)]. *)
Definition endsWith (p s : string) : bool :=
  startsWith (String.rev p) (String.rev s).

(** [hay.includes(needle)]: literal substring containment. *)
Fixpoint includes (needle hay : string) : bool :=
  startsWith needle hay ||
  match hay with
  | EmptyString => false
  | String _ hay' => includes needle hay'
  end.

(** [parts.join(sep)] on an array of strings. *)
Fixpoint join (sep : string) (parts : list string) : string :=
  match parts with
  | [] => EmptyString
  | [p] => p
  | p :: rest => p +:+ sep +:+ join sep rest
  end.

(** The double quote character, for messages that quote a value. *)
Definition dquote : string := String (ascii_of_N 34) EmptyString.

(** [s.slice(n)] *)
Fixpoint drop (n : nat) (s : string) : string :=
  match n, s with
  | O, _ => s
  | S n', String _ s' => drop n' s'
  | S _, EmptyString => EmptyString
  end.

(** [s.replace(needle, '')] for a string [needle]: the first occurrence
    is taken out, the others stay. *)
Fixpoint remove_first (needle s : string) : string :=
  if startsWith needle s then drop (String.length needle) s
  else match s with
       | EmptyString => EmptyString
       | String c s' => String c (remove_first needle s')
       end.

End Str.

(** ** Errors and effects *)

(** What the source throws: a [ValidationError] (from [types/workflow]; an
    [Error] with a message), a plain [Error], or the error of a failed file
    system call with its [code]. *)
Inductive exn : Type :=
  | ValidationError (message : string)
  | Error (message : string)
  | SystemError (code : string).

(** [err.message] *)
Definition exn_message (e : exn) : string :=
  match e with
  | ValidationError message | Error message => message
  | SystemError code => code
  end.

Inductive result (A : Type) : Type :=
  | Ok (a : A)
  | Throw (e : exn).
Arguments Ok {A} a.
Arguments Throw {A} e.

(** A method that reads and writes a state [S] and may throw: the state it
    leaves behind is the one at the [throw]. *)
Definition M (S A : Type) : Type := S -> result A * S.

#[global] Instance result_ret : MRet result := fun A a => Ok a.
#[global] Instance result_bind : MBind result := fun A B k r =>
  match r with
  | Ok a => k a
  | Throw e => Throw e
  end.

#[global] Instance M_ret {S} : MRet (M S) := fun A a s => (Ok a, s).
#[global] Instance M_bind {S} : MBind (M S) := fun A B k m s =>
  match m s with
  | (Ok a, s') => k a s'
  | (Throw e, s') => (Throw e, s')
  end.
Definition throw {S A} (e : exn) : M S A := fun s => (Throw e, s).

(** ** ToolPolicyService *)

Module ToolPolicyService.

(** Modelled from the spec: [ToolPolicy] is declared in [types/workflow],
    which is not among the sources; its fields are those of the built-in
    policies below and of the persisted record of the design. *)
Record ToolPolicy : Type := {
  role : string;
  allowed : list string;
  denied : list string;
  description : option string;
}.

#[global] Instance ToolPolicy_eq_dec : EqDecision ToolPolicy.
Proof. solve_decision. Defined.

Definition DEFAULT_ROLES : gset string :=
  list_to_set ["planner"; "developer"; "reviewer"; "tester"; "deployer"].

Definition MAX_POLICIES : nat := 50.
Definition MAX_TOOLS_PER_POLICY : nat := 100.
Definition MAX_ROLE_NAME_LENGTH : nat := 50.
Definition MAX_DESCRIPTION_LENGTH : nat := 500.

Definition DEFAULT_POLICIES : list ToolPolicy := [
  {| role := "planner";
     allowed := ["Read"; "web_search"; "web_fetch"; "browser"; "image"; "nodes"];
     denied := ["Write"; "Edit"; "exec"; "message"];
     description := Some "Read-only access for planning and analysis. Can search and browse, but cannot modify files or execute commands." |};
  {| role := "developer";
     allowed := ["*"];
     denied := [];
     description := Some "Full access to all tools. Can read, write, execute commands, and use all available capabilities." |};
  {| role := "reviewer";
     allowed := ["Read"; "exec"; "web_search"; "web_fetch"; "browser"; "image"; "nodes"];
     denied := ["Write"; "Edit"; "message"];
     description := Some "Read and execute access for code review. Can run tests and checks, but cannot modify the code being reviewed." |};
  {| role := "tester";
     allowed := ["Read"; "exec"; "browser"; "web_search"; "web_fetch"; "image"; "nodes"];
     denied := ["Write"; "Edit"; "message"];
     description := Some "Read, execute, and browser access for testing. Can run tests and interact with UIs, but cannot modify source code." |};
  {| role := "deployer";
     allowed := ["*"];
     denied := [];
     description := Some "Full access for deployment operations. Can execute deployment scripts, modify configs, and interact with production systems." |}
].

(** A file of the policies directory, by what [JSON.parse] makes of its
    content: a syntax error with its message, or a record of the type the
    source casts the parsed value to. *)
Inductive PolicyFile : Type :=
  | Unparsable (message : string)
  | Parsed (policy : ToolPolicy).

(** The service: the policies directory (file name to content) and the
    [cache] field. *)
Record Store : Type := {
  disk : gmap string PolicyFile;
  cache : gmap string ToolPolicy;
}.

Definition set_disk (d : gmap string PolicyFile) (st : Store) : Store :=
  {| disk := d; cache := cache st |}.
Definition set_cache (c : gmap string ToolPolicy) (st : Store) : Store :=
  {| disk := disk st; cache := c |}.

(** [role.trim().toLowerCase()] *)
Definition normalizeRole (r : string) : string := Str.toLowerCase (Str.trim r).

(** [path.join(this.policiesDir, `${role}.json`)], as a name in the
    policies directory. *)
Definition policyFileName (normalizedRole : string) : string :=
  normalizedRole +:+ ".json".

(** [[...new Set(xs)]]: duplicates dropped, first occurrences kept in order. *)
Fixpoint uniq (seen xs : list string) : list string :=
  match xs with
  | [] => []
  | x :: xs' =>
      if bool_decide (x ∈ seen) then uniq seen xs' else x :: uniq (x :: seen) xs'
  end.

Definition overlap (policy : ToolPolicy) : list string :=
  filter (fun tool => tool ∈ denied policy) (uniq [] (allowed policy)).

(** [validatePolicy]: the first failed check decides the message. *)
Definition validatePolicy (policy : ToolPolicy) : result unit :=
  if bool_decide (role policy = EmptyString) then
    Throw (ValidationError "Policy must have a role name")
  else if bool_decide (MAX_ROLE_NAME_LENGTH < String.length (role policy))%nat then
    Throw (ValidationError ("Role name exceeds maximum length of " +:+ pretty MAX_ROLE_NAME_LENGTH +:+ " characters"))
  else if bool_decide (MAX_TOOLS_PER_POLICY < length (allowed policy))%nat then
    Throw (ValidationError ("Allowed tools list exceeds maximum of " +:+ pretty MAX_TOOLS_PER_POLICY +:+ " tools"))
  else if bool_decide (MAX_TOOLS_PER_POLICY < length (denied policy))%nat then
    Throw (ValidationError ("Denied tools list exceeds maximum of " +:+ pretty MAX_TOOLS_PER_POLICY +:+ " tools"))
  else if match description policy with
          | Some d => bool_decide (MAX_DESCRIPTION_LENGTH < String.length d)%nat
          | None => false
          end then
    Throw (ValidationError ("Description exceeds maximum length of " +:+ pretty MAX_DESCRIPTION_LENGTH +:+ " characters"))
  else match overlap policy with
       | [] => Ok tt
       | ov => Throw (ValidationError ("Tools cannot be both allowed and denied: " +:+ Str.join ", " ov))
       end.

(** One turn of the loop of [loadDefaults], split at its [await]: the
    cache entry is set before the file is looked at. *)
Definition loadDefaults_cache (policy : ToolPolicy) (st : Store) : Store :=
  set_cache (<[role policy := policy]> (cache st)) st.

Definition loadDefaults_persist (policy : ToolPolicy) (st : Store) : Store :=
  match disk st !! policyFileName (role policy) with
  | Some _ => st
  | None => set_disk (<[policyFileName (role policy) := Parsed policy]> (disk st)) st
  end.

Fixpoint loadDefaults_loop (policies : list ToolPolicy) (st : Store) : Store :=
  match policies with
  | [] => st
  | policy :: rest =>
      loadDefaults_loop rest (loadDefaults_persist policy (loadDefaults_cache policy st))
  end.

(** [loadDefaults] run to completion. *)
Definition loadDefaults (st : Store) : Store :=
  loadDefaults_loop DEFAULT_POLICIES st.

(** [loadDefaults] up to its first [await]: what has happened when a
    caller that does not await it goes on. *)
Definition loadDefaults_start (st : Store) : Store :=
  match DEFAULT_POLICIES with
  | [] => st
  | policy :: _ => loadDefaults_cache policy st
  end.

(** The rest of [loadDefaults], from its first [await] on. *)
Definition loadDefaults_resume (st : Store) : Store :=
  match DEFAULT_POLICIES with
  | [] => st
  | policy :: rest => loadDefaults_loop rest (loadDefaults_persist policy st)
  end.

(** [new ToolPolicyService(policiesDir)] over a directory [d]: the
    constructor calls [loadDefaults] and does not await it, so the
    service it returns is in the state [loadDefaults_start] leaves. *)
Definition constructor (d : gmap string PolicyFile) : Store :=
  loadDefaults_start {| disk := d; cache := ∅ |}.

(** The service once the [loadDefaults] of its constructor has settled,
    no other method having run in between. *)
Definition constructor_settled (d : gmap string PolicyFile) : Store :=
  loadDefaults_resume (constructor d).

(** [getToolPolicy] *)
Definition getToolPolicy (r : string) : M Store (option ToolPolicy) :=
  fun st =>
    let normalizedRole := normalizeRole r in
    match cache st !! normalizedRole with
    | Some cachedPolicy => (Ok (Some cachedPolicy), st)
    | None =>
        match disk st !! policyFileName normalizedRole with
        | None => (Ok None, st)
        | Some (Unparsable message) =>
            (Throw (ValidationError ("Invalid tool policy: " +:+ message)), st)
        | Some (Parsed policy) =>
            match validatePolicy policy with
            | Throw e =>
                (Throw (ValidationError ("Invalid tool policy: " +:+ exn_message e)), st)
            | Ok _ =>
                (Ok (Some policy), set_cache (<[normalizedRole := policy]> (cache st)) st)
            end
        end
    end.

(** [files.filter((f) => f.endsWith('.json')).length] over [readdir]. *)
Definition policyCount (d : gmap string PolicyFile) : nat :=
  length (filter (fun f => Str.endsWith ".json" f = true) (elements (dom d))).

Definition limitMessage : string :=
  "Maximum policy limit (" +:+ pretty MAX_POLICIES +:+ ") reached. Delete unused policies before creating new ones.".

(** [savePolicy] *)
Definition savePolicy (policy : ToolPolicy) : M Store unit :=
  fun st =>
    match validatePolicy policy with
    | Throw e => (Throw e, st)
    | Ok _ =>
        let normalizedRole := normalizeRole (role policy) in
        if bool_decide (cache st !! normalizedRole = None)
           && bool_decide (MAX_POLICIES <= policyCount (disk st))%nat
        then (Throw (ValidationError limitMessage), st)
        else
          (Ok tt,
           {| disk := <[policyFileName normalizedRole := Parsed policy]> (disk st);
              cache := <[normalizedRole := policy]> (cache st) |})
    end.

Definition protectedMessage (normalizedRole : string) : string :=
  "Cannot delete default policy: " +:+ normalizedRole +:+
  ". Default policies can only be modified, not deleted.".

(** [deletePolicy]: [fs.unlink] of a missing file throws [ENOENT], and the
    cache entry is then left in place. *)
Definition deletePolicy (r : string) : M Store unit :=
  fun st =>
    let normalizedRole := normalizeRole r in
    if bool_decide (normalizedRole ∈ DEFAULT_ROLES) then
      (Throw (ValidationError (protectedMessage normalizedRole)), st)
    else
      match disk st !! policyFileName normalizedRole with
      | None => (Throw (SystemError "ENOENT"), st)
      | Some _ =>
          (Ok tt,
           {| disk := delete (policyFileName normalizedRole) (disk st);
              cache := delete normalizedRole (cache st) |})
      end.

(** [array.includes(x)] on an array of strings. *)
Definition array_includes (x : string) (xs : list string) : bool :=
  bool_decide (x ∈ xs).

(** [validateToolAccess] *)
Definition validateToolAccess (r tool : string) : M Store bool :=
  policy ← getToolPolicy r;
  match policy with
  | None => mret true
  | Some policy =>
      if array_includes tool (denied policy) then mret false
      else if array_includes "*" (allowed policy) then mret true
      else mret (array_includes tool (allowed policy))
  end.

(** The filter handed to the session runtime: each key is optional. *)
Record ToolFilter : Type := {
  filter_allowed : option (list string);
  filter_denied : option (list string);
}.

Definition empty_filter : ToolFilter :=
  {| filter_allowed := None; filter_denied := None |}.

(** [getToolFilterForRole] *)
Definition getToolFilterForRole (r : string) : M Store ToolFilter :=
  policy ← getToolPolicy r;
  match policy with
  | None => mret empty_filter
  | Some policy =>
      mret {| filter_denied :=
               if (0 <? length (denied policy))%nat then Some (denied policy) else None;
             filter_allowed :=
               if (0 <? length (allowed policy))%nat
                  && negb (array_includes "*" (allowed policy))
               then Some (allowed policy) else None |}
  end.

(** [clearCache]: the cache is emptied and [loadDefaults] started, not
    awaited. *)
Definition clearCache (st : Store) : Store :=
  loadDefaults_start (set_cache ∅ st).

(** [loadDefaults] as the steps it is made of: [Cache] is the
    [cache.set] of a turn of the loop, [Persist] the [fs.access] of that
    turn with the [fs.writeFile] that follows when the file is missing. *)
Inductive loadStep : Type :=
  | Cache (policy : ToolPolicy)
  | Persist (policy : ToolPolicy).

Definition run_loadStep (st : Store) (step : loadStep) : Store :=
  match step with
  | Cache policy => loadDefaults_cache policy st
  | Persist policy => loadDefaults_persist policy st
  end.

Fixpoint loadDefaults_steps (policies : list ToolPolicy) : list loadStep :=
  match policies with
  | [] => []
  | policy :: rest => Cache policy :: Persist policy :: loadDefaults_steps rest
  end.

(** The filter [getToolFilterForRole] makes of what [getToolPolicy]
    answered. *)
Definition toolFilter (policy : option ToolPolicy) : ToolFilter :=
  match policy with
  | None => empty_filter
  | Some policy =>
      {| filter_denied :=
           if (0 <? length (denied policy))%nat then Some (denied policy) else None;
         filter_allowed :=
           if (0 <? length (allowed policy))%nat
              && negb (array_includes "*" (allowed policy))
           then Some (allowed policy) else None |}
  end.

(** The loop of [listPolicies] over the names [readdir] answered. *)
Fixpoint listPolicies_loop (files : list string) (policies : list ToolPolicy)
    : M Store (list ToolPolicy) :=
  match files with
  | [] => mret policies
  | file :: rest =>
      if negb (Str.endsWith ".json" file) then listPolicies_loop rest policies
      else
        policy ← getToolPolicy (Str.remove_first ".json" file);
        match policy with
        | Some policy => listPolicies_loop rest (policies ++ [policy])
        | None => listPolicies_loop rest policies
        end
  end.

(** [listPolicies]; [files] is the answer of [readdir]: the names of the
    directory in the order the file system gives them. *)
Definition listPolicies (files : list string) : M Store (list ToolPolicy) :=
  listPolicies_loop files [].

End ToolPolicyService.

(** ** Values of the language *)

Module Js.

(** The values a run context holds: what [JSON.parse] and [yaml.parse]
    produce, [undefined], and the built-in functions an object inherits
    from its prototype ([VNative], with the text [String] gives for it).
    Numbers are integers. An object is the list of its own properties. *)
Inductive value : Type :=
  | VUndefined
  | VNull
  | VBool (b : bool)
  | VNum (n : Z)
  | VStr (s : string)
  | VArr (items : list value)
  | VObj (fields : list (string * value))
  | VNative (text : string).

Abbreviation obj := (list (string * value)).

(** What an object inherits: the properties of [Object.prototype], and of
    [Array.prototype] for an array, as the engine defines them. *)
Class Realm : Type := {
  Object_prototype : string -> option value;
  Array_prototype : string -> option value;
}.

(** [ToBoolean] *)
Definition truthy (v : value) : bool :=
  match v with
  | VUndefined | VNull => false
  | VBool b => b
  | VNum n => negb (n =? 0)
  | VStr s => negb (bool_decide (s = EmptyString))
  | VArr _ | VObj _ | VNative _ => true
  end.

(** [typeof v === 'object'] *)
Definition typeof_object (v : value) : bool :=
  match v with
  | VNull | VArr _ | VObj _ => true
  | _ => false
  end.

(** The own property [k] of an object. *)
Fixpoint own (k : string) (o : obj) : option value :=
  match o with
  | [] => None
  | (k', v) :: o' => if bool_decide (k' = k) then Some v else own k o'
  end.

(** The element of an array that the property name [k] indexes: [k] is
    the decimal form of a position of the array. *)
Definition array_index (k : string) (items : list value) : option value :=
  i ← list_find (fun i : nat => pretty i = k) (seq 0 (length items));
  items !! i.1.

Section WithRealm.
Context `{Realm}.

(** The property [k] of [v] through the prototype chain, for [v] an
    object or an array; [None] when [k in v] is false. *)
Definition property (v : value) (k : string) : option value :=
  match v with
  | VObj o =>
      match own k o with
      | Some x => Some x
      | None => Object_prototype k
      end
  | VArr items =>
      match array_index k items with
      | Some x => Some x
      | None =>
          if bool_decide (k = "length") then Some (VNum (Z.of_nat (length items)))
          else match Array_prototype k with
               | Some x => Some x
               | None => Object_prototype k
               end
      end
  | _ => None
  end.

(** [o[k]] on an object. *)
Definition get (o : obj) (k : string) : value :=
  default VUndefined (property (VObj o) k).

End WithRealm.

(** [{...o, k: v}], and [o[k] = v] for a name other than [__proto__]: the
    own property is replaced where it stands or added at the end. *)
Fixpoint set (k : string) (v : value) (o : obj) : obj :=
  match o with
  | [] => [(k, v)]
  | (k', v') :: o' =>
      if bool_decide (k' = k) then (k, v) :: o' else (k', v') :: set k v o'
  end.

(** [o[k] = v]: assigning to [__proto__] goes to the setter that the
    object inherits and makes no own property. *)
Definition assign (k : string) (v : value) (o : obj) : obj :=
  if bool_decide (k = "__proto__") then o else set k v o.

Definition TypeError (message : string) : exn := Error message.

(** [String(v)]. An array is its elements joined by commas, [null] and
    [undefined] elements giving nothing. An object goes through the
    [toString] it inherits, unless an own [toString] property that is not
    callable hides it, which is a [TypeError]. *)
Fixpoint to_String (v : value) : result string :=
  match v with
  | VUndefined => Ok "undefined"
  | VNull => Ok "null"
  | VBool b => Ok (if b then "true" else "false")
  | VNum n => Ok (pretty n)
  | VStr s => Ok s
  | VNative text => Ok text
  | VObj o =>
      match own "toString" o with
      | None | Some (VNative _) => Ok "[object Object]"
      | Some _ => Throw (TypeError "Cannot convert object to primitive value")
      end
  | VArr items =>
      (fix join_items (first : bool) (items : list value) : result string :=
         match items with
         | [] => Ok EmptyString
         | x :: rest =>
             match (match x with
                    | VUndefined | VNull => Ok EmptyString
                    | _ => to_String x
                    end) with
             | Throw e => Throw e
             | Ok s =>
                 match join_items false rest with
                 | Throw e => Throw e
                 | Ok t => Ok ((if first then EmptyString else ",") +:+ s +:+ t)
                 end
             end
         end) true items
  end.

(** [s.split(sep)] for a separator of one character. *)
Fixpoint split (sep : ascii) (s : string) : list string :=
  match s with
  | EmptyString => [EmptyString]
  | String c s' =>
      if bool_decide (c = sep) then EmptyString :: split sep s'
      else match split sep s' with
           | part :: parts => String c part :: parts
           | [] => [String c EmptyString]
           end
  end.

End Js.

(** ** WorkflowStepExecutor *)

(** Modelled from the spec: the declarations of [types/workflow]
    ([WorkflowStep], [WorkflowRun], [StepRun], [WorkflowAgent],
    [StepSessionConfig], [StepExecutionResult]) are not among the sources.
    The records below hold the attributes the data model of the design
    gives each entity, which are the fields the executor reads, an optional
    field being an [option]. Fields that hold one of a few strings are
    strings here, so that the fall-through branches of the source can be
    taken. *)

Module StepSession.
(** [WorkflowStep.session]: every field is optional. *)
Record t : Type := {
  mode : option string;
  context : option string;
  cleanup : option string;
  timeout : option Z;
  includeOutputsFrom : option (list string);
}.
End StepSession.

Module WorkflowStep.
Record t : Type := {
  id : string;
  type : string;
  agent : option string;
  input : option string;
  (** [step.output?.file] *)
  output_file : option string;
  acceptance_criteria : option (list string);
  session : option StepSession.t;
  fresh_session : option bool;
  timeout : option Z;
}.
End WorkflowStep.

Module StepRun.
Record t : Type := {
  stepId : string;
  status : string;
  duration : option Z;
}.
End StepRun.

Module WorkflowRun.
Record t : Type := {
  id : string;
  workflowId : string;
  taskId : string;
  context : Js.obj;
  steps : list StepRun.t;
}.
End WorkflowRun.

Module WorkflowAgent.
Record t : Type := {
  id : string;
  role : option string;
  model : option string;
}.
End WorkflowAgent.

Module StepSessionConfig.
Record t : Type := {
  mode : string;
  context : string;
  cleanup : string;
  timeout : Z;
  includeOutputsFrom : option (list string);
}.
End StepSessionConfig.

Module StepExecutionResult.
Record t : Type := {
  output : Js.value;
  outputPath : list string;
}.
End StepExecutionResult.

Module WorkflowStepExecutor.
Import Js.

(** The libraries the executor calls: [sanitize-filename], [path.extname]
    and the two parsers ([None] when the parser throws). *)
Class Libraries : Type := {
  sanitizeFilename : string -> string;
  path_extname : string -> string;
  yaml_parse : string -> option value;
  JSON_parse : string -> option value;
}.

(** The event loop: a [loadDefaults] that nobody awaits goes on while the
    executor waits for the file system, and [meanwhile i] is the number
    of times it is resumed during the [i]-th wait of a step. *)
Class EventLoop : Type := {
  meanwhile : nat -> nat;
}.

(** What the executor works on: the policies directory with the cache of
    the policy service of the process, the runs directory (a file being
    named by its path below that directory), and the singleton
    [toolPolicyServiceInstance]: [None] while it is null, and once the
    service has been constructed the number of steps its [loadDefaults]
    has made. *)
Record World : Type := {
  policies : ToolPolicyService.Store;
  runs : gmap (list string) string;
  service : option nat;
}.

Definition set_runs (fs : gmap (list string) string) (w : World) : World :=
  {| policies := policies w; runs := fs; service := service w |}.

Definition set_policies (st : ToolPolicyService.Store) (w : World) : World :=
  {| policies := st; runs := runs w; service := service w |}.

(** The [loadDefaults] of the singleton resumed [n] more times, as far as
    it has steps left to make: resumed, it sees to the file of the policy
    at hand and goes on to the next [await], which is past the caching of
    the next policy. *)
Definition advance (n : nat) (w : World) : World :=
  match service w with
  | None => w
  | Some made =>
      {| policies :=
           foldl ToolPolicyService.run_loadStep (policies w)
             (take (2 * n)
                (drop made
                   (ToolPolicyService.loadDefaults_steps
                      ToolPolicyService.DEFAULT_POLICIES)));
         runs := runs w;
         service := Some (made + 2 * n)%nat |}
  end.

(** The service with every step of its [loadDefaults] made. *)
Definition settled : option nat :=
  Some (length (ToolPolicyService.loadDefaults_steps ToolPolicyService.DEFAULT_POLICIES)).

(** The [i]-th wait of a step. *)
Definition wait `{EventLoop} (i : nat) : M World unit :=
  fun w => (Ok tt, advance (meanwhile i) w).

(** [getToolPolicyService]: the first call constructs the service, which
    returns with its [loadDefaults] at the first [await]. *)
Definition getToolPolicyService : M World unit :=
  fun w =>
    match service w with
    | Some _ => (Ok tt, w)
    | None =>
        (Ok tt,
         {| policies := ToolPolicyService.constructor (ToolPolicyService.disk (policies w));
            runs := runs w;
            service := Some 1%nat |})
    end.

(** [getToolPolicy] of the singleton, whose [loadDefaults] may be under
    way: the cache is looked at when the call is made; on a miss the file
    is read during the wait that follows, and what it held is validated
    and cached when the wait is over. *)
Definition service_getToolPolicy `{EventLoop} (r : string)
    : M World (option ToolPolicyService.ToolPolicy) :=
  fun w =>
    let normalizedRole := ToolPolicyService.normalizeRole r in
    match ToolPolicyService.cache (policies w) !! normalizedRole with
    | Some cachedPolicy => (Ok (Some cachedPolicy), w)
    | None =>
        let w1 := advance (meanwhile 1) w in
        let file :=
          ToolPolicyService.disk (policies w1)
            !! ToolPolicyService.policyFileName normalizedRole in
        let w2 := advance (meanwhile 2) w1 in
        match file with
        | None => (Ok None, w2)
        | Some (ToolPolicyService.Unparsable message) =>
            (Throw (ValidationError ("Invalid tool policy: " +:+ message)), w2)
        | Some (ToolPolicyService.Parsed policy) =>
            match ToolPolicyService.validatePolicy policy with
            | Throw e =>
                (Throw (ValidationError ("Invalid tool policy: " +:+ exn_message e)), w2)
            | Ok _ =>
                (Ok (Some policy),
                 set_policies
                   (ToolPolicyService.set_cache
                      (<[normalizedRole := policy]> (ToolPolicyService.cache (policies w2)))
                      (policies w2)) w2)
            end
        end
    end.

(** [getToolFilterForRole] of the singleton. *)
Definition service_getToolFilterForRole `{EventLoop} (r : string)
    : M World ToolPolicyService.ToolFilter :=
  policy ← service_getToolPolicy r;
  mret (ToolPolicyService.toolFilter policy).

Definition nl : string := String (ascii_of_N 10) EmptyString.

(** [a || b] on numbers and on strings. *)
Definition or_number (a : option Z) (b : Z) : Z :=
  match a with
  | Some n => if n =? 0 then b else n
  | None => b
  end.

Definition or_string (a : option string) (b : string) : string :=
  match a with
  | Some s => if bool_decide (s = EmptyString) then b else s
  | None => b
  end.

(** The workflow entry of a run context, read at the type the source
    casts it to: [{ agents?: WorkflowAgent[], config?: { fresh_session_default?: boolean } }]. *)
Definition as_string (v : value) : option string :=
  match v with VStr s => Some s | _ => None end.

Definition as_agent (v : value) : option WorkflowAgent.t :=
  match v with
  | VObj o =>
      i ← own "id" o ≫= as_string;
      Some {| WorkflowAgent.id := i;
              WorkflowAgent.role := own "role" o ≫= as_string;
              WorkflowAgent.model := own "model" o ≫= as_string |}
  | _ => None
  end.

Definition workflow_agents (context : obj) : option (list WorkflowAgent.t) :=
  match own "workflow" context with
  | Some (VObj workflow) =>
      match own "agents" workflow with
      | Some (VArr items) => Some (omap as_agent items)
      | _ => None
      end
  | _ => None
  end.

(** [workflowConfig?.config?.fresh_session_default] *)
Definition workflow_fresh_session_default (context : obj) : option bool :=
  match own "workflow" context with
  | Some (VObj workflow) =>
      match own "config" workflow with
      | Some (VObj config) =>
          match own "fresh_session_default" config with
          | Some (VBool b) => Some b
          | _ => None
          end
      | _ => None
      end
  | _ => None
  end.

(** [getAgentDefinition] *)
Definition getAgentDefinition (run : WorkflowRun.t) (agentId : option string)
    : option WorkflowAgent.t :=
  match workflow_agents (WorkflowRun.context run) with
  | None => None
  | Some agents =>
      match list_find (fun a => agentId = Some (WorkflowAgent.id a)) agents with
      | Some (_, a) => Some a
      | None => None
      end
  end.

(** [buildSessionConfig]; [defaultConfig] is
    [defaultConfig?.fresh_session_default]. *)
Definition buildSessionConfig (step : WorkflowStep.t) (run : WorkflowRun.t)
    (defaultConfig : option bool) : StepSessionConfig.t :=
  match WorkflowStep.session step with
  | Some session =>
      {| StepSessionConfig.mode := or_string (StepSession.mode session) "fresh";
         StepSessionConfig.context := or_string (StepSession.context session) "minimal";
         StepSessionConfig.cleanup := or_string (StepSession.cleanup session) "delete";
         StepSessionConfig.timeout :=
           or_number (StepSession.timeout session)
             (or_number (WorkflowStep.timeout step) 600);
         StepSessionConfig.includeOutputsFrom := StepSession.includeOutputsFrom session |}
  | None =>
      match WorkflowStep.fresh_session step with
      | Some fresh_session =>
          {| StepSessionConfig.mode := if fresh_session then "fresh" else "reuse";
             StepSessionConfig.context := "minimal";
             StepSessionConfig.cleanup := "delete";
             StepSessionConfig.timeout := or_number (WorkflowStep.timeout step) 600;
             StepSessionConfig.includeOutputsFrom := None |}
      | None =>
          let freshSessionDefault := default true defaultConfig in
          {| StepSessionConfig.mode := if freshSessionDefault then "fresh" else "reuse";
             StepSessionConfig.context := "minimal";
             StepSessionConfig.cleanup := "delete";
             StepSessionConfig.timeout := or_number (WorkflowStep.timeout step) 600;
             StepSessionConfig.includeOutputsFrom := None |}
      end
  end.

Definition number_or_undefined (n : option Z) : value :=
  match n with Some n => VNum n | None => VUndefined end.

Section WithRealm.
Context `{Realm}.

(** [buildStepsContext] *)
Definition buildStepsContext (run : WorkflowRun.t) : obj :=
  foldl
    (fun stepsContext stepRun =>
       if bool_decide (StepRun.status stepRun = "completed")
          && truthy (get (WorkflowRun.context run) (StepRun.stepId stepRun))
       then
         assign (StepRun.stepId stepRun)
           (VObj [("output", get (WorkflowRun.context run) (StepRun.stepId stepRun));
                  ("status", VStr (StepRun.status stepRun));
                  ("duration", number_or_undefined (StepRun.duration stepRun))])
           stepsContext
       else stepsContext)
    [] (WorkflowRun.steps run).

(** [progress || ''] *)
Definition progress_text (progress : option string) : string :=
  default EmptyString progress.

Definition baseContext (run : WorkflowRun.t) : obj :=
  [("task", get (WorkflowRun.context run) "task");
   ("workflow", VObj [("id", VStr (WorkflowRun.workflowId run));
                      ("runId", VStr (WorkflowRun.id run))])].

(** The loop of the [custom] branch of [buildSessionContext]. *)
Definition customStepsContext (run : WorkflowRun.t) (ids : list string) : obj :=
  foldl
    (fun stepsContext stepId =>
       if truthy (get (WorkflowRun.context run) stepId)
       then assign stepId
              (VObj [("output", get (WorkflowRun.context run) stepId)]) stepsContext
       else stepsContext)
    [] ids.

(** [buildSessionContext] *)
Definition buildSessionContext (sessionConfig : StepSessionConfig.t)
    (run : WorkflowRun.t) (progress : option string) : obj :=
  let context := StepSessionConfig.context sessionConfig in
  if bool_decide (context = "minimal") then
    set "progress" (VStr (progress_text progress)) (baseContext run)
  else if bool_decide (context = "full") then
    set "steps" (VObj (buildStepsContext run))
      (set "progress" (VStr (progress_text progress)) (WorkflowRun.context run))
  else if bool_decide (context = "custom") then
    let customContext := set "progress" (VStr (progress_text progress)) (baseContext run) in
    match StepSessionConfig.includeOutputsFrom sessionConfig with
    | Some ids => assign "steps" (VObj (customStepsContext run ids)) customContext
    | None => customContext
    end
  else baseContext run.

(** [getNestedValue] *)
Definition getNestedValue (o : obj) (path : string) : value :=
  foldl
    (fun current key =>
       if truthy current && typeof_object current then
         default VUndefined (property current key)
       else VUndefined)
    (VObj o) (split "." path).

(** The longest run of characters other than the closing brace at the
    head of a string, and what follows it. *)
Fixpoint key_span (s : string) : string * string :=
  match s with
  | EmptyString => (EmptyString, EmptyString)
  | String c s' =>
      if bool_decide (c = "}"%char) then (EmptyString, s)
      else let '(k, r) := key_span s' in (String c k, r)
  end.

(** The pattern of [renderTemplate], two opening braces, one or more
    characters other than a closing brace, two closing braces, matched
    at the head of a string: the captured key and the length of the
    match. *)
Definition match_placeholder (s : string) : option (string * nat) :=
  match s with
  | String "{" (String "{" t) =>
      match key_span t with
      | (String c k, String "}" (String "}" _)) =>
          Some (String c k, (4 + String.length (String c k))%nat)
      | _ => None
      end
  | _ => None
  end.

(** [s.replace(pattern, f)] with the global flag: the string is read
    from the left; where the pattern matches, [f] of the key replaces
    the match and reading goes on after it ([skip] counts the rest of a
    match still to pass over); elsewhere the character is kept. *)
Fixpoint replace_placeholders (f : string -> result string) (skip : nat) (s : string)
    : result string :=
  match s with
  | EmptyString => Ok EmptyString
  | String c s' =>
      match skip with
      | S n => replace_placeholders f n s'
      | O =>
          match match_placeholder s with
          | Some (key, len) =>
              r ← f key;
              rest ← replace_placeholders f (len - 1) s';
              Ok (r +:+ rest)
          | None =>
              rest ← replace_placeholders f 0 s';
              Ok (String c rest)
          end
      end
  end.

(** The replacement function of [renderTemplate]. *)
Definition substitute (context : obj) (key : string) : result string :=
  let trimmedKey := Str.trim key in
  let value := getNestedValue context trimmedKey in
  match value with
  | VUndefined => Ok ("{{" +:+ trimmedKey +:+ "}}")
  | _ => to_String value
  end.

(** [renderTemplate] *)
Definition renderTemplate (template : string) (context : obj) : result string :=
  replace_placeholders (substitute context) 0 template.

End WithRealm.

Section WithLibraries.
Context `{Realm} `{Libraries} `{EventLoop}.

(** [parseStepOutput]: a parser that throws gives the raw text back. *)
Definition parseStepOutput (rawOutput : string) (step : WorkflowStep.t) : value :=
  if bool_decide (rawOutput = EmptyString) then VStr rawOutput else
  let hintedFile := or_string (WorkflowStep.output_file step) EmptyString in
  let extension := Str.toLowerCase (path_extname hintedFile) in
  if bool_decide (extension = ".yml") || bool_decide (extension = ".yaml") then
    default (VStr rawOutput) (yaml_parse rawOutput)
  else if bool_decide (extension = ".json") then
    default (VStr rawOutput) (JSON_parse rawOutput)
  else VStr rawOutput.

(** The guard of the three file methods: the run id must be a file
    name that the sanitizer leaves as it is. *)
Definition valid_runId (runId : string) : bool :=
  negb (bool_decide (sanitizeFilename runId = EmptyString))
  && bool_decide (sanitizeFilename runId = runId).

Definition invalidRunId (runId : string) : exn :=
  Error ("Invalid run ID: " +:+ runId).

Definition stepOutputPath (runId stepId : string) : list string :=
  let candidate := stepId +:+ ".md" in
  let safeName := or_string (Some (sanitizeFilename candidate)) (stepId +:+ ".md") in
  [runId; "step-outputs"; safeName].

(** [saveStepOutput], for the text the executor passes and no file name. *)
Definition saveStepOutput (runId stepId output : string) : M World (list string) :=
  fun w =>
    if valid_runId runId then
      let outputPath := stepOutputPath runId stepId in
      (Ok outputPath, set_runs (<[outputPath := output]> (runs w)) w)
    else (Throw (invalidRunId runId), w).

(** [validateCriterion] *)
Definition validateCriterion (criterion rawOutput : string) (parsedOutput : value) : bool :=
  Str.includes criterion rawOutput.

Definition criterionNotMet (criterion : string) : exn :=
  Error ("Acceptance criterion not met: " +:+ Str.dquote +:+ criterion +:+ Str.dquote).

Fixpoint validateCriteria (criteria : list string) (output : string) (parsedOutput : value)
    : result unit :=
  match criteria with
  | [] => Ok tt
  | criterion :: rest =>
      if validateCriterion criterion output parsedOutput
      then validateCriteria rest output parsedOutput
      else Throw (criterionNotMet criterion)
  end.

(** [validateAcceptanceCriteria] *)
Definition validateAcceptanceCriteria (step : WorkflowStep.t) (output : string)
    (parsedOutput : value) : result unit :=
  match WorkflowStep.acceptance_criteria step with
  | None => Ok tt
  | Some criteria => validateCriteria criteria output parsedOutput
  end.

Definition progressPath (runId : string) : list string := [runId; "progress.md"].

(** [loadProgressFile] *)
Definition loadProgressFile (runId : string) : M World (option string) :=
  fun w =>
    if valid_runId runId then (Ok (runs w !! progressPath runId), w)
    else (Throw (invalidRunId runId), w).

Definition MAX_PROGRESS_FILE_SIZE : N := 10 * 1024 * 1024.

(** [stats.size]: the length of the file in bytes. *)
Definition file_size (content : string) : N := N.of_nat (String.length content).

Definition progressEntry (stepId timestamp output : string) : string :=
  "## Step: " +:+ stepId +:+ " (" +:+ timestamp +:+ ")" +:+ nl +:+ nl
  +:+ output +:+ nl +:+ nl +:+ "---" +:+ nl +:+ nl.

(** [appendProgressFile], for the text the executor passes; [timestamp]
    is [new Date().toISOString()]. *)
Definition appendProgressFile (runId stepId output timestamp : string) : M World unit :=
  fun w =>
    if valid_runId runId then
      match runs w !! progressPath runId with
      | Some content =>
          if (MAX_PROGRESS_FILE_SIZE <? file_size content)%N then (Ok tt, w)
          else
            (Ok tt,
             set_runs (<[progressPath runId :=
                           content +:+ progressEntry stepId timestamp output]> (runs w)) w)
      | None =>
          (Ok tt,
           set_runs (<[progressPath runId := progressEntry stepId timestamp output]>
                       (runs w)) w)
      end
    else (Throw (invalidRunId runId), w).

(** [getToolPolicyForAgent] *)
Definition getToolPolicyForAgent (agentDef : option WorkflowAgent.t)
    : M World ToolPolicyService.ToolFilter :=
  match agentDef ≫= WorkflowAgent.role with
  | None => mret ToolPolicyService.empty_filter
  | Some r =>
      if bool_decide (r = EmptyString) then mret ToolPolicyService.empty_filter
      else getToolPolicyService ≫= fun _ => service_getToolFilterForRole r
  end.

(** [list?.join(', ') || fallback] *)
Definition joined_or (tools : option (list string)) (fallback : string) : string :=
  or_string (Str.join ", " <$> tools) fallback.

(** The text that stands for the output of the agent in this phase. *)
Definition placeholderResult (step : WorkflowStep.t) (agentDef : option WorkflowAgent.t)
    (sessionConfig : StepSessionConfig.t) (toolPolicyFilter : ToolPolicyService.ToolFilter)
    (prompt : string) : string :=
  "Agent " +:+ default "undefined" (WorkflowStep.agent step)
  +:+ " (role: " +:+ or_string (agentDef ≫= WorkflowAgent.role) "unknown"
  +:+ ") executed step " +:+ WorkflowStep.id step +:+ nl +:+ nl
  +:+ "Session Config:" +:+ nl
  +:+ "- Mode: " +:+ StepSessionConfig.mode sessionConfig +:+ nl
  +:+ "- Context: " +:+ StepSessionConfig.context sessionConfig +:+ nl
  +:+ "- Cleanup: " +:+ StepSessionConfig.cleanup sessionConfig +:+ nl
  +:+ "- Timeout: " +:+ pretty (StepSessionConfig.timeout sessionConfig) +:+ "s" +:+ nl +:+ nl
  +:+ "Tool Policy:" +:+ nl
  +:+ "- Allowed: " +:+ joined_or (ToolPolicyService.filter_allowed toolPolicyFilter) "all" +:+ nl
  +:+ "- Denied: " +:+ joined_or (ToolPolicyService.filter_denied toolPolicyFilter) "none" +:+ nl +:+ nl
  +:+ "Prompt:" +:+ nl +:+ prompt +:+ nl +:+ nl
  +:+ "STATUS: done" +:+ nl +:+ "OUTPUT: Placeholder result".

(** [executeAgentStep] up to the raw output of the agent: the agent
    definition, the session configuration, the progress file, the
    session context, the prompt, the tool filter and the result. The
    methods are given by what they do themselves; what a [loadDefaults]
    under way does during their waits is put where the executor awaits
    them. *)
Definition agentOutput (step : WorkflowStep.t) (run : WorkflowRun.t) : M World string :=
  let agentDef := getAgentDefinition run (WorkflowStep.agent step) in
  let sessionConfig :=
    buildSessionConfig step run
      (workflow_fresh_session_default (WorkflowRun.context run)) in
  progress ← loadProgressFile (WorkflowRun.id run);
  wait 0 ≫= fun _ =>
  let sessionContext := buildSessionContext sessionConfig run progress in
  prompt ← (fun w => (renderTemplate (or_string (WorkflowStep.input step) EmptyString)
                        sessionContext, w));
  toolPolicyFilter ← getToolPolicyForAgent agentDef;
  mret (placeholderResult step agentDef sessionConfig toolPolicyFilter prompt).

(** [executeAgentStep]; [timestamp] is the time of the append. *)
Definition executeAgentStep (step : WorkflowStep.t) (run : WorkflowRun.t)
    (timestamp : string) : M World StepExecutionResult.t :=
  result ← agentOutput step run;
  let parsed := parseStepOutput result step in
  (fun w => (validateAcceptanceCriteria step result parsed, w)) ≫= fun _ =>
  outputPath ← saveStepOutput (WorkflowRun.id run) (WorkflowStep.id step) result;
  wait 3 ≫= fun _ =>
  appendProgressFile (WorkflowRun.id run) (WorkflowStep.id step) result timestamp ≫= fun _ =>
  wait 4 ≫= fun _ =>
  mret {| StepExecutionResult.output := parsed;
          StepExecutionResult.outputPath := outputPath |}.

(** [executeStep] *)
Definition executeStep (step : WorkflowStep.t) (run : WorkflowRun.t)
    (timestamp : string) : M World StepExecutionResult.t :=
  let type := WorkflowStep.type step in
  if bool_decide (type = "agent") then executeAgentStep step run timestamp
  else if bool_decide (type = "loop") then
    throw (Error "Loop steps not yet implemented (Phase 4)")
  else if bool_decide (type = "gate") then
    throw (Error "Gate steps not yet implemented (Phase 4)")
  else if bool_decide (type = "parallel") then
    throw (Error "Parallel steps not yet implemented (Phase 4)")
  else throw (Error ("Unknown step type: " +:+ type)).

End WithLibraries.

End WorkflowStepExecutor.

(** ** A host to run the model on

    The prototypes as V8 has them (every own property name of
    [Object.prototype]; those of [Array.prototype] as of Node 20), and
    stand-ins for the libraries: a sanitizer that drops the characters
    [sanitize-filename] drops and refuses the names [.] and [..], the
    extension as the text from the last dot of the last path segment, and
    parsers that accept no input, and an event loop on which a
    [loadDefaults] under way is resumed three times during every wait. The
    theorems below hold for every realm, every choice of libraries and
    every event loop; the host serves the closed examples. *)

Module Host.
Import Js WorkflowStepExecutor.

Definition native (name : string) : value :=
  VNative ("function " +:+ name +:+ "() { [native code] }").

Definition Object_prototype_names : list string :=
  ["__defineGetter__"; "__defineSetter__"; "hasOwnProperty"; "__lookupGetter__";
   "__lookupSetter__"; "isPrototypeOf"; "propertyIsEnumerable"; "toString";
   "valueOf"; "toLocaleString"].

Definition Array_prototype_names : list string :=
  ["at"; "concat"; "copyWithin"; "fill"; "find"; "findIndex"; "findLast";
   "findLastIndex"; "lastIndexOf"; "pop"; "push"; "reverse"; "shift"; "unshift";
   "slice"; "sort"; "splice"; "includes"; "indexOf"; "join"; "keys"; "entries";
   "values"; "forEach"; "filter"; "flat"; "flatMap"; "map"; "every"; "some";
   "reduce"; "reduceRight"; "toLocaleString"; "toString"; "toReversed";
   "toSorted"; "toSpliced"; "with"].

(** [Object.prototype] as an object: its functions, its constructor, and
    its own prototype, which is [null]. *)
Definition Object_prototype_fields : obj :=
  ("constructor", native "Object")
  :: ((fun name => (name, native name)) <$> Object_prototype_names)
  ++ [("__proto__", VNull)].

#[global] Instance v8 : Realm := {|
  Object_prototype k :=
    if bool_decide (k = "__proto__") then Some (VObj Object_prototype_fields)
    else own k Object_prototype_fields;
  Array_prototype k :=
    if bool_decide (k = "constructor") then Some (native "Array")
    else if bool_decide (k = "__proto__") then Some (VArr [])
    else if bool_decide (k ∈ Array_prototype_names) then Some (native k)
    else None;
|}.

Definition illegal_char (c : ascii) : bool :=
  let n := N_of_ascii c in
  ((n <? 32) || ((128 <=? n) && (n <? 160))
   || bool_decide (c ∈ ["/"; "?"; "<"; ">"; "\"; ":"; "*"; "|"; ascii_of_N 34]%char))%N.

Fixpoint drop_illegal (s : string) : string :=
  match s with
  | EmptyString => EmptyString
  | String c s' => if illegal_char c then drop_illegal s' else String c (drop_illegal s')
  end.

Definition sanitize (s : string) : string :=
  let t := drop_illegal s in
  if bool_decide (t = ".") || bool_decide (t = "..") then EmptyString else t.

(** The text from the last dot of [s] on, when that dot is not its first
    character; [after_slash] tells whether the character before is a
    path separator. *)
Fixpoint extname_from (after_slash : bool) (s : string) : string :=
  match s with
  | EmptyString => EmptyString
  | String c s' =>
      let later := extname_from (bool_decide (c = "/"%char)) s' in
      if bool_decide (later = EmptyString) then
        if bool_decide (c = "."%char) && negb after_slash
           && negb (bool_decide ("/"%char ∈ list_ascii_of_string s'))
        then s else EmptyString
      else later
  end.

#[global] Instance libraries : Libraries := {|
  sanitizeFilename := sanitize;
  path_extname := extname_from true;
  yaml_parse := fun _ => None;
  JSON_parse := fun _ => None;
|}.

#[global] Instance event_loop : EventLoop := {|
  meanwhile := fun _ => 3%nat;
|}.

End Host.

(** ** The vocabulary of the properties *)

Module Spec.
Import ToolPolicyService Js WorkflowStepExecutor.

(** The names the design gives to the failures of the store. *)
Definition PolicyProtected (normalizedRole : string) : exn :=
  ValidationError (protectedMessage normalizedRole).
Definition PolicyLimitExceeded : exn := ValidationError limitMessage.
Definition PolicyInvalid (message : string) : exn :=
  ValidationError ("Invalid tool policy: " +:+ message).

(** The calls a client of the service can make after construction
    ([listPolicies] is a sequence of [getToolPolicy] calls). *)
Inductive call : Type :=
  | Call_getToolPolicy (r : string)
  | Call_savePolicy (policy : ToolPolicy)
  | Call_deletePolicy (r : string)
  | Call_validateToolAccess (r tool : string)
  | Call_getToolFilterForRole (r : string).

Definition run_call (st : Store) (c : call) : Store :=
  match c with
  | Call_getToolPolicy r => (getToolPolicy r st).2
  | Call_savePolicy policy => (savePolicy policy st).2
  | Call_deletePolicy r => (deletePolicy r st).2
  | Call_validateToolAccess r tool => (validateToolAccess r tool st).2
  | Call_getToolFilterForRole r => (getToolFilterForRole r st).2
  end.

Definition run_calls (st : Store) (cs : list call) : Store :=
  foldl run_call st cs.

(** The call saves a policy for the role [normalizedRole]. *)
Definition saves_role (normalizedRole : string) (c : call) : Prop :=
  match c with
  | Call_savePolicy policy => normalizeRole (role policy) = normalizedRole
  | _ => False
  end.

(** [x] is [step.timeout], or 600 when the step declares none (or zero). *)
Definition step_timeout_or_600 (step : WorkflowStep.t) (x : Z) : Prop :=
  match WorkflowStep.timeout step with
  | Some t => if bool_decide (t = 0) then x = 600 else x = t
  | None => x = 600
  end.

(** [needle] is a literal substring of [hay]. *)
Definition substring (needle hay : string) : Prop :=
  ∃ pre post, hay = pre +:+ needle +:+ post.

(** The failure of an acceptance criterion, as the design names it: an
    error whose message quotes the criterion. *)
Definition AcceptanceFailed (criterion : string) : exn :=
  Error ("Acceptance criterion not met: "
         +:+ String (ascii_of_N 34) (criterion +:+ String (ascii_of_N 34) EmptyString)).

(** A template, cut into literal text and placeholders. *)
Inductive segment : Type :=
  | Text (s : string)
  | Placeholder (key : string).

Definition segment_text (seg : segment) : string :=
  match seg with
  | Text s => s
  | Placeholder key => "{{" +:+ key +:+ "}}"
  end.

Fixpoint template_text (segs : list segment) : string :=
  match segs with
  | [] => EmptyString
  | seg :: rest => segment_text seg +:+ template_text rest
  end.

(** The character [c] occurs in [s]. *)
Fixpoint occurs (c : ascii) (s : string) : Prop :=
  match s with
  | EmptyString => False
  | String c' s' => c' = c ∨ occurs c s'
  end.

(** No placeholder starts in the text [s] when [rest] follows it. *)
Definition no_match_in (s rest : string) : Prop :=
  ∀ pre post, s = pre +:+ post → post ≠ EmptyString →
    match_placeholder (post +:+ rest) = None.

(** The segments are those the pattern cuts the template into: no
    placeholder starts inside a text, and the key of a placeholder is not
    empty and has no closing brace. *)
Fixpoint segmented (segs : list segment) : Prop :=
  match segs with
  | [] => True
  | Text s :: rest => no_match_in s (template_text rest) ∧ segmented rest
  | Placeholder key :: rest =>
      key ≠ EmptyString ∧ ¬ occurs "}" key ∧ segmented rest
  end.

(** A text in which every opening brace is followed by a character other
    than an opening brace: no placeholder starts in it, whatever follows. *)
Fixpoint plain (s : string) : Prop :=
  match s with
  | EmptyString => True
  | String c s' =>
      (c = "{"%char → match s' with
                      | String c' _ => c' ≠ "{"%char
                      | EmptyString => False
                      end) ∧ plain s'
  end.

Section WithRealm.
Context `{Realm}.

(** The output of step [id] is recorded in the run context: the value
    under that key is truthy. *)
Definition recorded (run : WorkflowRun.t) (id : string) : Prop :=
  truthy (get (WorkflowRun.context run) id) = true.

(** The entry of the steps mapping that [buildStepsContext] makes for a
    step run. *)
Definition step_entry (run : WorkflowRun.t) (stepRun : StepRun.t) : value :=
  VObj [("output", get (WorkflowRun.context run) (StepRun.stepId stepRun));
        ("status", VStr "completed");
        ("duration", number_or_undefined (StepRun.duration stepRun))].

(** The step run is one of step [id] and completed. *)
Definition completed_run (id : string) (stepRun : StepRun.t) : Prop :=
  StepRun.stepId stepRun = id ∧ StepRun.status stepRun = "completed".

#[global] Instance completed_run_dec id stepRun : Decision (completed_run id stepRun).
Proof. unfold completed_run. apply _. Defined.

(** One turn of the loop of [buildStepsContext]. *)
Definition add_step (run : WorkflowRun.t) (stepsContext : obj) (stepRun : StepRun.t) : obj :=
  if bool_decide (StepRun.status stepRun = "completed")
     && truthy (get (WorkflowRun.context run) (StepRun.stepId stepRun))
  then
    assign (StepRun.stepId stepRun)
      (VObj [("output", get (WorkflowRun.context run) (StepRun.stepId stepRun));
             ("status", VStr (StepRun.status stepRun));
             ("duration", number_or_undefined (StepRun.duration stepRun))])
      stepsContext
  else stepsContext.

Definition custom_entry (run : WorkflowRun.t) (id : string) : value :=
  VObj [("output", get (WorkflowRun.context run) id)].

(** The value at the end of a path of keys, walking down nested objects
    and arrays: there is none when a key is missing at some level, or
    when the value to walk into is not an object. *)
Fixpoint resolve (v : value) (keys : list string) : option value :=
  match keys with
  | [] => Some v
  | key :: keys' =>
      match v with
      | VObj _ | VArr _ => property v key ≫= fun x => resolve x keys'
      | _ => None
      end
  end.

(** What a placeholder becomes: the string form of the value its
    trimmed key resolves to, or, when it resolves to nothing or to
    [undefined], the placeholder again, with the trimmed key. *)
Definition render_placeholder (context : obj) (key : string) : result string :=
  let path := Str.trim key in
  match resolve (VObj context) (split "." path) with
  | None | Some VUndefined => Ok ("{{" +:+ path +:+ "}}")
  | Some v => to_String v
  end.

Fixpoint render_segments (context : obj) (segs : list segment) : result string :=
  match segs with
  | [] => Ok EmptyString
  | Text s :: rest =>
      r ← render_segments context rest; Ok (s +:+ r)
  | Placeholder key :: rest =>
      p ← render_placeholder context key;
      r ← render_segments context rest;
      Ok (p +:+ r)
  end.

End WithRealm.

(** A string that is empty or starts with a character other than white
    space: what [trimStart] leaves. *)
Definition starts_clean (s : string) : Prop :=
  match s with
  | EmptyString => True
  | String c _ => Str.is_space c = false
  end.

(** The files [loadDefaults] writes into an empty directory, and the
    cache it fills. *)
Definition default_files : gmap string PolicyFile :=
  list_to_map
    ((λ policy, (policyFileName (role policy), Parsed policy)) <$> DEFAULT_POLICIES).

Definition default_cache : gmap string ToolPolicy :=
  list_to_map ((λ policy, (role policy, policy)) <$> DEFAULT_POLICIES).

(** From the directory [d] to the directory [d'] no file was changed or
    removed, and a file that appeared is the file of a built-in policy
    with the built-in content. *)
Definition only_defaults_written (d d' : gmap string PolicyFile) : Prop :=
  ∀ f, match d !! f with
       | Some content => d' !! f = Some content
       | None => d' !! f = None ∨ d' !! f = default_files !! f
       end.

(** A record that cannot be read as a policy, with the message of the
    failure: it does not parse, or what it holds is not a valid policy. *)
Definition unreadable (file : PolicyFile) (message : string) : Prop :=
  match file with
  | Unparsable m => m = message
  | Parsed policy => ∃ e, validatePolicy policy = Throw e ∧ exn_message e = message
  end.

(** What the service has to say about a normalized role: the cached
    policy, or else the record of the directory. *)
Definition answer (st : Store) (normalizedRole : string) : option ToolPolicy :=
  match cache st !! normalizedRole with
  | Some policy => Some policy
  | None =>
      match disk st !! policyFileName normalizedRole with
      | Some (Parsed policy) => Some policy
      | _ => None
      end
  end.

(** Every cached policy passes validation and has its file. *)
Definition cache_backed (st : Store) : Prop :=
  ∀ k policy, cache st !! k = Some policy →
    validatePolicy policy = Ok tt ∧ is_Some (disk st !! policyFileName k).

Section WithLibraries.
Context `{Libraries}.

(** A sequence of [appendProgressFile] calls, each with its run id, step
    id, output and time. *)
Definition run_appends (w : World) (calls : list (string * string * string * string))
    : World :=
  foldl (fun w '(runId, stepId, output, timestamp) =>
           (appendProgressFile runId stepId output timestamp w).2) w calls.

End WithLibraries.

End Spec.

(** ** Data for the examples *)

Module Examples.
Import ToolPolicyService Js WorkflowStepExecutor Spec.

(** A reviewer policy on disk that differs from the built-in one. *)
Definition reviewer_override : ToolPolicy :=
  {| role := "reviewer"; allowed := ["Read"]; denied := ["exec"];
     description := None |}.

(** Forty-five records of user-defined roles [team0] .. [team44]. *)
Definition team_policy (n : nat) : ToolPolicy :=
  {| role := "team" +:+ pretty n; allowed := ["Read"]; denied := ["exec"];
     description := None |}.

Definition crowded_directory : gmap string PolicyFile :=
  list_to_map
    ((λ n, (policyFileName (role (team_policy n)), Parsed (team_policy n)))
       <$> seq 0 45).

(** Forty-nine such records: with the five files the constructor adds the
    directory holds fifty-four. *)
Definition overfull_directory : gmap string PolicyFile :=
  list_to_map
    ((λ n, (policyFileName (role (team_policy n)), Parsed (team_policy n)))
       <$> seq 0 49).

(** A log of 10 MiB and one byte. *)
Definition oversized_log : string :=
  N.iter (MAX_PROGRESS_FILE_SIZE + 1) (String "x") EmptyString.

Definition world_of_log (content : string) : World :=
  {| policies := ToolPolicyService.constructor_settled ∅;
     runs := {[ progressPath "run-1" := content ]};
     service := settled |}.

(** A step that asks for an approval the agent does not give. *)
Definition review_step : WorkflowStep.t :=
  {| WorkflowStep.id := "review"; WorkflowStep.type := "agent";
     WorkflowStep.agent := Some "rev"; WorkflowStep.input := Some "Review {{ task }}";
     WorkflowStep.output_file := None;
     WorkflowStep.acceptance_criteria := Some ["STATUS: done"; "APPROVED"; "LGTM"];
     WorkflowStep.session := None; WorkflowStep.fresh_session := None;
     WorkflowStep.timeout := None |}.

Definition review_run : WorkflowRun.t :=
  {| WorkflowRun.id := "run-1"; WorkflowRun.workflowId := "wf";
     WorkflowRun.taskId := "task-1";
     WorkflowRun.context :=
       [("task", VStr "the parser");
        ("workflow",
         VObj [("agents", VArr [VObj [("id", VStr "rev"); ("role", VStr "reviewer")]])])];
     WorkflowRun.steps := [] |}.

Definition review_world : World :=
  {| policies := ToolPolicyService.constructor_settled ∅;
     runs := {[ progressPath "run-1" := "# Progress" ]};
     service := settled |}.

(** The output of the agent for that step, as the executor composes it. *)
Definition review_output : string :=
  Eval vm_compute in
    match (agentOutput review_step review_run review_world).1 with
    | Ok output => output
    | Throw _ => EmptyString
    end.

(** A run with two completed steps: [lint], whose output is the boolean
    [false], and [build]. *)
Definition checked_run : WorkflowRun.t :=
  {| WorkflowRun.id := "run-1"; WorkflowRun.workflowId := "wf";
     WorkflowRun.taskId := "task-1";
     WorkflowRun.context := [("lint", VBool false); ("build", VStr "ok")];
     WorkflowRun.steps :=
       [{| StepRun.stepId := "lint"; StepRun.status := "completed";
           StepRun.duration := Some 12 |};
        {| StepRun.stepId := "build"; StepRun.status := "completed";
           StepRun.duration := Some 40 |}] |}.

Definition config_with (context : string) (ids : option (list string))
    : StepSessionConfig.t :=
  {| StepSessionConfig.mode := "fresh"; StepSessionConfig.context := context;
     StepSessionConfig.cleanup := "delete"; StepSessionConfig.timeout := 600;
     StepSessionConfig.includeOutputsFrom := ids |}.

Definition greeting_context : obj := [("a", VObj [("b", VStr "x")])].

(** A step whose only criterion the agent meets. *)
Definition plan_step : WorkflowStep.t :=
  {| WorkflowStep.id := "plan"; WorkflowStep.type := "agent";
     WorkflowStep.agent := Some "rev"; WorkflowStep.input := Some "Plan {{ task }}";
     WorkflowStep.output_file := None;
     WorkflowStep.acceptance_criteria := Some ["STATUS: done"];
     WorkflowStep.session := None; WorkflowStep.fresh_session := None;
     WorkflowStep.timeout := None |}.

Definition plan_output : string :=
  Eval vm_compute in
    match (agentOutput plan_step review_run review_world).1 with
    | Ok output => output
    | Throw _ => EmptyString
    end.

(** A run whose id is not a file name. *)
Definition escaping_run : WorkflowRun.t :=
  {| WorkflowRun.id := "../run-1"; WorkflowRun.workflowId := "wf";
     WorkflowRun.taskId := "task-1"; WorkflowRun.context := [];
     WorkflowRun.steps := [] |}.

(** A run whose task has no string form: its own [toString] is not a
    function. *)
Definition opaque_task_run : WorkflowRun.t :=
  {| WorkflowRun.id := "run-1"; WorkflowRun.workflowId := "wf";
     WorkflowRun.taskId := "task-1";
     WorkflowRun.context := [("task", VObj [("toString", VNum 1)])];
     WorkflowRun.steps := [] |}.


(** A run whose agent has a role with a record that does not parse. *)
Definition audit_run : WorkflowRun.t :=
  {| WorkflowRun.id := "run-1"; WorkflowRun.workflowId := "wf";
     WorkflowRun.taskId := "task-1";
     WorkflowRun.context :=
       [("task", VStr "the parser");
        ("workflow",
         VObj [("agents", VArr [VObj [("id", VStr "rev"); ("role", VStr "Auditor")]])])];
     WorkflowRun.steps := [] |}.

(** A process in which the policy service has not been used yet, over a
    policies directory with that one record. *)
Definition first_use_world : World :=
  {| policies :=
       {| disk := {[ "auditor.json" := Unparsable "Unexpected end of JSON input" ]};
          cache := ∅ |};
     runs := {[ progressPath "run-1" := "# Progress" ]};
     service := None |}.

End Examples.

(** * Properties *)

(** ** Properties of the tool policy service *)

Module ToolPolicyFacts.
Import ToolPolicyService Spec Examples.

Lemma getToolPolicy_cached r st policy :
  cache st !! normalizeRole r = Some policy →
  getToolPolicy r st = (Ok (Some policy), st).
Proof. intros H. unfold getToolPolicy. by rewrite H. Qed.

Lemma getToolPolicy_absent r st :
  cache st !! normalizeRole r = None →
  disk st !! policyFileName (normalizeRole r) = None →
  getToolPolicy r st = (Ok None, st).
Proof. intros Hc Hd. unfold getToolPolicy. by rewrite Hc, Hd. Qed.

(** A record that does not parse, or fails validation, is a [PolicyInvalid]
    failure; no default stands in for it and nothing is cached. *)
Lemma getToolPolicy_invalid r st :
  cache st !! normalizeRole r = None →
  match disk st !! policyFileName (normalizeRole r) with
  | Some (Unparsable message) =>
      getToolPolicy r st = (Throw (PolicyInvalid message), st)
  | Some (Parsed policy) =>
      ∀ e, validatePolicy policy = Throw e →
        getToolPolicy r st = (Throw (PolicyInvalid (exn_message e)), st)
  | None => getToolPolicy r st = (Ok None, st)
  end.
Proof.
  intros Hc. unfold getToolPolicy. rewrite Hc.
  destruct (disk st !! policyFileName (normalizeRole r)) as [[m|p]|]; [done| |done].
  by intros e ->.
Qed.

(** [getToolPolicy] answers "no policy" exactly when the role is neither
    cached nor on disk, and then changes nothing. *)
Lemma getToolPolicy_None_inv r st st' :
  getToolPolicy r st = (Ok None, st') →
  st' = st ∧ cache st !! normalizeRole r = None ∧
  disk st !! policyFileName (normalizeRole r) = None.
Proof.
  unfold getToolPolicy.
  destruct (cache st !! normalizeRole r) eqn:Hc; [intros; simplify_eq|].
  destruct (disk st !! policyFileName (normalizeRole r)) as [[m|p]|] eqn:Hd;
    [intros; simplify_eq| |intros; by simplify_eq].
  destruct (validatePolicy p); intros; simplify_eq.
Qed.

(** [getToolPolicy] never touches the directory. *)
Lemma getToolPolicy_disk r st :
  disk (getToolPolicy r st).2 = disk st.
Proof.
  unfold getToolPolicy.
  destruct (cache st !! normalizeRole r); [done|].
  destruct (disk st !! policyFileName (normalizeRole r)) as [[m|p]|]; [done| |done].
  by destruct (validatePolicy p).
Qed.

Lemma array_includes_spec x xs : array_includes x xs = true ↔ x ∈ xs.
Proof. unfold array_includes. by rewrite bool_decide_eq_true. Qed.

Lemma array_includes_false x xs : array_includes x xs = false ↔ x ∉ xs.
Proof. unfold array_includes. by rewrite bool_decide_eq_false. Qed.

(** C2. [validateToolAccess] follows [getToolPolicy]: with no policy for
    the role every tool is allowed; with a policy, a tool on the denied
    list is refused whatever the allowed list holds, otherwise the
    wildcard on the allowed list grants it, otherwise it is granted
    exactly when it is on the allowed list. A failure of [getToolPolicy]
    is passed on. *)
Theorem validateToolAccess_spec (r tool : string) (st : Store) :
  match getToolPolicy r st with
  | (Ok None, st') => validateToolAccess r tool st = (Ok true, st')
  | (Ok (Some policy), st') =>
      ∃ b : bool, validateToolAccess r tool st = (Ok b, st') ∧
        (tool ∈ denied policy → b = false) ∧
        (tool ∉ denied policy → "*" ∈ allowed policy → b = true) ∧
        (tool ∉ denied policy → "*" ∉ allowed policy →
           (b = true ↔ tool ∈ allowed policy))
  | (Throw e, st') => validateToolAccess r tool st = (Throw e, st')
  end.
Proof.
  unfold validateToolAccess, mbind, M_bind.
  destruct (getToolPolicy r st) as [[[policy|]|e] st']; [|done|done].
  destruct (array_includes tool (denied policy)) eqn:Hd.
  - apply array_includes_spec in Hd. exists false. naive_solver.
  - apply array_includes_false in Hd.
    destruct (array_includes "*" (allowed policy)) eqn:Hw.
    + apply array_includes_spec in Hw. exists true. naive_solver.
    + apply array_includes_false in Hw.
      exists (array_includes tool (allowed policy)).
      split; [done|]. split; [done|]. split; [done|].
      intros _ _. apply array_includes_spec.
Qed.

(** C6. [getToolFilterForRole]: the empty filter with no policy; with a
    policy, the [denied] key is present, and is the denied list of the
    policy, exactly when that list is not empty, and the [allowed] key is
    present, and is the allowed list of the policy, exactly when that list
    is not empty and does not hold the wildcard. *)
Theorem getToolFilterForRole_spec (r : string) (st : Store) :
  match getToolPolicy r st with
  | (Ok None, st') => getToolFilterForRole r st = (Ok empty_filter, st')
  | (Ok (Some policy), st') =>
      ∃ f : ToolFilter, getToolFilterForRole r st = (Ok f, st') ∧
        (denied policy ≠ [] → filter_denied f = Some (denied policy)) ∧
        (denied policy = [] → filter_denied f = None) ∧
        (allowed policy ≠ [] → "*" ∉ allowed policy →
           filter_allowed f = Some (allowed policy)) ∧
        (allowed policy = [] ∨ "*" ∈ allowed policy → filter_allowed f = None)
  | (Throw e, st') => getToolFilterForRole r st = (Throw e, st')
  end.
Proof.
  unfold getToolFilterForRole, mbind, M_bind.
  destruct (getToolPolicy r st) as [[[policy|]|e] st']; [|done|done].
  eexists. split; [reflexivity|]. simpl.
  split; [by destruct (denied policy)|].
  split; [by intros ->|].
  split.
  - intros Ha Hw. apply array_includes_false in Hw. rewrite Hw.
    by destruct (allowed policy).
  - intros [->|Hw]; [done|].
    apply array_includes_spec in Hw. rewrite Hw. by rewrite andb_false_r.
Qed.

(** *** Deleting *)

Lemma policyFileName_inj r1 r2 :
  policyFileName r1 = policyFileName r2 → r1 = r2.
Proof.
  unfold policyFileName. revert r2.
  induction r1 as [|a r1 IH]; intros [|b r2] H; simpl in H; try done.
  - destruct r2 as [|? [|? [|? [|? [|? [|? ?]]]]]]; simplify_eq/=.
  - destruct r1 as [|? [|? [|? [|? [|? [|? ?]]]]]]; simplify_eq/=.
  - simplify_eq/=. f_equal. by apply IH.
Qed.

Lemma default_role_normal r : r ∈ DEFAULT_ROLES → normalizeRole r = r.
Proof.
  unfold DEFAULT_ROLES. rewrite elem_of_list_to_set.
  rewrite !elem_of_cons, elem_of_nil.
  intros [->|[->|[->|[->|[->|[]]]]]]; reflexivity.
Qed.

Lemma savePolicy_inv policy st st' :
  savePolicy policy st = (Ok tt, st') →
  validatePolicy policy = Ok tt ∧
  disk st' = <[policyFileName (normalizeRole (role policy)) := Parsed policy]> (disk st) ∧
  cache st' = <[normalizeRole (role policy) := policy]> (cache st).
Proof.
  unfold savePolicy. destruct (validatePolicy policy) as [[]|e]; [|done].
  case_match; intros; by simplify_eq/=.
Qed.

(** A failed call of any method of the store that throws before writing
    leaves the store as it was. *)
Lemma savePolicy_throw_frame policy st e st' :
  savePolicy policy st = (Throw e, st') → st' = st.
Proof.
  unfold savePolicy. destruct (validatePolicy policy) as [[]|e'];
    [case_match|]; intros; by simplify_eq/=.
Qed.

Lemma deletePolicy_persisted r st content :
  normalizeRole r ∉ DEFAULT_ROLES →
  disk st !! policyFileName (normalizeRole r) = Some content →
  deletePolicy r st =
    (Ok tt, {| disk := delete (policyFileName (normalizeRole r)) (disk st);
               cache := delete (normalizeRole r) (cache st) |}).
Proof.
  intros Hnd Hd. unfold deletePolicy.
  rewrite bool_decide_eq_false_2 by done. by rewrite Hd.
Qed.

(** Every spelling of a default role is protected: the role is compared
    trimmed and in lower case. *)
Lemma deletePolicy_protected r st :
  normalizeRole r ∈ DEFAULT_ROLES →
  deletePolicy r st = (Throw (PolicyProtected (normalizeRole r)), st).
Proof. intros Hr. unfold deletePolicy. by rewrite bool_decide_eq_true_2. Qed.

(** C9. Deleting a role of the fixed default set fails with
    [PolicyProtected] and leaves the directory and the cache as they
    were. Deleting a role that is not a default and has a persisted
    record (which is what a successful [savePolicy] leaves) succeeds,
    removes that record and the cache entry and nothing else, and a
    [getToolPolicy] of the role then answers that there is none. *)
Theorem deletePolicy_spec :
  (∀ r st, r ∈ DEFAULT_ROLES →
     deletePolicy r st = (Throw (PolicyProtected r), st)) ∧
  (∀ policy st st', savePolicy policy st = (Ok tt, st') →
     disk st' !! policyFileName (normalizeRole (role policy)) = Some (Parsed policy)) ∧
  (∀ r st content,
     normalizeRole r ∉ DEFAULT_ROLES →
     disk st !! policyFileName (normalizeRole r) = Some content →
     ∃ st', deletePolicy r st = (Ok tt, st') ∧
       disk st' = delete (policyFileName (normalizeRole r)) (disk st) ∧
       cache st' = delete (normalizeRole r) (cache st) ∧
       getToolPolicy r st' = (Ok None, st')).
Proof.
  split; [|split].
  - intros r st Hr. unfold deletePolicy.
    rewrite (default_role_normal r Hr).
    by rewrite bool_decide_eq_true_2.
  - intros policy st st' (_ & -> & _)%savePolicy_inv.
    apply lookup_insert_eq.
  - intros r st content Hnd Hd. eexists. split.
    { by eapply deletePolicy_persisted. }
    split; [done|]. split; [done|].
    apply getToolPolicy_absent; simpl; apply lookup_delete_eq.
Qed.

(** A save followed by a delete and a get, on a role that is not a default. *)
Lemma deletePolicy_spec_witness :
  let policy := {| role := " Auditor "; allowed := ["Read"]; denied := ["exec"];
                   description := None |} in
  let st := constructor_settled ∅ in
  ∃ st' st'',
    savePolicy policy st = (Ok tt, st') ∧
    deletePolicy "auditor" st' = (Ok tt, st'') ∧
    getToolPolicy "AUDITOR" st'' = (Ok None, st'').
Proof.
  intros policy st.
  destruct (savePolicy policy st) as [r st'] eqn:Hs.
  assert (r = Ok tt) as -> by (vm_compute in Hs; by simplify_eq).
  destruct (proj2 (proj2 deletePolicy_spec) "auditor" st' (Parsed policy))
    as (st'' & Hdel & _ & _ & Hget).
  - vm_compute. set_solver.
  - apply (proj1 (proj2 deletePolicy_spec) policy st st' Hs).
  - exists st', st''. split; [done|]. split; [done|]. exact Hget.
Defined.

(** *** Defaults in the cache *)

Lemma loadDefaults_persist_cache policy st :
  cache (loadDefaults_persist policy st) = cache st.
Proof. unfold loadDefaults_persist. by case_match. Qed.

Lemma loadDefaults_persist_disk policy st f content :
  disk st !! f = Some content →
  disk (loadDefaults_persist policy st) !! f = Some content.
Proof.
  intros Hf. unfold loadDefaults_persist.
  destruct (disk st !! policyFileName (role policy)) eqn:Hp; [done|].
  simpl. rewrite lookup_insert_ne; [done|]. congruence.
Qed.

Lemma loadDefaults_loop_disk policies st f content :
  disk st !! f = Some content →
  disk (loadDefaults_loop policies st) !! f = Some content.
Proof.
  revert st. induction policies as [|policy rest IH]; intros st Hf; [done|].
  simpl. apply IH. by apply loadDefaults_persist_disk.
Qed.

(** Every policy of the list is in the cache when the loop is over,
    provided no later policy of the list has the same role. *)
Lemma loadDefaults_loop_cache policies st policy :
  policy ∈ policies →
  NoDup (role <$> policies) →
  cache (loadDefaults_loop policies st) !! role policy = Some policy.
Proof.
  revert st. induction policies as [|p rest IH]; intros st Hin Hnd.
  { by apply elem_of_nil in Hin. }
  simpl in *. apply NoDup_cons in Hnd as [Hp Hnd].
  apply elem_of_cons in Hin as [->|Hin]; [|by apply IH].
  clear IH. assert (∀ st', cache st' !! role p = Some p →
    cache (loadDefaults_loop rest st') !! role p = Some p) as Hkeep.
  { clear st. induction rest as [|q rest IH]; intros st' Hc; [done|].
    simpl. apply not_elem_of_cons in Hp as [Hpq Hp].
    apply NoDup_cons in Hnd as [_ Hnd].
    apply IH; [done..|].
    rewrite loadDefaults_persist_cache. simpl.
    by rewrite lookup_insert_ne. }
  apply Hkeep. rewrite loadDefaults_persist_cache. simpl.
  apply lookup_insert_eq.
Qed.

Lemma DEFAULT_POLICIES_roles_NoDup : NoDup (role <$> DEFAULT_POLICIES).
Proof. apply (bool_decide_unpack _). by vm_compute. Qed.

Lemma DEFAULT_POLICIES_role policy :
  policy ∈ DEFAULT_POLICIES →
  role policy ∈ DEFAULT_ROLES ∧ normalizeRole (role policy) = role policy.
Proof.
  unfold DEFAULT_POLICIES. rewrite !elem_of_cons, elem_of_nil.
  intros [->|[->|[->|[->|[->|[]]]]]]; (split; [by vm_compute; set_solver|reflexivity]).
Qed.

Lemma constructor_settled_loadDefaults d :
  constructor_settled d = loadDefaults {| disk := d; cache := ∅ |}.
Proof. reflexivity. Qed.

Lemma constructor_settled_cache d policy :
  policy ∈ DEFAULT_POLICIES →
  cache (constructor_settled d) !! role policy = Some policy.
Proof.
  intros Hin. rewrite constructor_settled_loadDefaults.
  apply loadDefaults_loop_cache; [done|]. apply DEFAULT_POLICIES_roles_NoDup.
Qed.

Lemma getToolPolicy_keeps r st k policy :
  cache st !! k = Some policy →
  cache (getToolPolicy r st).2 !! k = Some policy.
Proof.
  intros Hk. unfold getToolPolicy.
  destruct (cache st !! normalizeRole r) eqn:Hc; [done|].
  destruct (disk st !! policyFileName (normalizeRole r)) as [[m|p]|]; [done| |done].
  destruct (validatePolicy p); [|done]. simpl.
  rewrite lookup_insert_ne; [done|]. congruence.
Qed.

Lemma validateToolAccess_state r tool st :
  (validateToolAccess r tool st).2 = (getToolPolicy r st).2.
Proof.
  unfold validateToolAccess, mbind, M_bind.
  destruct (getToolPolicy r st) as [[[policy|]|e] st']; [|done..].
  by repeat case_match.
Qed.

Lemma getToolFilterForRole_state r st :
  (getToolFilterForRole r st).2 = (getToolPolicy r st).2.
Proof.
  unfold getToolFilterForRole, mbind, M_bind.
  by destruct (getToolPolicy r st) as [[[policy|]|e] st'].
Qed.

(** A cached default and its file stay as they are under every call
    except a save for that role. *)
Lemma run_call_keeps_default st c k policy file :
  k ∈ DEFAULT_ROLES →
  ¬ saves_role k c →
  cache st !! k = Some policy →
  disk st !! policyFileName k = file →
  cache (run_call st c) !! k = Some policy ∧
  disk (run_call st c) !! policyFileName k = file.
Proof.
  intros Hk Hns Hc Hd. destruct c as [r|p|r|r tool|r]; simpl in *.
  - split; [by apply getToolPolicy_keeps|by rewrite getToolPolicy_disk].
  - unfold savePolicy. destruct (validatePolicy p); [|done].
    case_match; [done|]. simpl.
    rewrite !lookup_insert_ne; [done|intros ?%policyFileName_inj; done|done].
  - unfold deletePolicy. case_bool_decide as Hdef; [done|].
    case_match; [|done]. simpl.
    rewrite !lookup_delete_ne; [done|intros ?%policyFileName_inj|]; congruence.
  - rewrite validateToolAccess_state.
    split; [by apply getToolPolicy_keeps|by rewrite getToolPolicy_disk].
  - rewrite getToolFilterForRole_state.
    split; [by apply getToolPolicy_keeps|by rewrite getToolPolicy_disk].
Qed.

Lemma run_calls_keep_default st cs k policy file :
  k ∈ DEFAULT_ROLES →
  Forall (λ c, ¬ saves_role k c) cs →
  cache st !! k = Some policy →
  disk st !! policyFileName k = file →
  cache (run_calls st cs) !! k = Some policy ∧
  disk (run_calls st cs) !! policyFileName k = file.
Proof.
  intros Hk Hcs. revert st. induction Hcs as [|c cs Hc _ IH]; intros st Hca Hd.
  { done. }
  simpl. destruct (run_call_keeps_default st c k policy file) as [? ?]; auto.
Qed.

(** What C10 describes, from the moment it holds. Once the [loadDefaults]
    that the constructor starts has run to completion, each of the five
    built-in policies is in the cache whatever the directory held; from
    then on, and after any calls that do not save a policy for that role,
    [getToolPolicy] of a default role answers the built-in policy and
    leaves the store as it is, and a record for that role that was in the
    directory before construction is still there, unread. *)
Lemma defaults_shadow_persisted_overrides
    (d : gmap string PolicyFile) (policy : ToolPolicy) (cs : list call) :
  policy ∈ DEFAULT_POLICIES →
  Forall (λ c, ¬ saves_role (role policy) c) cs →
  let st := run_calls (constructor_settled d) cs in
  getToolPolicy (role policy) st = (Ok (Some policy), st) ∧
  (∀ override, d !! policyFileName (role policy) = Some override →
     disk st !! policyFileName (role policy) = Some override).
Proof.
  intros Hin Hcs st.
  destruct (DEFAULT_POLICIES_role policy Hin) as [Hrole Hnorm].
  split.
  - apply getToolPolicy_cached. rewrite Hnorm.
    eapply (run_calls_keep_default _ _ _ _ _ Hrole Hcs); [|done].
    by apply constructor_settled_cache.
  - intros override Hd.
    eapply (run_calls_keep_default _ _ _ policy _ Hrole Hcs).
    + by apply constructor_settled_cache.
    + rewrite constructor_settled_loadDefaults.
      by apply loadDefaults_loop_disk.
Qed.

Lemma defaults_shadow_persisted_overrides_witness :
  let d : gmap string PolicyFile := {[ "reviewer.json" := Parsed reviewer_override ]} in
  let cs := [Call_getToolPolicy "planner"; Call_deletePolicy "reviewer";
             Call_savePolicy {| role := "auditor"; allowed := ["Read"];
                                denied := []; description := None |}] in
  ∃ policy, policy ∈ DEFAULT_POLICIES ∧ role policy = "reviewer" ∧
    policy ≠ reviewer_override ∧
    let st := run_calls (constructor_settled d) cs in
    getToolPolicy "reviewer" st = (Ok (Some policy), st) ∧
    disk st !! "reviewer.json" = Some (Parsed reviewer_override).
Proof.
  intros d cs.
  assert (Hin : nth 2 DEFAULT_POLICIES reviewer_override ∈ DEFAULT_POLICIES).
  { apply (bool_decide_unpack _). by vm_compute. }
  assert (Hcs : Forall (λ c, ¬ saves_role (role (nth 2 DEFAULT_POLICIES reviewer_override)) c) cs).
  { repeat constructor; simpl; auto. }
  exists (nth 2 DEFAULT_POLICIES reviewer_override).
  split; [exact Hin|]. split; [reflexivity|]. split; [discriminate|].
  destruct (defaults_shadow_persisted_overrides d _ cs Hin Hcs) as [Hget Hdisk].
  split; [exact Hget|]. apply Hdisk. reflexivity.
Defined.

(** C10 at a failing input. The directory holds a reviewer policy that
    differs from the built-in one. When the constructor returns,
    [loadDefaults] has set the cache entry of the first built-in policy
    only and waits at its first [await]; a [getToolPolicy] of the reviewer
    role made then misses the cache, reads the record of the directory and
    answers it, not the built-in policy. *)
Lemma constructor_reads_persisted_override :
  let d : gmap string PolicyFile := {[ "reviewer.json" := Parsed reviewer_override ]} in
  ∃ policy st',
    policy ∈ DEFAULT_POLICIES ∧ role policy = "reviewer" ∧
    getToolPolicy "reviewer" (constructor d) = (Ok (Some reviewer_override), st') ∧
    reviewer_override ≠ policy.
Proof.
  intros d. exists (nth 2 DEFAULT_POLICIES reviewer_override). eexists.
  split; [apply (bool_decide_unpack _); by vm_compute|].
  split; [reflexivity|]. split; [vm_compute; reflexivity|discriminate].
Qed.

(** *** Saving *)

(** What [savePolicy] does: a policy that fails validation is refused
    with the validation error; a valid one is refused with
    [PolicyLimitExceeded] exactly when its role is not in the cache and
    the directory holds [MAX_POLICIES] records or more; otherwise the
    record is written and the cache entry set. A refusal changes
    nothing. *)
Lemma savePolicy_cases policy st :
  validatePolicy policy = Ok tt →
  let k := normalizeRole (role policy) in
  (cache st !! k = None ∧ (MAX_POLICIES ≤ policyCount (disk st))%nat ∧
     savePolicy policy st = (Throw PolicyLimitExceeded, st)) ∨
  ((is_Some (cache st !! k) ∨ (policyCount (disk st) < MAX_POLICIES)%nat) ∧
     savePolicy policy st =
       (Ok tt, {| disk := <[policyFileName k := Parsed policy]> (disk st);
                  cache := <[k := policy]> (cache st) |})).
Proof.
  intros Hv k. unfold savePolicy. rewrite Hv. fold k.
  case_bool_decide as Hc; simpl.
  - case_bool_decide as Hn; [left; done|right].
    split; [right; lia|done].
  - right. split; [|done]. left. by apply not_eq_None_Some.
Qed.

Lemma savePolicy_cached policy st :
  validatePolicy policy = Ok tt →
  is_Some (cache st !! normalizeRole (role policy)) →
  ∃ st', savePolicy policy st = (Ok tt, st').
Proof.
  intros Hv [p Hc]. destruct (savePolicy_cases policy st Hv) as [(Hn & _)|[_ ->]];
    [simpl in Hn; congruence|eauto].
Qed.

Lemma savePolicy_limit policy st :
  validatePolicy policy = Ok tt →
  cache st !! normalizeRole (role policy) = None →
  (MAX_POLICIES ≤ policyCount (disk st))%nat →
  savePolicy policy st = (Throw PolicyLimitExceeded, st).
Proof.
  intros Hv Hc Hn. unfold savePolicy. rewrite Hv.
  by rewrite !bool_decide_eq_true_2.
Qed.

(** C8 at a failing input. A process starts on a directory that holds the
    records of forty-five user-defined roles; with the five defaults that
    makes fifty. Saving a new version of the policy of [team7], whose
    record is in the directory, is refused with [PolicyLimitExceeded]:
    the limit is tested against the cache, and the role has not been read
    in this process. Once [getToolPolicy] has read it, the same save is
    accepted. *)
Lemma savePolicy_refuses_persisted_role_not_cached :
  let st := constructor_settled crowded_directory in
  let policy := {| role := "team7"; allowed := ["Read"; "browser"];
                   denied := ["exec"]; description := None |} in
  disk st !! "team7.json" = Some (Parsed (team_policy 7)) ∧
  policyCount (disk st) = 50%nat ∧
  validatePolicy policy = Ok tt ∧
  savePolicy policy st = (Throw PolicyLimitExceeded, st) ∧
  ∃ st', savePolicy policy (getToolPolicy "team7" st).2 = (Ok tt, st').
Proof.
  cbv zeta.
  split; [vm_compute; reflexivity|].
  split; [vm_compute; reflexivity|].
  split; [vm_compute; reflexivity|].
  split.
  - apply savePolicy_limit; [vm_compute; reflexivity..|].
    vm_compute. lia.
  - apply savePolicy_cached; [vm_compute; reflexivity|].
    exists (team_policy 7). vm_compute. reflexivity.
Qed.

(** *** The built-in policies at work *)

(** A settled service on an empty directory: the planner may read and may
    not write, the developer may do anything, and a role without a policy
    is allowed everything. The role is looked up trimmed and in lower
    case. *)
Example planner_access :
  let st := constructor_settled ∅ in
  (validateToolAccess " Planner " "Read" st).1 = Ok true ∧
  (validateToolAccess "planner" "Write" st).1 = Ok false ∧
  (validateToolAccess "planner" "deploy" st).1 = Ok false ∧
  (validateToolAccess "developer" "deploy" st).1 = Ok true ∧
  (validateToolAccess "auditor" "deploy" st).1 = Ok true.
Proof. cbv zeta. repeat split; vm_compute; reflexivity. Qed.

(** The wildcard with one tool denied, saved and read back: the denied
    tool is refused, every other tool is granted, and the filter carries
    the denied list and no allowed list. *)
Example denied_wins_over_wildcard :
  let policy := {| role := "Ops"; allowed := ["*"]; denied := ["exec"];
                   description := None |} in
  let st := (savePolicy policy (constructor_settled ∅)).2 in
  (validateToolAccess "ops" "exec" st).1 = Ok false ∧
  (validateToolAccess "ops" "Read" st).1 = Ok true ∧
  (getToolFilterForRole "ops" st).1 =
    Ok {| filter_allowed := None; filter_denied := Some ["exec"] |}.
Proof. cbv zeta. repeat split; vm_compute; reflexivity. Qed.

Example default_filters :
  let st := constructor_settled ∅ in
  (getToolFilterForRole "developer" st).1 = Ok empty_filter ∧
  (getToolFilterForRole "auditor" st).1 = Ok empty_filter ∧
  (getToolFilterForRole "reviewer" st).1 =
    Ok {| filter_allowed :=
            Some ["Read"; "exec"; "web_search"; "web_fetch"; "browser"; "image"; "nodes"];
          filter_denied := Some ["Write"; "Edit"; "message"] |}.
Proof. cbv zeta. repeat split; vm_compute; reflexivity. Qed.

(** Saving a policy whose lists overlap fails and leaves the store as it is. *)
Example overlapping_policy_refused :
  let st := constructor_settled ∅ in
  savePolicy {| role := "ops"; allowed := ["Read"; "exec"]; denied := ["exec"];
                description := None |} st
  = (Throw (ValidationError "Tools cannot be both allowed and denied: exec"), st).
Proof. cbv zeta. vm_compute. reflexivity. Qed.

End ToolPolicyFacts.

(** ** Properties of the step executor *)

Module SessionConfigFacts.
Import Js WorkflowStepExecutor Spec Examples.

Lemma or_number_step_timeout step :
  step_timeout_or_600 step (or_number (WorkflowStep.timeout step) 600).
Proof.
  unfold step_timeout_or_600, or_number.
  destruct (WorkflowStep.timeout step) as [t|]; [|done].
  case_bool_decide as Ht; [by subst|].
  by apply Z.eqb_neq in Ht as ->.
Qed.

Lemma or_string_declared s d : s ≠ EmptyString → or_string (Some s) d = s.
Proof. intros Hs. unfold or_string. by rewrite bool_decide_eq_false_2. Qed.

Lemma or_number_declared n d : n ≠ 0 → or_number (Some n) d = n.
Proof. intros Hn. unfold or_number. by apply Z.eqb_neq in Hn as ->. Qed.

(** C4, as the code has it. The session configuration of a step follows
    three layers. With a session block, each of mode, context and cleanup
    is the declared one, or [fresh], [minimal], [delete] when the block
    leaves it out; the timeout is the declared one when it is not zero,
    and [step.timeout] or 600 when the block leaves it out or declares
    zero; the list of steps to include is passed on. Without a session
    block but with the legacy flag, the mode is [fresh] exactly when the
    flag is true. Without either, the workflow default decides, and counts
    as true when absent. In the last two layers the context is [minimal],
    the cleanup [delete] and the timeout [step.timeout] or 600. *)
Theorem buildSessionConfig_precedence
    (step : WorkflowStep.t) (run : WorkflowRun.t) (defaultConfig : option bool) :
  let config := buildSessionConfig step run defaultConfig in
  (∀ session, WorkflowStep.session step = Some session →
     (∀ m, StepSession.mode session = Some m → m ≠ EmptyString →
        StepSessionConfig.mode config = m) ∧
     (StepSession.mode session = None → StepSessionConfig.mode config = "fresh") ∧
     (∀ c, StepSession.context session = Some c → c ≠ EmptyString →
        StepSessionConfig.context config = c) ∧
     (StepSession.context session = None → StepSessionConfig.context config = "minimal") ∧
     (∀ c, StepSession.cleanup session = Some c → c ≠ EmptyString →
        StepSessionConfig.cleanup config = c) ∧
     (StepSession.cleanup session = None → StepSessionConfig.cleanup config = "delete") ∧
     (∀ t, StepSession.timeout session = Some t → t ≠ 0 →
        StepSessionConfig.timeout config = t) ∧
     (StepSession.timeout session = None ∨ StepSession.timeout session = Some 0 →
        step_timeout_or_600 step (StepSessionConfig.timeout config)) ∧
     StepSessionConfig.includeOutputsFrom config = StepSession.includeOutputsFrom session) ∧
  (WorkflowStep.session step = None →
     (∀ flag, WorkflowStep.fresh_session step = Some flag →
        (StepSessionConfig.mode config = "fresh" ↔ flag = true) ∧
        (StepSessionConfig.mode config = "reuse" ↔ flag = false)) ∧
     (WorkflowStep.fresh_session step = None →
        (StepSessionConfig.mode config = "fresh" ↔ default true defaultConfig = true) ∧
        (StepSessionConfig.mode config = "reuse" ↔ default true defaultConfig = false)) ∧
     StepSessionConfig.context config = "minimal" ∧
     StepSessionConfig.cleanup config = "delete" ∧
     step_timeout_or_600 step (StepSessionConfig.timeout config) ∧
     StepSessionConfig.includeOutputsFrom config = None).
Proof.
  intros config. subst config. unfold buildSessionConfig. split.
  - intros session ->. simpl.
    split; [intros m -> ?; by apply or_string_declared|].
    split; [by intros ->|].
    split; [intros c -> ?; by apply or_string_declared|].
    split; [by intros ->|].
    split; [intros c -> ?; by apply or_string_declared|].
    split; [by intros ->|].
    split; [intros t -> ?; by apply or_number_declared|].
    split; [|done].
    intros [-> | ->]; simpl; apply or_number_step_timeout.
  - intros ->.
    destruct (WorkflowStep.fresh_session step) as [flag|] eqn:Hflag; simpl.
    + split; [|split; [done|]].
      * intros ? [= <-]. by destruct flag.
      * repeat split; auto using or_number_step_timeout.
    + split; [done|]. split.
      * intros _. by destruct (default true defaultConfig).
      * repeat split; auto using or_number_step_timeout.
Qed.

(** The precedence at work: a step that asks for [reuse] on a workflow
    whose default is fresh sessions. *)
Lemma buildSessionConfig_precedence_witness :
  let session := {| StepSession.mode := Some "reuse"; StepSession.context := None;
                    StepSession.cleanup := None; StepSession.timeout := None;
                    StepSession.includeOutputsFrom := None |} in
  let step := {| WorkflowStep.id := "review"; WorkflowStep.type := "agent";
                 WorkflowStep.agent := Some "reviewer"; WorkflowStep.input := None;
                 WorkflowStep.output_file := None;
                 WorkflowStep.acceptance_criteria := None;
                 WorkflowStep.session := Some session;
                 WorkflowStep.fresh_session := Some true;
                 WorkflowStep.timeout := Some 120 |} in
  let run := {| WorkflowRun.id := "run-1"; WorkflowRun.workflowId := "wf";
                WorkflowRun.taskId := "task"; WorkflowRun.context := [];
                WorkflowRun.steps := [] |} in
  let config := buildSessionConfig step run (Some true) in
  StepSessionConfig.mode config = "reuse" ∧
  StepSessionConfig.context config = "minimal" ∧
  StepSessionConfig.timeout config = 120.
Proof.
  intros session step run config.
  destruct (buildSessionConfig_precedence step run (Some true)) as [Hs _].
  destruct (Hs session eq_refl) as (Hm & _ & _ & Hc & _ & _ & _ & Ht & _).
  split; [by apply Hm|]. split; [by apply Hc|].
  specialize (Ht (or_introl eq_refl)). exact Ht.
Defined.

(** C4, as stated, fails for a session block that declares a timeout
    of zero: the declared value is not used, [step.timeout] is. *)
Lemma declared_zero_timeout_not_used :
  let session := {| StepSession.mode := None; StepSession.context := None;
                    StepSession.cleanup := None; StepSession.timeout := Some 0;
                    StepSession.includeOutputsFrom := None |} in
  let step := {| WorkflowStep.id := "build"; WorkflowStep.type := "agent";
                 WorkflowStep.agent := Some "developer"; WorkflowStep.input := None;
                 WorkflowStep.output_file := None;
                 WorkflowStep.acceptance_criteria := None;
                 WorkflowStep.session := Some session;
                 WorkflowStep.fresh_session := None;
                 WorkflowStep.timeout := Some 30 |} in
  let run := {| WorkflowRun.id := "run-1"; WorkflowRun.workflowId := "wf";
                WorkflowRun.taskId := "task"; WorkflowRun.context := [];
                WorkflowRun.steps := [] |} in
  StepSession.timeout session = Some 0 ∧
  StepSessionConfig.timeout (buildSessionConfig step run None) = 30 ∧
  StepSessionConfig.timeout (buildSessionConfig step run None) ≠ 0.
Proof. by vm_compute. Qed.

End SessionConfigFacts.

Module StrFacts.
Import Spec.

Lemma app_cons c (s t : string) : String c s +:+ t = String c (s +:+ t).
Proof. reflexivity. Qed.

Lemma app_nil_l (t : string) : EmptyString +:+ t = t.
Proof. reflexivity. Qed.

Ltac str_simpl := rewrite ?app_cons, ?app_nil_l in *.

Lemma app_nil_r (s : string) : s +:+ EmptyString = s.
Proof. induction s; str_simpl; by f_equal. Qed.

Lemma app_assoc (a b c : string) : (a +:+ b) +:+ c = a +:+ b +:+ c.
Proof. induction a; str_simpl; by f_equal. Qed.

Lemma length_app (a b : string) :
  String.length (a +:+ b) = (String.length a + String.length b)%nat.
Proof. induction a; str_simpl; simpl; by f_equal. Qed.

Lemma startsWith_spec p s :
  Str.startsWith p s = true ↔ ∃ post, s = p +:+ post.
Proof.
  revert s. induction p as [|a p IH]; intros s; simpl.
  - split; [intros _; by exists s|done].
  - destruct s as [|b s]; [split; [done|intros [? ?]; done]|].
    destruct (ascii_dec a b) as [->|Hab].
    + rewrite IH. split; intros [post Hp]; exists post; str_simpl; by simplify_eq.
    + split; [done|]. intros [post Hp]. str_simpl. by simplify_eq.
Qed.

Lemma includes_spec needle hay :
  Str.includes needle hay = true ↔ substring needle hay.
Proof.
  unfold substring. induction hay as [|c hay IH].
  - simpl. rewrite orb_false_r, startsWith_spec. split.
    + intros [post ?]. by exists EmptyString, post.
    + intros ([|??] & post & Hp); str_simpl; [by exists post|done].
  - cbn [Str.includes]. rewrite orb_true_iff, IH, startsWith_spec. split.
    + intros [[post ?]|(pre & post & ->)].
      * by exists EmptyString, post.
      * by exists (String c pre), post.
    + intros ([|c' pre] & post & Heq); str_simpl.
      * left. by exists post.
      * right. simplify_eq. by exists pre, post.
Qed.

Lemma includes_false needle hay :
  Str.includes needle hay = false ↔ ¬ substring needle hay.
Proof. rewrite <-includes_spec. by destruct (Str.includes needle hay). Qed.

End StrFacts.

Module ProgressLogFacts.
Import Js WorkflowStepExecutor Spec Examples StrFacts.

Section WithLibraries.
Context `{Realm} `{Libraries}.

Lemma progressEntry_length stepId timestamp output :
  (0 < String.length (progressEntry stepId timestamp output))%nat.
Proof. unfold progressEntry. rewrite length_app. simpl. lia. Qed.

(** C7. For a run whose id is a valid file name: when the progress log
    is larger than the ceiling of 10 MiB, [appendProgressFile] returns
    without error and leaves the world, the log included, exactly as it
    was; when the log is at the ceiling or below, or does not exist yet,
    it returns without error, the log becomes the old content followed
    by the new entry, which makes it strictly longer, and nothing else
    changes. *)
Theorem appendProgressFile_spec
    (runId stepId output timestamp : string) (w : World) :
  valid_runId runId = true →
  let entry := progressEntry stepId timestamp output in
  match runs w !! progressPath runId with
  | Some content =>
      if bool_decide (MAX_PROGRESS_FILE_SIZE < file_size content)%N then
        appendProgressFile runId stepId output timestamp w = (Ok tt, w)
      else
        ∃ w', appendProgressFile runId stepId output timestamp w = (Ok tt, w') ∧
          runs w' !! progressPath runId = Some (content +:+ entry) ∧
          (file_size content < file_size (content +:+ entry))%N ∧
          (∀ p, p ≠ progressPath runId → runs w' !! p = runs w !! p) ∧
          policies w' = policies w
  | None =>
      ∃ w', appendProgressFile runId stepId output timestamp w = (Ok tt, w') ∧
        runs w' !! progressPath runId = Some entry ∧
        (∀ p, p ≠ progressPath runId → runs w' !! p = runs w !! p) ∧
        policies w' = policies w
  end.
Proof.
  intros Hvalid entry. unfold appendProgressFile. rewrite Hvalid.
  destruct (runs w !! progressPath runId) as [content|] eqn:Hlog.
  - case_bool_decide as Hsize.
    + apply N.ltb_lt in Hsize. by rewrite Hsize.
    + apply N.ltb_nlt in Hsize. rewrite Hsize. eexists. split; [done|]. simpl.
      split; [apply lookup_insert_eq|].
      split.
      { unfold file_size. rewrite length_app.
        pose proof (progressEntry_length stepId timestamp output) as Hlen.
        fold entry in Hlen. lia. }
      split; [|done]. intros p Hp. by rewrite lookup_insert_ne.
  - eexists. split; [done|]. simpl.
    split; [apply lookup_insert_eq|].
    split; [|done]. intros p Hp. by rewrite lookup_insert_ne.
Qed.

(** The ceiling is a skip: above it the log is the same file, byte for
    byte, whatever is appended. *)
Corollary appendProgressFile_over_ceiling
    (runId stepId output timestamp content : string) (w : World) :
  valid_runId runId = true →
  runs w !! progressPath runId = Some content →
  (MAX_PROGRESS_FILE_SIZE < file_size content)%N →
  appendProgressFile runId stepId output timestamp w = (Ok tt, w).
Proof.
  intros Hvalid Hlog Hsize. unfold appendProgressFile. rewrite Hvalid, Hlog.
  apply N.ltb_lt in Hsize. by rewrite Hsize.
Qed.

End WithLibraries.

Lemma file_size_iter (n : N) (c : ascii) :
  file_size (N.iter n (String c) EmptyString) = n.
Proof.
  unfold file_size. induction n as [|n IH] using N.peano_ind; [done|].
  rewrite N.iter_succ. simpl String.length. lia.
Qed.

Lemma oversized_log_size :
  (MAX_PROGRESS_FILE_SIZE < file_size oversized_log)%N.
Proof. unfold oversized_log. rewrite file_size_iter. lia. Qed.

(** Both sides of the ceiling, on the host: an append to a log over the
    ceiling changes nothing, an append to a short log adds the entry. *)
Lemma appendProgressFile_spec_witness :
  appendProgressFile "run-1" "plan" "STATUS: done" "2026-01-01T00:00:00.000Z"
    (world_of_log oversized_log) = (Ok tt, world_of_log oversized_log) ∧
  ∃ w', appendProgressFile "run-1" "plan" "STATUS: done" "2026-01-01T00:00:00.000Z"
          (world_of_log "# Progress") = (Ok tt, w') ∧
        runs w' !! progressPath "run-1" =
          Some ("# Progress" +:+
                progressEntry "plan" "2026-01-01T00:00:00.000Z" "STATUS: done").
Proof.
  split.
  - generalize oversized_log oversized_log_size. intros content Hsize.
    pose proof (appendProgressFile_spec "run-1" "plan" "STATUS: done"
                  "2026-01-01T00:00:00.000Z" (world_of_log content) eq_refl) as Hspec.
    cbv zeta in Hspec.
    assert (runs (world_of_log content) !! progressPath "run-1"
            = Some content) as Hlog by apply lookup_singleton_eq.
    rewrite Hlog in Hspec.
    rewrite (bool_decide_eq_true_2 _ Hsize) in Hspec.
    exact Hspec.
  - pose proof (appendProgressFile_spec "run-1" "plan" "STATUS: done"
                  "2026-01-01T00:00:00.000Z" (world_of_log "# Progress") eq_refl) as Hspec.
    cbv zeta in Hspec.
    assert (runs (world_of_log "# Progress") !! progressPath "run-1"
            = Some "# Progress") as Hlog by apply lookup_singleton_eq.
    rewrite Hlog in Hspec.
    rewrite bool_decide_eq_false_2 in Hspec by (vm_compute; discriminate).
    destruct Hspec as (w' & Happend & Hread & _).
    exists w'. split; [exact Happend|exact Hread].
Defined.

End ProgressLogFacts.

Module ExecuteStepFacts.
Import Js WorkflowStepExecutor Spec Examples StrFacts.

(** The [loadDefaults] of the singleton never touches the runs
    directory. *)
Lemma runs_advance n w : runs (advance n w) = runs w.
Proof. unfold advance. by destruct (service w). Qed.

Section WithLibraries.
Context `{Realm} `{Libraries} `{EventLoop}.

Lemma service_getToolPolicy_runs r w res w' :
  service_getToolPolicy r w = (res, w') → runs w' = runs w.
Proof.
  unfold service_getToolPolicy.
  destruct (ToolPolicyService.cache (policies w) !! ToolPolicyService.normalizeRole r);
    [by intros [= _ <-]|].
  destruct (ToolPolicyService.disk _ !! _) as [[m|p]|];
    [| destruct (ToolPolicyService.validatePolicy p) |];
    intros [= _ <-]; cbn [runs set_policies]; by rewrite !runs_advance.
Qed.

Lemma getToolPolicyForAgent_runs agentDef w res w' :
  getToolPolicyForAgent agentDef w = (res, w') → runs w' = runs w.
Proof.
  unfold getToolPolicyForAgent.
  destruct (agentDef ≫= WorkflowAgent.role) as [r|]; [|by intros [= _ <-]].
  case_bool_decide; [by intros [= _ <-]|].
  unfold mbind, M_bind, service_getToolFilterForRole, mbind, M_bind.
  destruct (getToolPolicyService w) as [[[]|e] w0] eqn:Hservice.
  - assert (runs w0 = runs w) as <-.
    { revert Hservice. unfold getToolPolicyService.
      destruct (service w); by intros [= <-]. }
    destruct (service_getToolPolicy r w0) as [[policy|e] w1] eqn:Hget;
      intros [= _ <-]; by eapply service_getToolPolicy_runs.
  - revert Hservice. unfold getToolPolicyService. by destruct (service w).
Qed.

(** Everything up to the output of the agent reads the runs directory
    and does not write it. *)
Lemma agentOutput_frame step run w r w' :
  agentOutput step run w = (r, w') → runs w' = runs w.
Proof.
  unfold agentOutput, mbind at 1, M_bind at 1, loadProgressFile.
  destruct (valid_runId (WorkflowRun.id run)); [|by intros [= _ <-]].
  unfold mbind at 1, M_bind at 1, wait.
  unfold mbind at 1, M_bind at 1.
  destruct (renderTemplate _ _) as [prompt|e]; [|intros [= _ <-]; apply runs_advance].
  unfold mbind at 1, M_bind at 1.
  destruct (getToolPolicyForAgent _ _) as [[f|e] w1] eqn:Hfilter;
    intros [= _ <-]; apply getToolPolicyForAgent_runs in Hfilter;
    by rewrite Hfilter, runs_advance.
Qed.

(** The loop over the criteria stops at the first one that is not a
    substring of the output. *)
Lemma validateCriteria_first_unmet criteria output parsed :
  (∃ c, c ∈ criteria ∧ ¬ substring c output) →
  ∃ before c after,
    criteria = before ++ c :: after ∧
    Forall (fun c' => substring c' output) before ∧
    ¬ substring c output ∧
    validateCriteria criteria output parsed = Throw (criterionNotMet c).
Proof.
  induction criteria as [|c0 criteria IH]; intros (c & Hin & Hc).
  { by apply elem_of_nil in Hin. }
  simpl. unfold validateCriterion.
  destruct (Str.includes c0 output) eqn:Hc0.
  - apply includes_spec in Hc0.
    apply elem_of_cons in Hin as [->|Hin]; [done|].
    destruct IH as (before & c1 & after & -> & Hbefore & Hc1 & Hv); [by eauto|].
    exists (c0 :: before), c1, after. by repeat split; [constructor|..].
  - apply includes_false in Hc0.
    exists [], c0, criteria. by repeat split.
Qed.

Lemma validateCriteria_all_met criteria output parsed :
  Forall (fun c => substring c output) criteria →
  validateCriteria criteria output parsed = Ok tt.
Proof.
  induction 1 as [|c criteria Hc _ IH]; [done|].
  simpl. unfold validateCriterion. apply includes_spec in Hc. by rewrite Hc.
Qed.

(** The error the executor throws for a criterion is the one the design
    names: its message is the fixed text followed by the criterion in
    double quotes. *)
Lemma criterionNotMet_AcceptanceFailed criterion :
  criterionNotMet criterion = AcceptanceFailed criterion.
Proof.
  unfold criterionNotMet, AcceptanceFailed, Str.dquote.
  by rewrite (app_cons _ EmptyString), app_nil_l.
Qed.

(** C1. An agent step reaches the output of the agent, and some
    declared acceptance criterion is not a literal substring of that
    output: [executeStep] throws the [AcceptanceFailed] error of the first
    such criterion of the list, whose message is the text
    [Acceptance criterion not met: ] followed by that criterion in double
    quotes; no step artifact is written and the progress log is not
    appended: the runs directory is what it was before the step. *)
Theorem executeStep_acceptance_failed
    (step : WorkflowStep.t) (run : WorkflowRun.t) (timestamp : string)
    (w w1 : World) (output : string) (criteria : list string) :
  WorkflowStep.type step = "agent" →
  agentOutput step run w = (Ok output, w1) →
  WorkflowStep.acceptance_criteria step = Some criteria →
  (∃ c, c ∈ criteria ∧ ¬ substring c output) →
  ∃ before c after,
    criteria = before ++ c :: after ∧
    Forall (fun c' => substring c' output) before ∧
    ¬ substring c output ∧
    executeStep step run timestamp w = (Throw (AcceptanceFailed c), w1) ∧
    exn_message (AcceptanceFailed c) =
      "Acceptance criterion not met: "
      +:+ String (ascii_of_N 34) (c +:+ String (ascii_of_N 34) EmptyString) ∧
    substring c (exn_message (AcceptanceFailed c)) ∧
    runs w1 = runs w ∧
    runs w1 !! stepOutputPath (WorkflowRun.id run) (WorkflowStep.id step)
      = runs w !! stepOutputPath (WorkflowRun.id run) (WorkflowStep.id step) ∧
    runs w1 !! progressPath (WorkflowRun.id run)
      = runs w !! progressPath (WorkflowRun.id run).
Proof.
  intros Htype Hout Hcriteria Hunmet.
  destruct (validateCriteria_first_unmet criteria output
              (parseStepOutput output step) Hunmet)
    as (before & c & after & Hsplit & Hbefore & Hc & Hv).
  exists before, c, after. split; [done|]. split; [done|]. split; [done|].
  pose proof (agentOutput_frame _ _ _ _ _ Hout) as Hruns.
  split; [|split; [done|split; [|by rewrite Hruns]]].
  - unfold executeStep. rewrite Htype. rewrite bool_decide_eq_true_2 by done.
    unfold executeAgentStep, mbind at 1, M_bind at 1. rewrite Hout.
    unfold mbind at 1, M_bind at 1.
    unfold validateAcceptanceCriteria.
    by rewrite Hcriteria, Hv, criterionNotMet_AcceptanceFailed.
  - exists ("Acceptance criterion not met: " +:+ String (ascii_of_N 34) EmptyString),
           (String (ascii_of_N 34) EmptyString).
    unfold AcceptanceFailed. simpl.
    by rewrite !app_assoc, !app_cons, !app_nil_l.
Qed.

(** The output of the agent is reached only for a run id that is a valid
    file name. *)
Lemma agentOutput_valid_runId step run w output w1 :
  agentOutput step run w = (Ok output, w1) →
  valid_runId (WorkflowRun.id run) = true.
Proof.
  unfold agentOutput, mbind at 1, M_bind at 1, loadProgressFile.
  by destruct (valid_runId (WorkflowRun.id run)).
Qed.

(** The other side of C1: when every declared criterion is a substring of
    the output, the step artifact is written with the output, the progress
    log gets one entry more, and the parsed output is returned with the
    path of the artifact. *)
Lemma executeStep_accepted
    (step : WorkflowStep.t) (run : WorkflowRun.t) (timestamp : string)
    (w w1 : World) (output : string) :
  WorkflowStep.type step = "agent" →
  agentOutput step run w = (Ok output, w1) →
  Forall (fun c => substring c output)
    (default [] (WorkflowStep.acceptance_criteria step)) →
  let artifact := stepOutputPath (WorkflowRun.id run) (WorkflowStep.id step) in
  let log := progressPath (WorkflowRun.id run) in
  ∃ w2,
    executeStep step run timestamp w =
      (Ok {| StepExecutionResult.output := parseStepOutput output step;
             StepExecutionResult.outputPath := artifact |}, w2) ∧
    runs w2 !! artifact = Some output ∧
    (∀ content, runs w !! log = Some content →
       (file_size content ≤ MAX_PROGRESS_FILE_SIZE)%N →
       runs w2 !! log =
         Some (content +:+ progressEntry (WorkflowStep.id step) timestamp output)) ∧
    (runs w !! log = None →
       runs w2 !! log = Some (progressEntry (WorkflowStep.id step) timestamp output)) ∧
    (∀ p, p ≠ artifact → p ≠ log → runs w2 !! p = runs w !! p).
Proof.
  intros Htype Hout Hmet artifact log.
  pose proof (agentOutput_valid_runId _ _ _ _ _ Hout) as Hvalid.
  pose proof (agentOutput_frame _ _ _ _ _ Hout) as Hruns.
  assert (validateAcceptanceCriteria step output (parseStepOutput output step) = Ok tt)
    as Hv.
  { unfold validateAcceptanceCriteria.
    destruct (WorkflowStep.acceptance_criteria step); [|done].
    by apply validateCriteria_all_met. }
  assert (artifact ≠ log) as Hne by done.
  unfold executeStep. rewrite Htype, bool_decide_eq_true_2 by done.
  unfold executeAgentStep, mbind at 1, M_bind at 1. rewrite Hout.
  unfold mbind at 1, M_bind at 1. rewrite Hv.
  unfold mbind at 1, M_bind at 1, saveStepOutput. rewrite Hvalid.
  unfold mbind at 1, M_bind at 1, wait.
  unfold mbind at 1, M_bind at 1, appendProgressFile. rewrite Hvalid.
  fold artifact log. rewrite runs_advance. cbn [runs set_runs].
  rewrite lookup_insert_ne by done. rewrite Hruns.
  destruct (runs w !! log) as [content|] eqn:Hlog.
  - destruct (MAX_PROGRESS_FILE_SIZE <? file_size content)%N eqn:Hsize.
    + eexists. split; [reflexivity|]. rewrite ?runs_advance. cbn [runs set_runs].
      split; [apply lookup_insert_eq|].
      split; [intros ? [= <-] Hle; apply N.ltb_lt in Hsize; lia|].
      split; [done|]. intros p Hp _. by rewrite lookup_insert_ne.
    + eexists. split; [reflexivity|]. rewrite ?runs_advance. cbn [runs set_runs].
      rewrite ?runs_advance. cbn [runs set_runs].
      split; [by rewrite lookup_insert_ne, lookup_insert_eq|].
      split; [intros ? [= <-] _; apply lookup_insert_eq|].
      split; [done|]. intros p Hp Hl. by rewrite !lookup_insert_ne.
  - eexists. split; [reflexivity|]. rewrite ?runs_advance. cbn [runs set_runs].
    rewrite ?runs_advance. cbn [runs set_runs].
    split; [by rewrite lookup_insert_ne, lookup_insert_eq|].
    split; [done|].
    split; [intros _; apply lookup_insert_eq|].
    intros p Hp Hl. by rewrite !lookup_insert_ne.
Qed.

End WithLibraries.

Lemma review_agentOutput :
  (agentOutput review_step review_run review_world).1 = Ok review_output.
Proof. vm_compute. reflexivity. Qed.

Lemma review_output_done : Str.includes "STATUS: done" review_output = true.
Proof. vm_compute. reflexivity. Qed.

Lemma review_output_not_approved : Str.includes "APPROVED" review_output = false.
Proof. vm_compute. reflexivity. Qed.

Lemma executeStep_acceptance_failed_witness :
  ∃ w1, executeStep review_step review_run "2026-01-01T00:00:00.000Z" review_world
        = (Throw (Error ("Acceptance criterion not met: "
                         +:+ String (ascii_of_N 34) ("APPROVED" +:+ String (ascii_of_N 34) EmptyString))),
           w1) ∧
        runs w1 = runs review_world.
Proof.
  destruct (agentOutput review_step review_run review_world) as [r w1] eqn:Hout.
  pose proof review_agentOutput as Hr. rewrite Hout in Hr. cbn [fst] in Hr. subst r.
  pose proof review_output_done as Hdone.
  pose proof review_output_not_approved as Happroved.
  revert Hdone Happroved Hout. generalize review_output.
  intros output Hdone Happroved Hout.
  apply includes_spec in Hdone. apply includes_false in Happroved.
  destruct (executeStep_acceptance_failed review_step review_run
              "2026-01-01T00:00:00.000Z" review_world w1 output
              ["STATUS: done"; "APPROVED"; "LGTM"] eq_refl Hout eq_refl)
    as (before & c & after & Hsplit & Hbefore & Hc & Hexec & _ & _ & Hruns & _).
  - exists "APPROVED". split; [|done].
    apply elem_of_cons. right. apply elem_of_cons. by left.
  - exists w1. split; [|done].
    destruct before as [|b0 [|b1 before]].
    + injection Hsplit as <- _. done.
    + injection Hsplit as _ <- _. exact Hexec.
    + injection Hsplit as _ <- _.
      apply Forall_cons in Hbefore as [_ Hb].
      apply Forall_cons in Hb as [Hb _]. done.
Defined.

End ExecuteStepFacts.

Module SessionContextFacts.
Import Js WorkflowStepExecutor Spec Examples.

Lemma own_set_eq k v (o : obj) : own k (set k v o) = Some v.
Proof.
  induction o as [|[k' v'] o IH]; simpl.
  - by rewrite bool_decide_eq_true_2.
  - case_bool_decide as Hk; simpl.
    + by rewrite bool_decide_eq_true_2.
    + by rewrite bool_decide_eq_false_2.
Qed.

Lemma own_set_ne k k' v (o : obj) : k' ≠ k → own k' (set k v o) = own k' o.
Proof.
  intros Hne. induction o as [|[k0 v0] o IH]; simpl.
  - by rewrite bool_decide_eq_false_2.
  - case_bool_decide as Hk; simpl.
    + subst k0. by rewrite !bool_decide_eq_false_2.
    + by rewrite IH.
Qed.

Lemma own_set k k' v (o : obj) :
  own k' (set k v o) = if bool_decide (k' = k) then Some v else own k' o.
Proof.
  case_bool_decide as Hk; [subst; apply own_set_eq|by apply own_set_ne].
Qed.

Lemma own_assign k k' v (o : obj) :
  own k' (assign k v o) =
    if bool_decide (k = "__proto__") then own k' o
    else if bool_decide (k' = k) then Some v else own k' o.
Proof. unfold assign. case_bool_decide; [done|apply own_set]. Qed.

(** Case analysis on the first [bool_decide] of the goal. *)
Tactic Notation "goal_decide" "as" simple_intropattern(pat) :=
  match goal with
  | |- context [@bool_decide ?P ?d] => destruct (bool_decide_reflect P) as pat
  end.
Tactic Notation "goal_decide" := goal_decide as [?|?].

Section WithRealm.
Context `{Realm}.

Lemma buildStepsContext_add_step run :
  buildStepsContext run = foldl (add_step run) [] (WorkflowRun.steps run).
Proof. reflexivity. Qed.

Lemma own_add_step run id acc sr :
  own id (add_step run acc sr) =
    if bool_decide (completed_run id sr) && bool_decide (id ≠ "__proto__")
       && truthy (get (WorkflowRun.context run) id)
    then Some (step_entry run sr) else own id acc.
Proof.
  unfold add_step, step_entry.
  destruct (decide (completed_run id sr)) as [[<- Hst]|Hc].
  - rewrite (bool_decide_eq_true_2 (completed_run _ _)) by done.
    rewrite Hst. rewrite (bool_decide_eq_true_2 ("completed" = "completed")) by done.
    rewrite !andb_true_l.
    destruct (truthy _) eqn:Ht; [|by rewrite andb_false_r].
    rewrite andb_true_r, own_assign.
    case_bool_decide as Hp.
    + by rewrite bool_decide_eq_false_2 by (by intros ?).
    + rewrite (bool_decide_eq_true_2 (StepRun.stepId sr = StepRun.stepId sr)) by done.
      by rewrite bool_decide_eq_true_2.
  - rewrite (bool_decide_eq_false_2 (completed_run _ _)) by done.
    rewrite !andb_false_l.
    case_match eqn:Hcond; [|done].
    apply andb_true_iff in Hcond as [Hst%bool_decide_eq_true _].
    rewrite own_assign. case_bool_decide; [done|].
    rewrite bool_decide_eq_false_2; [done|].
    intros ->. by apply Hc.
Qed.

Lemma own_foldl_add_step run id (stepRuns : list StepRun.t) (acc : obj) :
  own id (foldl (add_step run) acc stepRuns) =
    if bool_decide (id ≠ "__proto__") && truthy (get (WorkflowRun.context run) id) then
      match last (filter (completed_run id) stepRuns) with
      | Some stepRun => Some (step_entry run stepRun)
      | None => own id acc
      end
    else own id acc.
Proof.
  revert acc. induction stepRuns as [|sr stepRuns IH]; intros acc.
  { simpl. by case_match. }
  cbn [foldl]. rewrite IH, own_add_step, filter_cons. clear IH.
  destruct (bool_decide (id ≠ "__proto__")
            && truthy (get (WorkflowRun.context run) id)) eqn:Hcond.
  - destruct (decide (completed_run id sr)) as [Hc|Hc].
    + rewrite (bool_decide_eq_true_2 _ Hc), andb_true_l, Hcond, last_cons.
      by destruct (last _).
    + by rewrite (bool_decide_eq_false_2 _ Hc).
  - rewrite <-andb_assoc, Hcond, andb_false_r. done.
Qed.

Lemma own_customStepsContext_fold run id (ids : list string) (acc : obj) :
  own id
    (foldl
       (fun stepsContext stepId =>
          if truthy (get (WorkflowRun.context run) stepId)
          then assign stepId
                 (VObj [("output", get (WorkflowRun.context run) stepId)]) stepsContext
          else stepsContext)
       acc ids) =
    if bool_decide (id ∈ ids) && bool_decide (id ≠ "__proto__")
       && truthy (get (WorkflowRun.context run) id)
    then Some (custom_entry run id) else own id acc.
Proof.
  revert acc. induction ids as [|i ids IH]; intros acc.
  { cbn [foldl]. by rewrite bool_decide_eq_false_2 by (by intros ?%elem_of_nil). }
  cbn [foldl]. rewrite IH. clear IH.
  destruct (decide (id ∈ ids)) as [Hin|Hin].
  - rewrite (bool_decide_eq_true_2 (id ∈ ids)) by done.
    rewrite (bool_decide_eq_true_2 (id ∈ i :: ids)) by (by right).
    rewrite !andb_true_l.
    case_match eqn:Hcond; [done|].
    destruct (truthy (get (WorkflowRun.context run) i)) eqn:Hi; [|done].
    rewrite own_assign. goal_decide; [done|].
    goal_decide as [Hid|Hid]; [|done]. subst i.
    rewrite Hi, andb_true_r in Hcond.
    by apply bool_decide_eq_false, dec_stable in Hcond.
  - rewrite (bool_decide_eq_false_2 (id ∈ ids)) by done.
    rewrite !andb_false_l.
    destruct (decide (id = i)) as [->|Hid].
    + rewrite (bool_decide_eq_true_2 (i ∈ i :: ids)) by (by left).
      rewrite andb_true_l.
      destruct (truthy (get (WorkflowRun.context run) i)) eqn:Hi;
        [|by rewrite andb_false_r].
      rewrite andb_true_r, own_assign.
      goal_decide as [Hp|Hp].
      * by rewrite bool_decide_eq_false_2 by (by intros ?).
      * rewrite (bool_decide_eq_true_2 (i ≠ "__proto__")) by done.
        by rewrite bool_decide_eq_true_2.
    + rewrite (bool_decide_eq_false_2 (id ∈ i :: ids))
        by (by intros [?|?]%elem_of_cons).
      rewrite !andb_false_l.
      destruct (truthy (get (WorkflowRun.context run) i)); [|done].
      rewrite own_assign. goal_decide; [done|].
      by rewrite bool_decide_eq_false_2.
Qed.

(** C5, as the code has it. In [full] mode the session context is the
    run context with two keys set over it: [progress], the progress
    text, and [steps], a mapping that has an entry for a step id
    exactly when some step run of that id is completed and the run
    context holds a truthy value under that id, the entry carrying that
    value as output, the status and the duration of such a step run. In
    [custom] mode it has the task, the workflow ids and the progress
    text, and, when the configuration lists step ids to include, a
    [steps] mapping with an entry, the output alone, exactly for the
    listed ids under which the run context holds a truthy value; with no
    list there is no [steps] key. In both mappings the name
    [__proto__] never becomes a key. *)
Theorem buildSessionContext_steps
    (sessionConfig : StepSessionConfig.t) (run : WorkflowRun.t)
    (progress : option string) :
  let context := buildSessionContext sessionConfig run progress in
  (StepSessionConfig.context sessionConfig = "full" →
     (∀ k, k ≠ "progress" → k ≠ "steps" →
        own k context = own k (WorkflowRun.context run)) ∧
     own "progress" context = Some (VStr (default EmptyString progress)) ∧
     ∃ stepsContext,
       own "steps" context = Some (VObj stepsContext) ∧
       ∀ id,
         (is_Some (own id stepsContext) ↔
            id ≠ "__proto__" ∧ recorded run id ∧
            ∃ stepRun, stepRun ∈ WorkflowRun.steps run ∧ completed_run id stepRun) ∧
         (∀ entry, own id stepsContext = Some entry →
            ∃ stepRun, stepRun ∈ WorkflowRun.steps run ∧ completed_run id stepRun ∧
              entry = step_entry run stepRun)) ∧
  (StepSessionConfig.context sessionConfig = "custom" →
     own "task" context = Some (get (WorkflowRun.context run) "task") ∧
     own "workflow" context =
       Some (VObj [("id", VStr (WorkflowRun.workflowId run));
                   ("runId", VStr (WorkflowRun.id run))]) ∧
     own "progress" context = Some (VStr (default EmptyString progress)) ∧
     (StepSessionConfig.includeOutputsFrom sessionConfig = None →
        own "steps" context = None) ∧
     (∀ ids, StepSessionConfig.includeOutputsFrom sessionConfig = Some ids →
        ∃ stepsContext,
          own "steps" context = Some (VObj stepsContext) ∧
          ∀ id,
            (is_Some (own id stepsContext) ↔
               id ∈ ids ∧ id ≠ "__proto__" ∧ recorded run id) ∧
            (∀ entry, own id stepsContext = Some entry →
               entry = custom_entry run id))).
Proof.
  intros context. subst context. unfold buildSessionContext. split.
  - intros ->. simpl.
    split; [|split].
    + intros k Hp Hs. by rewrite !own_set_ne.
    + rewrite own_set_ne by done. apply own_set_eq.
    + exists (buildStepsContext run). split; [apply own_set_eq|].
      intros id. rewrite buildStepsContext_add_step, own_foldl_add_step.
      unfold recorded. simpl.
      destruct (decide (id = "__proto__")) as [->|Hp].
      { rewrite bool_decide_eq_false_2 by (by intros ?). simpl.
        split; [|done]. split; [by intros [? ?]|by intros [? _]]. }
      rewrite (bool_decide_eq_true_2 (id ≠ "__proto__")) by done.
      rewrite andb_true_l.
      destruct (truthy (get (WorkflowRun.context run) id)) eqn:Ht.
      2:{ split; [|done]. split; [by intros [? ?]|by intros (_ & ? & _)]. }
      destruct (last (filter (completed_run id) (WorkflowRun.steps run)))
        as [stepRun|] eqn:Hlast.
      * apply last_Some_elem_of, list_elem_of_filter in Hlast as [Hc Hin].
        split; [split; [naive_solver|by eauto]|].
        intros entry [= <-]. eauto.
      * apply last_None in Hlast.
        split; [|done]. split; [by intros [? ?]|].
        intros (_ & _ & stepRun & Hin & Hc).
        assert (stepRun ∈ filter (completed_run id) (WorkflowRun.steps run)) as Hf
          by (by apply list_elem_of_filter).
        rewrite Hlast in Hf. by apply elem_of_nil in Hf.
  - intros ->. simpl.
    assert (∀ k, k ≠ "steps" →
      own k (match StepSessionConfig.includeOutputsFrom sessionConfig with
             | Some ids =>
                 assign "steps" (VObj (customStepsContext run ids))
                   (set "progress" (VStr (progress_text progress)) (baseContext run))
             | None => set "progress" (VStr (progress_text progress)) (baseContext run)
             end) = own k (set "progress" (VStr (progress_text progress)) (baseContext run)))
      as Hkeep.
    { intros k Hk. destruct (StepSessionConfig.includeOutputsFrom sessionConfig);
        [|done]. rewrite own_assign. simpl. by rewrite bool_decide_eq_false_2. }
    split; [by rewrite Hkeep|].
    split; [by rewrite Hkeep|].
    split; [by rewrite Hkeep|].
    split; [by intros ->|].
    intros ids ->. exists (customStepsContext run ids).
    split; [by rewrite own_assign|].
    intros id. unfold customStepsContext. rewrite own_customStepsContext_fold.
    unfold recorded. simpl.
    destruct (decide (id ∈ ids)) as [Hin|Hin].
    2:{ rewrite (bool_decide_eq_false_2 (id ∈ ids)) by done. simpl.
        split; [|done]. split; [by intros [? ?]|by intros [? _]]. }
    rewrite (bool_decide_eq_true_2 (id ∈ ids)) by done. rewrite andb_true_l.
    destruct (decide (id = "__proto__")) as [->|Hp].
    { rewrite bool_decide_eq_false_2 by (by intros ?). simpl.
      split; [|done]. split; [by intros [? ?]|by intros (_ & ? & _)]. }
    rewrite (bool_decide_eq_true_2 (id ≠ "__proto__")) by done. rewrite andb_true_l.
    destruct (truthy (get (WorkflowRun.context run) id)) eqn:Ht.
    + split; [by split; [intros _|intros _; eauto]|by intros entry [= <-]].
    + split; [|done]. split; [by intros [? ?]|by intros (_ & _ & ?)].
Qed.

End WithRealm.
Lemma buildSessionContext_steps_witness :
  ∃ stepsContext,
    own "steps" (buildSessionContext (config_with "full" None) checked_run (Some "log"))
      = Some (VObj stepsContext) ∧
    own "build" stepsContext =
      Some (VObj [("output", VStr "ok"); ("status", VStr "completed");
                  ("duration", VNum 40)]) ∧
    own "progress" (buildSessionContext (config_with "full" None) checked_run (Some "log"))
      = Some (VStr "log").
Proof.
  destruct (buildSessionContext_steps (config_with "full" None) checked_run (Some "log"))
    as [Hfull _].
  destruct (Hfull eq_refl) as (_ & Hprogress & stepsContext & Hsteps & Hentries).
  exists stepsContext. split; [exact Hsteps|]. split; [|exact Hprogress].
  destruct (Hentries "build") as [[_ Hsome] Hentry].
  destruct Hsome as [entry Hown].
  { split; [discriminate|]. split; [reflexivity|].
    eexists. split; [apply elem_of_cons; right; apply elem_of_cons; left; reflexivity|].
    by split. }
  destruct (Hentry entry Hown) as (stepRun & Hin & [Hid Hst] & ->).
  rewrite Hown. f_equal. unfold step_entry. f_equal. f_equal; [by rewrite Hid|].
  f_equal. f_equal. f_equal.
  apply elem_of_cons in Hin as [->|Hin]; [discriminate|].
  apply elem_of_cons in Hin as [->|Hin]; [reflexivity|].
  by apply elem_of_nil in Hin.
Defined.

(** C5, as stated, fails for a completed step whose output is present in
    the run context but falsy: neither the [full] nor the [custom] steps
    mapping has an entry for it. *)
Lemma completed_step_with_falsy_output_is_left_out :
  own "lint" (WorkflowRun.context checked_run) = Some (VBool false) ∧
  (∃ stepRun, stepRun ∈ WorkflowRun.steps checked_run ∧ completed_run "lint" stepRun) ∧
  (∃ stepsContext,
     own "steps" (buildSessionContext (config_with "full" None) checked_run None)
       = Some (VObj stepsContext) ∧
     own "lint" stepsContext = None) ∧
  (∃ stepsContext,
     own "steps" (buildSessionContext (config_with "custom" (Some ["lint"; "build"]))
                    checked_run None)
       = Some (VObj stepsContext) ∧
     own "lint" stepsContext = None).
Proof.
  split; [reflexivity|]. split.
  { eexists. split; [apply elem_of_cons; left; reflexivity|by split]. }
  split; eexists; (split; [vm_compute; reflexivity|reflexivity]).
Qed.

End SessionContextFacts.

Module TemplateFacts.
Import Js WorkflowStepExecutor Spec Examples StrFacts.

Section WithRealm.
Context `{Realm}.

Lemma foldl_undefined (keys : list string) :
  foldl (fun current key =>
           if truthy current && typeof_object current
           then default VUndefined (property current key) else VUndefined)
    VUndefined keys = VUndefined.
Proof. induction keys as [|k keys IH]; [done|]. simpl. exact IH. Qed.

Lemma foldl_resolve (v : value) (keys : list string) :
  foldl (fun current key =>
           if truthy current && typeof_object current
           then default VUndefined (property current key) else VUndefined)
    v keys = default VUndefined (resolve v keys).
Proof.
  revert v. induction keys as [|k keys IH]; intros v; [done|].
  cbn [foldl resolve].
  destruct v as [| |b|n|s|items|fields|t]; cbn [truthy typeof_object andb];
    rewrite ?andb_false_r; try apply foldl_undefined.
  - destruct (property (VArr items) k) as [x|] eqn:Hp; simpl.
    + apply IH.
    + apply foldl_undefined.
  - destruct (property (VObj fields) k) as [x|] eqn:Hp; simpl.
    + apply IH.
    + apply foldl_undefined.
Qed.

Lemma getNestedValue_resolve (context : obj) (path : string) :
  getNestedValue context path =
    default VUndefined (resolve (VObj context) (split "." path)).
Proof. apply foldl_resolve. Qed.

Lemma substitute_render_placeholder context key :
  substitute context key = render_placeholder context key.
Proof.
  unfold substitute, render_placeholder. rewrite getNestedValue_resolve.
  by destruct (resolve _ _) as [[]|].
Qed.

Lemma key_span_key key rest :
  ¬ occurs "}" key →
  key_span (key +:+ String "}" rest) = (key, String "}" rest).
Proof.
  induction key as [|c key IH]; intros Hno.
  - by rewrite app_nil_l.
  - rewrite app_cons. simpl in *.
    rewrite bool_decide_eq_false_2 by (intros ->; apply Hno; by left).
    rewrite IH; [done|]. intros ?. apply Hno. by right.
Qed.

Lemma match_placeholder_key key rest :
  key ≠ EmptyString → ¬ occurs "}" key →
  match_placeholder ("{{" +:+ key +:+ "}}" +:+ rest) =
    Some (key, (4 + String.length key)%nat).
Proof.
  intros Hne Hno. unfold match_placeholder.
  change ("{{" +:+ key +:+ "}}" +:+ rest)
    with (String "{" (String "{" (key +:+ String "}" (String "}" rest)))).
  cbv iota beta. rewrite key_span_key by done. by destruct key.
Qed.

Lemma match_placeholder_other c s :
  c ≠ "{"%char → match_placeholder (String c s) = None.
Proof.
  intros Hc. unfold match_placeholder.
  destruct c as [[] [] [] [] [] [] [] []]; try done.
Qed.

Lemma replace_skip f (p rest : string) :
  replace_placeholders f (String.length p) (p +:+ rest) = replace_placeholders f 0 rest.
Proof. induction p as [|c p IH]; [done|]. rewrite app_cons. simpl. exact IH. Qed.

Lemma replace_text f (s rest : string) :
  no_match_in s rest →
  replace_placeholders f 0 (s +:+ rest) =
    (r ← replace_placeholders f 0 rest; Ok (s +:+ r)).
Proof.
  induction s as [|c s IH]; intros Hno.
  - rewrite app_nil_l. by destruct (replace_placeholders f 0 rest).
  - rewrite app_cons. cbn [replace_placeholders].
    pose proof (Hno EmptyString (String c s) eq_refl) as Hhead.
    rewrite app_cons in Hhead. rewrite Hhead by done.
    rewrite IH.
    + by destruct (replace_placeholders f 0 rest).
    + intros pre post -> Hpost. by apply (Hno (String c pre) post).
Qed.

Lemma plain_no_match s rest : plain s → no_match_in s rest.
Proof.
  intros Hplain pre post -> Hpost.
  induction pre as [|c pre IH].
  - rewrite app_nil_l in Hplain.
    destruct post as [|c post]; [done|]. rewrite app_cons.
    destruct Hplain as [Hc _].
    destruct (decide (c = "{"%char)) as [->|Hne];
      [|by apply match_placeholder_other].
    specialize (Hc eq_refl). destruct post as [|c' post]; [done|].
    rewrite app_cons. unfold match_placeholder.
    destruct c' as [[] [] [] [] [] [] [] []]; try done.
  - rewrite app_cons in Hplain. destruct Hplain as [_ Hplain]. by apply IH.
Qed.

Lemma key_span_inv s key rest :
  key_span s = (key, rest) →
  s = key +:+ rest ∧ ¬ occurs "}" key.
Proof.
  revert key rest. induction s as [|c s IH]; intros key rest.
  - intros [= <- <-]. split; [reflexivity|by intros ?].
  - simpl. case_bool_decide as Hc.
    + intros [= <- <-]. split; [reflexivity|by intros ?].
    + destruct (key_span s) as [k r] eqn:Hs. intros [= <- <-].
      destruct (IH k r eq_refl) as [-> Hno]. split; [reflexivity|].
      simpl. by intros [?|?].
Qed.

Lemma match_placeholder_inv s key len :
  match_placeholder s = Some (key, len) →
  ∃ rest, s = "{{" +:+ key +:+ "}}" +:+ rest ∧
    key ≠ EmptyString ∧ ¬ occurs "}" key.
Proof.
  unfold match_placeholder.
  destruct s as [|c0 [|c1 t]]; try done.
  { by destruct c0 as [[] [] [] [] [] [] [] []]. }
  destruct (decide (c0 = "{"%char)) as [->|Hc0].
  2:{ by destruct c0 as [[] [] [] [] [] [] [] []]. }
  destruct (decide (c1 = "{"%char)) as [->|Hc1].
  2:{ by destruct c1 as [[] [] [] [] [] [] [] []]. }
  cbv iota beta.
  destruct (key_span t) as [k r] eqn:Ht.
  destruct (key_span_inv t k r Ht) as [-> Hno].
  destruct k as [|c k]; [done|].
  destruct r as [|r0 [|r1 rest]]; try done.
  { by destruct r0 as [[] [] [] [] [] [] [] []]. }
  destruct (decide (r0 = "}"%char)) as [->|Hr0].
  2:{ by destruct r0 as [[] [] [] [] [] [] [] []]. }
  destruct (decide (r1 = "}"%char)) as [->|Hr1].
  2:{ by destruct r1 as [[] [] [] [] [] [] [] []]. }
  intros [= <- _]. exists rest. by split.
Qed.

(** Every template is cut into segments by the pattern. *)
Lemma segmented_exists (template : string) :
  ∃ segs, template_text segs = template ∧ segmented segs.
Proof.
  remember (String.length template) as n eqn:Hn.
  revert template Hn. induction n as [n IH] using lt_wf_ind. intros template ->.
  destruct template as [|c template]; [by exists []|].
  destruct (match_placeholder (String c template)) as [[key len]|] eqn:Hm.
  - destruct (match_placeholder_inv _ _ _ Hm) as (rest & Heq & Hne & Hno).
    destruct (IH (String.length rest)) with (template := rest) as (segs & <- & Hsegs);
      [|done|].
    { rewrite Heq, !length_app. simpl. lia. }
    exists (Placeholder key :: segs). split; [|done].
    cbn [template_text segment_text]. by rewrite Heq, !app_assoc.
  - destruct (IH (String.length template)) with (template := template)
      as (segs & <- & Hsegs); [simpl; lia|done|].
    exists (Text (String c EmptyString) :: segs). split; [done|].
    split; [|done]. intros pre post Heq Hpost.
    destruct pre as [|c' [|??]]; rewrite ?app_cons, ?app_nil_l in Heq.
    + by subst post.
    + injection Heq as _ <-. done.
    + injection Heq as _ Heq. by destruct (_ +:+ _).
Qed.

Lemma replace_placeholder f (key rest : string) :
  key ≠ EmptyString → ¬ occurs "}" key →
  replace_placeholders f 0 ("{{" +:+ key +:+ "}}" +:+ rest) =
    (p ← f key; r ← replace_placeholders f 0 rest; Ok (p +:+ r)).
Proof.
  intros Hne Hno.
  pose proof (match_placeholder_key key rest Hne Hno) as Hm.
  change ("{{" +:+ key +:+ "}}" +:+ rest)
    with (String "{" ("{" +:+ key +:+ "}}" +:+ rest)) in *.
  cbn [replace_placeholders]. rewrite Hm.
  replace (4 + String.length key - 1)%nat
    with (String.length ("{" +:+ key +:+ "}}")).
  2:{ rewrite !length_app. simpl. lia. }
  rewrite <-(replace_skip f ("{" +:+ key +:+ "}}") rest).
  by rewrite !app_assoc.
Qed.

Lemma renderTemplate_segmented (context : obj) (segs : list segment) :
  segmented segs →
  renderTemplate (template_text segs) context = render_segments context segs.
Proof.
  unfold renderTemplate. induction segs as [|[s|key] segs IH]; [done|..];
    cbn [template_text segment_text render_segments segmented].
  - intros [Hno Hsegs]. rewrite replace_text by done. by rewrite IH.
  - intros (Hne & Hno & Hsegs). rewrite !app_assoc.
    rewrite replace_placeholder by done.
    by rewrite IH, substitute_render_placeholder.
Qed.

(** C3, as the code has it. Every template is a sequence of texts and
    placeholders, the segments the pattern cuts it into, and
    [renderTemplate] keeps the texts and replaces each placeholder,
    white space around its key ignored: by the string form of the value
    the dot-path resolves to in the context; or, when the path resolves
    to nothing (a key is missing at some level, or a value on the way is
    not an object) or to [undefined], by the placeholder written with
    the trimmed key. *)
Theorem renderTemplate_segments (context : obj) :
  (∀ template, ∃ segs, template_text segs = template ∧ segmented segs) ∧
  (∀ segs, segmented segs →
     renderTemplate (template_text segs) context = render_segments context segs).
Proof. split; [apply segmented_exists|apply renderTemplate_segmented]. Qed.

End WithRealm.

(** The two examples of the design, in one template, on the host. *)
Lemma renderTemplate_segments_witness :
  renderTemplate "hi {{a.b}}, {{missing}} and { {{ a.b }} }" greeting_context
    = Ok "hi x, {{missing}} and { x }".
Proof.
  assert (segmented
            [Text "hi "; Placeholder "a.b"; Text ", "; Placeholder "missing";
             Text " and { "; Placeholder " a.b "; Text " }"]) as Hsegs.
  { repeat split; try discriminate; try (apply plain_no_match; by repeat split);
      simpl; intuition discriminate. }
  exact (eq_trans (proj2 (renderTemplate_segments greeting_context) _ Hsegs) eq_refl).
Defined.

(** C3, as stated, fails for a placeholder written with white space
    around a key that does not resolve: what is left in the output is the
    placeholder with the trimmed key, not the original text. *)
Lemma unresolved_placeholder_is_rewritten :
  resolve (VObj []) (split "." (Str.trim " missing ")) = None ∧
  renderTemplate "{{ missing }}" [] = Ok "{{missing}}" ∧
  renderTemplate "{{ missing }}" [] ≠ Ok "{{ missing }}".
Proof. split; [|split]; vm_compute; [reflexivity..|discriminate]. Qed.

End TemplateFacts.

(** * Further properties of the policy store *)

Set Warnings "-clear-no-such-hyp".

Module TrimFacts.
Import Spec StrFacts.

(** Strings as lists of characters, to reason about reversal. *)
Lemma chars_app (a b : string) :
  list_ascii_of_string (a +:+ b) = list_ascii_of_string a ++ list_ascii_of_string b.
Proof. induction a as [|c a IH]; [done|]. rewrite app_cons. simpl. by rewrite IH. Qed.

Lemma chars_inj (a b : string) :
  list_ascii_of_string a = list_ascii_of_string b → a = b.
Proof.
  intros Heq. rewrite <-(string_of_list_ascii_of_string a), Heq.
  apply string_of_list_ascii_of_string.
Qed.

Lemma chars_rev_app (a b : string) :
  list_ascii_of_string (String.rev_app a b)
  = reverse (list_ascii_of_string a) ++ list_ascii_of_string b.
Proof.
  revert b. induction a as [|c a IH]; intros b; [done|].
  simpl. rewrite IH, reverse_cons. simpl. by rewrite <-List.app_assoc.
Qed.

Lemma chars_rev (a : string) :
  list_ascii_of_string (String.rev a) = reverse (list_ascii_of_string a).
Proof. unfold String.rev. rewrite chars_rev_app. simpl. by rewrite List.app_nil_r. Qed.

Lemma rev_involutive (a : string) : String.rev (String.rev a) = a.
Proof. apply chars_inj. by rewrite !chars_rev, reverse_involutive. Qed.

Lemma rev_app_distr (a b : string) :
  String.rev (a +:+ b) = String.rev b +:+ String.rev a.
Proof. apply chars_inj. by rewrite chars_rev, !chars_app, !chars_rev, reverse_app. Qed.

Lemma trimStart_clean s : starts_clean (Str.trimStart s).
Proof. induction s as [|c s IH]; [done|]. simpl. by destruct (Str.is_space c) eqn:Hc. Qed.

Lemma trimStart_id s : starts_clean s → Str.trimStart s = s.
Proof. destruct s as [|c s]; [done|]. simpl. by intros ->. Qed.

Lemma trimStart_snoc s c :
  Str.is_space c = false →
  Str.trimStart (s +:+ String c EmptyString) = Str.trimStart s +:+ String c EmptyString.
Proof.
  intros Hc. induction s as [|c' s IH].
  - rewrite app_nil_l. simpl. by rewrite Hc.
  - rewrite app_cons. simpl. by destruct (Str.is_space c').
Qed.

Lemma trimEnd_clean s : starts_clean s → starts_clean (Str.trimEnd s).
Proof.
  destruct s as [|c s]; [done|]. simpl. intros Hc. unfold Str.trimEnd.
  change (String c s) with (String c EmptyString +:+ s).
  rewrite rev_app_distr.
  change (String.rev (String c EmptyString)) with (String c EmptyString).
  rewrite trimStart_snoc by done. rewrite rev_app_distr.
  change (String.rev (String c EmptyString)) with (String c EmptyString).
  by rewrite app_cons.
Qed.

Lemma trimEnd_idempotent s : Str.trimEnd (Str.trimEnd s) = Str.trimEnd s.
Proof.
  unfold Str.trimEnd. rewrite rev_involutive.
  by rewrite (trimStart_id _ (trimStart_clean _)).
Qed.

Lemma trim_idempotent s : Str.trim (Str.trim s) = Str.trim s.
Proof.
  unfold Str.trim.
  rewrite (trimStart_id (Str.trimEnd (Str.trimStart s))).
  - apply trimEnd_idempotent.
  - apply trimEnd_clean, trimStart_clean.
Qed.

Lemma lower_char_idempotent c : Str.lower_char (Str.lower_char c) = Str.lower_char c.
Proof. by destruct c as [[] [] [] [] [] [] [] []]. Qed.

Lemma is_space_lower_char c : Str.is_space (Str.lower_char c) = Str.is_space c.
Proof. by destruct c as [[] [] [] [] [] [] [] []]. Qed.

Lemma toLowerCase_idempotent s :
  Str.toLowerCase (Str.toLowerCase s) = Str.toLowerCase s.
Proof. induction s as [|c s IH]; [done|]. simpl. by rewrite lower_char_idempotent, IH. Qed.

Lemma toLowerCase_rev_app a b :
  Str.toLowerCase (String.rev_app a b)
  = String.rev_app (Str.toLowerCase a) (Str.toLowerCase b).
Proof. revert b. induction a as [|c a IH]; intros b; [done|]. simpl. by rewrite IH. Qed.

Lemma toLowerCase_rev a : Str.toLowerCase (String.rev a) = String.rev (Str.toLowerCase a).
Proof. apply toLowerCase_rev_app. Qed.

Lemma trimStart_toLowerCase s :
  Str.trimStart (Str.toLowerCase s) = Str.toLowerCase (Str.trimStart s).
Proof.
  induction s as [|c s IH]; [done|]. simpl. rewrite is_space_lower_char.
  by destruct (Str.is_space c).
Qed.

Lemma trim_toLowerCase s : Str.trim (Str.toLowerCase s) = Str.toLowerCase (Str.trim s).
Proof.
  unfold Str.trim, Str.trimEnd.
  by rewrite trimStart_toLowerCase, <-toLowerCase_rev, trimStart_toLowerCase, toLowerCase_rev.
Qed.

Lemma endsWith_app p s : Str.endsWith p (s +:+ p) = true.
Proof.
  unfold Str.endsWith. rewrite rev_app_distr. apply startsWith_spec. eauto.
Qed.

Lemma startsWith_refl (p : string) : Str.startsWith p p = true.
Proof. apply startsWith_spec. exists EmptyString. by rewrite app_nil_r. Qed.

Lemma drop_length_app (p s : string) : Str.drop (String.length p) (p +:+ s) = s.
Proof. induction p as [|c p IH]; [by destruct s|]. by rewrite app_cons. Qed.

Lemma remove_first_eq (needle s : string) :
  Str.remove_first needle s =
    if Str.startsWith needle s then Str.drop (String.length needle) s
    else match s with
         | EmptyString => EmptyString
         | String c s' => String c (Str.remove_first needle s')
         end.
Proof. by destruct s. Qed.

(** Taking a suffix out of a string in which the first character of the
    suffix does not occur before gives the part before the suffix. *)
Lemma remove_first_suffix (c : ascii) (suffix k : string) :
  ¬ occurs c k →
  Str.remove_first (String c suffix) (k +:+ String c suffix) = k.
Proof.
  induction k as [|c' k IH]; intros Hk.
  - rewrite app_nil_l, remove_first_eq, startsWith_refl.
    rewrite <-(app_nil_r (String c suffix)) at 2. apply drop_length_app.
  - rewrite app_cons, remove_first_eq. simpl in Hk.
    cbn [Str.startsWith]. destruct (ascii_dec c c') as [->|Hne]; [tauto|].
    f_equal. apply IH. tauto.
Qed.

End TrimFacts.

Module PolicyStoreFacts.
Import ToolPolicyService Spec Examples StrFacts TrimFacts ToolPolicyFacts.

(** ** Validation *)

Lemma elem_of_uniq seen xs t : t ∈ uniq seen xs ↔ t ∈ xs ∧ t ∉ seen.
Proof.
  revert seen. induction xs as [|x xs IH]; intros seen; simpl.
  - set_solver.
  - case_bool_decide as Hx.
    + rewrite IH, elem_of_cons. naive_solver.
    + rewrite !elem_of_cons, IH, not_elem_of_cons.
      destruct (decide (t = x)) as [->|Hne]; naive_solver.
Qed.

Lemma NoDup_uniq seen xs : NoDup (uniq seen xs).
Proof.
  revert seen. induction xs as [|x xs IH]; intros seen; simpl.
  - constructor.
  - case_bool_decide; [apply IH|].
    constructor; [|apply IH].
    rewrite elem_of_uniq. set_solver.
Qed.

Lemma elem_of_overlap policy t :
  t ∈ overlap policy ↔ t ∈ allowed policy ∧ t ∈ denied policy.
Proof.
  unfold overlap. rewrite list_elem_of_filter, elem_of_uniq. set_solver.
Qed.

Lemma overlap_nil policy :
  overlap policy = [] ↔ ∀ t, t ∈ allowed policy → t ∉ denied policy.
Proof.
  split.
  - intros Hnil t Ha Hd.
    assert (t ∈ overlap policy) as Hin by (apply elem_of_overlap; done).
    rewrite Hnil in Hin. by apply not_elem_of_nil in Hin.
  - intros Hdis. apply elem_of_nil_inv. intros t Hin.
    apply elem_of_overlap in Hin as [Ha Hd]. by apply (Hdis t).
Qed.

(** A policy that passes has no tool on both lists. *)
Lemma validatePolicy_Ok_disjoint policy :
  validatePolicy policy = Ok tt →
  ∀ tool, tool ∈ allowed policy → tool ∉ denied policy.
Proof.
  intros Hv. apply overlap_nil. revert Hv. unfold validatePolicy.
  repeat (case_bool_decide; [done|]).
  destruct (description policy); [case_bool_decide; [done|]|];
    by destruct (overlap policy).
Qed.

(** Whatever [validatePolicy] throws is a [ValidationError]. *)
Lemma validatePolicy_throws policy :
  validatePolicy policy = Ok tt ∨ ∃ m, validatePolicy policy = Throw (ValidationError m).
Proof.
  unfold validatePolicy.
  repeat (case_bool_decide; [eauto|]).
  destruct (description policy); [case_bool_decide; [eauto|]|];
    destruct (overlap policy); eauto.
Qed.

(** [validatePolicy] accepts a policy exactly when its role name is
    not empty and has at most 50 characters, neither list has more than
    100 tools, the description, if any, has at most 500 characters, and
    no tool is on both lists. *)
Theorem validatePolicy_accepts_iff (policy : ToolPolicy) :
  validatePolicy policy = Ok tt ↔
    role policy ≠ EmptyString ∧
    (String.length (role policy) ≤ MAX_ROLE_NAME_LENGTH)%nat ∧
    (length (allowed policy) ≤ MAX_TOOLS_PER_POLICY)%nat ∧
    (length (denied policy) ≤ MAX_TOOLS_PER_POLICY)%nat ∧
    (∀ d, description policy = Some d →
          (String.length d ≤ MAX_DESCRIPTION_LENGTH)%nat) ∧
    (∀ tool, tool ∈ allowed policy → tool ∉ denied policy).
Proof.
  rewrite <-overlap_nil. unfold validatePolicy.
  case_bool_decide as Hr; [naive_solver|].
  case_bool_decide as Hl; [split; [done|intros (?&?&?); lia]|].
  case_bool_decide as Ha; [split; [done|intros (?&?&?&?); lia]|].
  case_bool_decide as Hd; [split; [done|intros (?&?&?&?&?); lia]|].
  destruct (description policy) as [d|] eqn:Hdesc.
  - case_bool_decide as Hdl.
    + split; [done|]. intros (?&?&?&?&Hdd&?). specialize (Hdd d eq_refl). lia.
    + destruct (overlap policy) eqn:Hov.
      * split; [|done]. intros _. repeat split; try done; try lia.
        intros d' [= <-]. lia.
      * split; [done|]. by intros (?&?&?&?&?&?).
  - destruct (overlap policy) eqn:Hov.
    + split; [|done]. intros _. repeat split; try done; lia.
    + split; [done|]. by intros (?&?&?&?&?&?).
Qed.

(** The overlap that [validatePolicy] computes holds exactly the tools
    that are on both lists, each once. A policy with such a tool is
    always refused with a [ValidationError]; when the checks before it
    pass, the message lists the overlap, joined by commas. *)
Theorem validatePolicy_overlap (policy : ToolPolicy) :
  NoDup (overlap policy) ∧
  (∀ tool, tool ∈ overlap policy ↔ tool ∈ allowed policy ∧ tool ∈ denied policy) ∧
  (∀ tool, tool ∈ allowed policy → tool ∈ denied policy →
     ∃ m, validatePolicy policy = Throw (ValidationError m)) ∧
  (role policy ≠ EmptyString →
   (String.length (role policy) ≤ MAX_ROLE_NAME_LENGTH)%nat →
   (length (allowed policy) ≤ MAX_TOOLS_PER_POLICY)%nat →
   (length (denied policy) ≤ MAX_TOOLS_PER_POLICY)%nat →
   (∀ d, description policy = Some d →
         (String.length d ≤ MAX_DESCRIPTION_LENGTH)%nat) →
   overlap policy ≠ [] →
   validatePolicy policy =
     Throw (ValidationError ("Tools cannot be both allowed and denied: "
                             +:+ Str.join ", " (overlap policy)))).
Proof.
  split; [apply NoDup_filter, NoDup_uniq|].
  split; [apply elem_of_overlap|]. split.
  - intros tool Ha Hd. destruct (validatePolicy_throws policy) as [Hok|]; [|done].
    by destruct (validatePolicy_Ok_disjoint policy Hok tool).
  - intros Hr Hl Ha Hd Hdesc Hov. unfold validatePolicy.
    rewrite bool_decide_eq_false_2 by done.
    rewrite !bool_decide_eq_false_2 by lia.
    destruct (description policy) as [d|].
    + specialize (Hdesc d eq_refl). rewrite bool_decide_eq_false_2 by lia.
      by destruct (overlap policy).
    + by destruct (overlap policy).
Qed.

(** ** Role names *)

Lemma normalizeRole_idempotent r : normalizeRole (normalizeRole r) = normalizeRole r.
Proof.
  unfold normalizeRole.
  by rewrite trim_toLowerCase, trim_idempotent, toLowerCase_idempotent.
Qed.

(** Normalizing a role name twice is normalizing it once: the
    normalized name has no white space around it and no capital letter,
    and every method that takes a role answers for the normalized name
    what it answers for the name as written. *)
Theorem role_spelling_is_irrelevant (r : string) :
  normalizeRole (normalizeRole r) = normalizeRole r ∧
  Str.trim (normalizeRole r) = normalizeRole r ∧
  Str.toLowerCase (normalizeRole r) = normalizeRole r ∧
  (∀ st, getToolPolicy (normalizeRole r) st = getToolPolicy r st) ∧
  (∀ st, deletePolicy (normalizeRole r) st = deletePolicy r st) ∧
  (∀ tool st, validateToolAccess (normalizeRole r) tool st = validateToolAccess r tool st) ∧
  (∀ st, getToolFilterForRole (normalizeRole r) st = getToolFilterForRole r st).
Proof.
  split; [apply normalizeRole_idempotent|].
  split; [unfold normalizeRole; by rewrite trim_toLowerCase, trim_idempotent|].
  split; [unfold normalizeRole; by rewrite toLowerCase_idempotent|].
  assert (∀ st, getToolPolicy (normalizeRole r) st = getToolPolicy r st) as Hget.
  { intros st. unfold getToolPolicy. by rewrite normalizeRole_idempotent. }
  split; [done|]. split.
  { intros st. unfold deletePolicy. by rewrite normalizeRole_idempotent. }
  split.
  - intros tool st. unfold validateToolAccess, mbind, M_bind. by rewrite Hget.
  - intros st. unfold getToolFilterForRole, mbind, M_bind. by rewrite Hget.
Qed.

(** ** The read-through cache *)

Lemma getToolPolicy_Some_cached r st policy :
  (getToolPolicy r st).1 = Ok (Some policy) →
  cache (getToolPolicy r st).2 !! normalizeRole r = Some policy.
Proof.
  unfold getToolPolicy.
  destruct (cache st !! normalizeRole r) as [p|] eqn:Hc; simpl; [congruence|].
  destruct (disk st !! policyFileName (normalizeRole r)) as [[m|p]|]; simpl; [done| |done].
  destruct (validatePolicy p); simpl; [|done].
  intros [= ->]. by rewrite lookup_insert_eq.
Qed.

(** Asking again gives the same answer and changes nothing more: a
    second [getToolPolicy] for the same role returns what the first
    returned, a failure included, and leaves the state the first left.
    The directory is never written, a policy that was answered is in the
    cache under the normalized name, and no cache entry is lost. *)
Theorem getToolPolicy_read_through (r : string) (st : Store) :
  getToolPolicy r (getToolPolicy r st).2 = getToolPolicy r st ∧
  disk (getToolPolicy r st).2 = disk st ∧
  (∀ policy, (getToolPolicy r st).1 = Ok (Some policy) →
     cache (getToolPolicy r st).2 !! normalizeRole r = Some policy) ∧
  (∀ k policy, cache st !! k = Some policy →
     cache (getToolPolicy r st).2 !! k = Some policy).
Proof.
  split; [|split; [apply getToolPolicy_disk|split]].
  - unfold getToolPolicy.
    destruct (cache st !! normalizeRole r) as [p|] eqn:Hc; simpl; [by rewrite Hc|].
    destruct (disk st !! policyFileName (normalizeRole r)) as [[m|p]|] eqn:Hd; simpl.
    + by rewrite Hc, Hd.
    + destruct (validatePolicy p) eqn:Hv; simpl.
      * rewrite lookup_insert_eq. by destruct a.
      * by rewrite Hc, Hd, Hv.
    + by rewrite Hc, Hd.
  - intros policy Hp. by apply getToolPolicy_Some_cached.
  - intros k policy. apply getToolPolicy_keeps.
Qed.

(** ** Saving, reading back, updating, deleting *)

(** What [savePolicy] stored is what [getToolPolicy] answers, for the
    role as the policy spells it and for every spelling with the same
    normalized name; the answer for any other role is what it was before
    the save. *)
Theorem savePolicy_then_getToolPolicy (policy : ToolPolicy) (st st' : Store) :
  savePolicy policy st = (Ok tt, st') →
  getToolPolicy (role policy) st' = (Ok (Some policy), st') ∧
  (∀ r, normalizeRole r = normalizeRole (role policy) →
     getToolPolicy r st' = (Ok (Some policy), st')) ∧
  (∀ r, normalizeRole r ≠ normalizeRole (role policy) →
     (getToolPolicy r st').1 = (getToolPolicy r st).1).
Proof.
  intros Hsave. apply savePolicy_inv in Hsave as (_ & Hdisk & Hcache).
  assert (∀ r, normalizeRole r = normalizeRole (role policy) →
     getToolPolicy r st' = (Ok (Some policy), st')) as Hround.
  { intros r Hr. apply getToolPolicy_cached. by rewrite Hcache, Hr, lookup_insert_eq. }
  split; [by apply Hround|]. split; [done|].
  intros r Hr. unfold getToolPolicy. rewrite Hcache, Hdisk.
  rewrite lookup_insert_ne by done.
  rewrite lookup_insert_ne by (intros Heq; by apply policyFileName_inj in Heq).
  destruct (cache st !! normalizeRole r); [done|].
  destruct (disk st !! policyFileName (normalizeRole r)) as [[m|p]|]; [done| |done].
  by destruct (validatePolicy p).
Qed.

Lemma savePolicy_then_getToolPolicy_witness :
  let policy := {| role := " Auditor "; allowed := ["Read"]; denied := ["exec"];
                   description := None |} in
  ∃ st', savePolicy policy (constructor_settled ∅) = (Ok tt, st') ∧
    getToolPolicy "AUDITOR" st' = (Ok (Some policy), st') ∧
    (getToolPolicy "planner" st').1 = (getToolPolicy "planner" (constructor_settled ∅)).1.
Proof.
  intros policy.
  destruct (savePolicy policy (constructor_settled ∅)) as [[[]|e] st'] eqn:Hsave;
    [|vm_compute in Hsave; discriminate].
  exists st'. split; [done|].
  destruct (savePolicy_then_getToolPolicy policy (constructor_settled ∅) st' Hsave)
    as (_ & Hsame & Hother).
  split; [by apply Hsame|by apply Hother].
Defined.

Lemma policyCount_insert_present d f content :
  is_Some (d !! f) → policyCount (<[f := content]> d) = policyCount d.
Proof.
  intros Hf. unfold policyCount. by rewrite dom_insert_lookup_L.
Qed.

Lemma policyCount_insert_fresh d f content :
  d !! f = None →
  policyCount (<[f := content]> d) =
    if Str.endsWith ".json" f then S (policyCount d) else policyCount d.
Proof.
  intros Hf. unfold policyCount. rewrite dom_insert_L.
  rewrite elements_union_singleton by (by apply not_elem_of_dom).
  rewrite filter_cons. case_decide as He; [by rewrite He|].
  by destruct (Str.endsWith ".json" f).
Qed.

Lemma policyCount_insert_le d f content :
  (policyCount (<[f := content]> d) ≤ S (policyCount d))%nat.
Proof.
  destruct (d !! f) eqn:Hf.
  - rewrite policyCount_insert_present by done. lia.
  - rewrite policyCount_insert_fresh by done. destruct (Str.endsWith ".json" f); lia.
Qed.

Lemma policyCount_delete_le d f :
  (policyCount (delete f d) ≤ policyCount d)%nat.
Proof.
  destruct (d !! f) as [content|] eqn:Hf.
  - rewrite <-(insert_delete_id d f content) at 2 by done.
    rewrite policyCount_insert_fresh by apply lookup_delete_eq.
    destruct (Str.endsWith ".json" f); lia.
  - by rewrite delete_id.
Qed.

Lemma policyCount_delete_present d f content :
  d !! f = Some content →
  Str.endsWith ".json" f = true →
  S (policyCount (delete f d)) = policyCount d.
Proof.
  intros Hf He. rewrite <-(insert_delete_id d f content) at 2 by done.
  rewrite policyCount_insert_fresh by apply lookup_delete_eq. by rewrite He.
Qed.

(** Once a policy has been saved, saving a valid policy for the same
    role again is never refused, however full the directory is: the new
    policy replaces the old one in its file and in the answers, the number
    of records stays the same, and no other file changes. *)
Theorem savePolicy_update_is_never_refused
    (policy policy' : ToolPolicy) (st st' : Store) :
  savePolicy policy st = (Ok tt, st') →
  validatePolicy policy' = Ok tt →
  normalizeRole (role policy') = normalizeRole (role policy) →
  ∃ st'',
    savePolicy policy' st' = (Ok tt, st'') ∧
    getToolPolicy (role policy) st'' = (Ok (Some policy'), st'') ∧
    policyCount (disk st'') = policyCount (disk st') ∧
    (∀ f, f ≠ policyFileName (normalizeRole (role policy)) →
       disk st'' !! f = disk st' !! f).
Proof.
  intros Hsave Hv Hrole.
  apply savePolicy_inv in Hsave as (_ & Hdisk & Hcache).
  destruct (savePolicy_cases policy' st' Hv) as [(Hnone & _)|[_ Hsave']].
  { by rewrite Hrole, Hcache, lookup_insert_eq in Hnone. }
  eexists. split; [exact Hsave'|]. split; [|split].
  - apply getToolPolicy_cached. simpl. by rewrite Hrole, lookup_insert_eq.
  - simpl. apply policyCount_insert_present.
    rewrite Hrole, Hdisk, lookup_insert_eq. eauto.
  - intros f Hf. simpl. rewrite Hrole. by rewrite lookup_insert_ne.
Qed.

Lemma savePolicy_update_is_never_refused_witness :
  let st := constructor_settled crowded_directory in
  let policy := {| role := "Reviewer"; allowed := ["Read"]; denied := ["exec"];
                   description := None |} in
  let policy' := {| role := " reviewer"; allowed := ["Read"; "browser"]; denied := ["exec"];
                    description := Some "second thoughts" |} in
  policyCount (disk st) = 50%nat ∧
  ∃ st' st'',
    savePolicy policy st = (Ok tt, st') ∧
    savePolicy policy' st' = (Ok tt, st'') ∧
    getToolPolicy "Reviewer" st'' = (Ok (Some policy'), st'') ∧
    policyCount (disk st'') = policyCount (disk st').
Proof.
  intros st policy policy'. split; [vm_compute; reflexivity|].
  destruct (savePolicy policy st) as [[[]|e] st'] eqn:Hsave.
  2: { apply (f_equal fst) in Hsave. vm_compute in Hsave; discriminate. }
  destruct (savePolicy_update_is_never_refused policy policy' st st' Hsave)
    as (st'' & Hsave' & Hget & Hcount & _); [vm_compute; reflexivity|vm_compute; reflexivity|].
  exists st', st''.
  split; [reflexivity|]. split; [exact Hsave'|]. split; [exact Hget|exact Hcount].
Defined.

(** A successful [deletePolicy] is of a role that is not built in and
    takes one record out of the directory. Deleting the same role again
    fails with [ENOENT] and changes nothing. Whether a valid policy for
    that role can then be saved again depends on the number of records
    the directory held before the delete: with at most [MAX_POLICIES] of
    them the save succeeds and brings the number back to what it was;
    with more of them, which the files the constructor writes make
    possible, the save is refused with [PolicyLimitExceeded] and nothing
    changes. *)
Theorem deletePolicy_frees_a_slot (r : string) (st st' : Store) :
  deletePolicy r st = (Ok tt, st') →
  (normalizeRole r ∉ DEFAULT_ROLES) ∧
  S (policyCount (disk st')) = policyCount (disk st) ∧
  deletePolicy r st' = (Throw (SystemError "ENOENT"), st') ∧
  (∀ policy,
     validatePolicy policy = Ok tt →
     normalizeRole (role policy) = normalizeRole r →
     ((policyCount (disk st) ≤ MAX_POLICIES)%nat →
      ∃ st'', savePolicy policy st' = (Ok tt, st'') ∧
        policyCount (disk st'') = policyCount (disk st)) ∧
     ((MAX_POLICIES < policyCount (disk st))%nat →
      savePolicy policy st' = (Throw PolicyLimitExceeded, st'))).
Proof.
  unfold deletePolicy. case_bool_decide as Hdefault; [done|].
  destruct (disk st !! policyFileName (normalizeRole r)) as [content|] eqn:Hf; [|done].
  intros [= <-]. simpl. split; [done|].
  assert (S (policyCount (delete (policyFileName (normalizeRole r)) (disk st)))
          = policyCount (disk st)) as Hcount.
  { eapply policyCount_delete_present; [done|]. apply endsWith_app. }
  split; [done|]. split.
  - by rewrite lookup_delete_eq.
  - intros policy Hv Hrole.
    destruct (savePolicy_cases policy
                {| disk := delete (policyFileName (normalizeRole r)) (disk st);
                   cache := delete (normalizeRole r) (cache st) |} Hv)
      as [(_ & Hfull & Hrefused)|[[Hcached|Hroom] Hsave]]; simpl in *.
    + split; [lia|]. intros _. exact Hrefused.
    + rewrite Hrole, lookup_delete_eq in Hcached. by destruct Hcached.
    + split; [|lia]. intros _.
      eexists. split; [exact Hsave|]. simpl. rewrite Hrole.
      rewrite policyCount_insert_fresh by apply lookup_delete_eq.
      unfold policyFileName. by rewrite endsWith_app.
Qed.

Lemma deletePolicy_frees_a_slot_witness :
  let st := constructor_settled crowded_directory in
  let full := constructor_settled overfull_directory in
  let policy := {| role := "Team7"; allowed := []; denied := []; description := None |} in
  (policyCount (disk st) = 50%nat ∧
   ∃ st' st'',
     deletePolicy "team7" st = (Ok tt, st') ∧
     savePolicy policy st' = (Ok tt, st'') ∧
     policyCount (disk st'') = 50%nat) ∧
  (policyCount (disk full) = 54%nat ∧
   ∃ full',
     deletePolicy "team7" full = (Ok tt, full') ∧
     policyCount (disk full') = 53%nat ∧
     savePolicy policy full' = (Throw PolicyLimitExceeded, full')).
Proof.
  intros st full policy. split.
  - split; [vm_compute; reflexivity|].
    destruct (deletePolicy "team7" st) as [[[]|e] st'] eqn:Hdelete.
    2: { apply (f_equal fst) in Hdelete. vm_compute in Hdelete; discriminate. }
    destruct (deletePolicy_frees_a_slot "team7" st st' Hdelete) as (_ & _ & _ & Hsave).
    destruct (Hsave policy) as [Hroom _]; [vm_compute; reflexivity|vm_compute; reflexivity|].
    destruct Hroom as (st'' & Hsave' & Hcount); [vm_compute; lia|].
    exists st', st''. split; [reflexivity|]. split; [exact Hsave'|].
    rewrite Hcount. vm_compute. reflexivity.
  - split; [vm_compute; reflexivity|].
    destruct (deletePolicy "team7" full) as [[[]|e] full'] eqn:Hdelete.
    2: { apply (f_equal fst) in Hdelete. vm_compute in Hdelete; discriminate. }
    destruct (deletePolicy_frees_a_slot "team7" full full' Hdelete)
      as (_ & Hcount & _ & Hsave).
    destruct (Hsave policy) as [_ Hrefused]; [vm_compute; reflexivity|vm_compute; reflexivity|].
    exists full'. split; [reflexivity|]. split.
    + assert (policyCount (disk full) = 54%nat) as Hfull by (vm_compute; reflexivity).
      rewrite Hfull in Hcount. by injection Hcount.
    + apply Hrefused. vm_compute. lia.
Defined.

(** ** Failures change nothing *)

Lemma getToolPolicy_throw_frame r st e st' :
  getToolPolicy r st = (Throw e, st') → st' = st.
Proof.
  unfold getToolPolicy.
  destruct (cache st !! normalizeRole r); [intros; simplify_eq|].
  destruct (disk st !! policyFileName (normalizeRole r)) as [[m|p]|];
    [intros; by simplify_eq| |intros; simplify_eq].
  destruct (validatePolicy p); intros; by simplify_eq.
Qed.

Lemma deletePolicy_throw_frame r st e st' :
  deletePolicy r st = (Throw e, st') → st' = st.
Proof.
  unfold deletePolicy. case_bool_decide; [intros; by simplify_eq|].
  destruct (disk st !! policyFileName (normalizeRole r)); intros; by simplify_eq.
Qed.

(** A method of the store that throws has changed neither the
    directory nor the cache: this holds for [getToolPolicy],
    [savePolicy], [deletePolicy], [validateToolAccess] and
    [getToolFilterForRole], whatever the error. *)
Theorem store_failure_changes_nothing (st st' : Store) (e : exn) :
  (∀ r, getToolPolicy r st = (Throw e, st') → st' = st) ∧
  (∀ policy, savePolicy policy st = (Throw e, st') → st' = st) ∧
  (∀ r, deletePolicy r st = (Throw e, st') → st' = st) ∧
  (∀ r tool, validateToolAccess r tool st = (Throw e, st') → st' = st) ∧
  (∀ r, getToolFilterForRole r st = (Throw e, st') → st' = st).
Proof.
  split; [intros r; apply getToolPolicy_throw_frame|].
  split; [intros policy; apply savePolicy_throw_frame|].
  split; [intros r; apply deletePolicy_throw_frame|].
  split.
  - intros r tool. unfold validateToolAccess, mbind, M_bind.
    destruct (getToolPolicy r st) as [[[p|]|e'] st1] eqn:Hget.
    + repeat case_match; intros; simplify_eq.
    + intros; simplify_eq.
    + intros [= -> ->]. by apply getToolPolicy_throw_frame in Hget.
  - intros r. unfold getToolFilterForRole, mbind, M_bind.
    destruct (getToolPolicy r st) as [[[p|]|e'] st1] eqn:Hget.
    + intros; simplify_eq.
    + intros; simplify_eq.
    + intros [= -> ->]. by apply getToolPolicy_throw_frame in Hget.
Qed.

(** ** What the constructor leaves in the directory *)

Lemma loadDefaults_loop_disk_union policies st :
  disk (loadDefaults_loop policies st) =
    disk st ∪ list_to_map
                ((λ policy, (policyFileName (role policy), Parsed policy)) <$> policies).
Proof.
  revert st. induction policies as [|p ps IH]; intros st; simpl.
  - by rewrite (right_id_L ∅ (∪)).
  - rewrite IH. unfold loadDefaults_persist, loadDefaults_cache. simpl.
    destruct (disk st !! policyFileName (role p)) as [c|] eqn:Hf; simpl.
    + apply map_eq. intros f. rewrite !lookup_union.
      destruct (decide (f = policyFileName (role p))) as [->|Hne].
      * rewrite Hf. by rewrite !union_Some_l.
      * by rewrite lookup_insert_ne.
    + rewrite insert_union_singleton_r by done.
      rewrite <-(assoc_L (∪)). f_equal. symmetry. apply insert_union_singleton_l.
Qed.

Lemma loadDefaults_loop_cache_fold policies st :
  cache (loadDefaults_loop policies st) =
    foldl (λ c policy, <[role policy := policy]> c) (cache st) policies.
Proof.
  revert st. induction policies as [|p ps IH]; intros st; simpl; [done|].
  by rewrite IH, loadDefaults_persist_cache.
Qed.

Lemma constructor_settled_disk d : disk (constructor_settled d) = d ∪ default_files.
Proof. rewrite constructor_settled_loadDefaults. apply loadDefaults_loop_disk_union. Qed.

Lemma constructor_settled_cache_eq d : cache (constructor_settled d) = default_cache.
Proof.
  rewrite constructor_settled_loadDefaults. unfold loadDefaults.
  rewrite loadDefaults_loop_cache_fold.
  vm_compute. reflexivity.
Qed.

Lemma default_files_lookup policy :
  policy ∈ DEFAULT_POLICIES →
  default_files !! policyFileName (role policy) = Some (Parsed policy).
Proof.
  intros Hin. repeat (apply elem_of_cons in Hin as [->|Hin]; [done|]).
  by apply elem_of_nil in Hin.
Qed.

(** Once the [loadDefaults] of the constructor has settled, a file
    that was in the directory is there with the content it had, a built-in
    policy without a file has been given one with the built-in content,
    no other file exists, and the cache holds the five built-in policies
    and nothing else. *)
Theorem constructor_keeps_existing_files (d : gmap string PolicyFile) :
  (∀ f, disk (constructor_settled d) !! f =
        match d !! f with
        | Some content => Some content
        | None => default_files !! f
        end) ∧
  (∀ policy, policy ∈ DEFAULT_POLICIES →
     default_files !! policyFileName (role policy) = Some (Parsed policy)) ∧
  (∀ f, is_Some (default_files !! f) →
     ∃ policy, policy ∈ DEFAULT_POLICIES ∧ f = policyFileName (role policy)) ∧
  cache (constructor_settled d) = default_cache.
Proof.
  split; [|split; [|split]].
  - intros f. rewrite constructor_settled_disk, lookup_union.
    destruct (d !! f), (default_files !! f); done.
  - apply default_files_lookup.
  - intros f [c Hc]. unfold default_files in Hc.
    apply elem_of_list_to_map_2, list_elem_of_fmap in Hc as (policy & [= -> ->] & Hin).
    eauto.
  - apply constructor_settled_cache_eq.
Qed.

(** ** What stays true of a running service *)

Lemma cache_backed_constructor_settled d : cache_backed (constructor_settled d).
Proof.
  intros k policy. rewrite constructor_settled_cache_eq. intros Hk.
  apply elem_of_list_to_map_2, list_elem_of_fmap in Hk as (p & [= -> ->] & Hin).
  split.
  - repeat (apply elem_of_cons in Hin as [->|Hin]; [vm_compute; reflexivity|]).
    by apply elem_of_nil in Hin.
  - rewrite constructor_settled_disk, lookup_union.
    rewrite (default_files_lookup p Hin).
    by destruct (d !! policyFileName (role p)).
Qed.

Lemma cache_backed_getToolPolicy r st :
  cache_backed st → cache_backed (getToolPolicy r st).2.
Proof.
  intros Hst. unfold getToolPolicy.
  destruct (cache st !! normalizeRole r) eqn:Hc; [done|].
  destruct (disk st !! policyFileName (normalizeRole r)) as [[m|p]|] eqn:Hd; [done| |done].
  destruct (validatePolicy p) as [[]|] eqn:Hv; [|done].
  intros k policy. simpl.
  destruct (decide (k = normalizeRole r)) as [->|Hne].
  - rewrite lookup_insert_eq. intros [= <-]. by rewrite Hd.
  - rewrite lookup_insert_ne by done. apply Hst.
Qed.

Lemma cache_backed_savePolicy policy st :
  cache_backed st → cache_backed (savePolicy policy st).2.
Proof.
  intros Hst. destruct (savePolicy policy st) as [[[]|e] st'] eqn:Hsave.
  - apply savePolicy_inv in Hsave as (Hv & Hdisk & Hcache).
    intros k p. simpl. rewrite Hcache, Hdisk.
    destruct (decide (k = normalizeRole (role policy))) as [->|Hne].
    + rewrite !lookup_insert_eq. by intros [= <-].
    + rewrite lookup_insert_ne by done.
      rewrite lookup_insert_ne by (intros Heq; by apply policyFileName_inj in Heq).
      apply Hst.
  - apply savePolicy_throw_frame in Hsave as ->. done.
Qed.

Lemma cache_backed_deletePolicy r st :
  cache_backed st → cache_backed (deletePolicy r st).2.
Proof.
  intros Hst. unfold deletePolicy. case_bool_decide; [done|].
  destruct (disk st !! policyFileName (normalizeRole r)) as [content|]; [|done].
  intros k q. simpl.
  destruct (decide (k = normalizeRole r)) as [->|Hne].
  - by rewrite lookup_delete_eq.
  - rewrite lookup_delete_ne by done.
    rewrite lookup_delete_ne by (intros Heq; by apply policyFileName_inj in Heq).
    apply Hst.
Qed.

Lemma cache_backed_run_call st c : cache_backed st → cache_backed (run_call st c).
Proof.
  destruct c; simpl.
  - apply cache_backed_getToolPolicy.
  - apply cache_backed_savePolicy.
  - apply cache_backed_deletePolicy.
  - rewrite validateToolAccess_state. apply cache_backed_getToolPolicy.
  - rewrite getToolFilterForRole_state. apply cache_backed_getToolPolicy.
Qed.

Lemma cache_backed_run_calls st cs : cache_backed st → cache_backed (run_calls st cs).
Proof.
  revert st. induction cs as [|c cs IH]; intros st Hst; [done|].
  apply IH. by apply cache_backed_run_call.
Qed.

(** Whatever calls were made on a settled service and whatever the
    directory held, a policy that [getToolPolicy] answers passes
    [validatePolicy]: in particular no tool is both allowed and denied
    by it. It has a file in the directory and is in the cache
    afterwards. *)
Theorem served_policies_are_valid
    (d : gmap string PolicyFile) (cs : list call) (r : string)
    (policy : ToolPolicy) (st' : Store) :
  getToolPolicy r (run_calls (constructor_settled d) cs) = (Ok (Some policy), st') →
  validatePolicy policy = Ok tt ∧
  (∀ tool, tool ∈ allowed policy → tool ∉ denied policy) ∧
  is_Some (disk st' !! policyFileName (normalizeRole r)) ∧
  cache st' !! normalizeRole r = Some policy.
Proof.
  intros Hget.
  pose proof (cache_backed_getToolPolicy r _
                (cache_backed_run_calls _ cs (cache_backed_constructor_settled d))) as Hst.
  rewrite Hget in Hst. simpl in Hst.
  assert (cache st' !! normalizeRole r = Some policy) as Hc.
  { pose proof (getToolPolicy_Some_cached r
                  (run_calls (constructor_settled d) cs) policy) as Hcached.
    rewrite Hget in Hcached. by apply Hcached. }
  destruct (Hst _ _ Hc) as [Hv Hf].
  split; [done|]. split; [|done].
  by apply validatePolicy_Ok_disjoint.
Qed.

Lemma served_policies_are_valid_witness :
  let policy := {| role := "Auditor"; allowed := ["Read"]; denied := ["exec"];
                   description := None |} in
  let d : gmap string PolicyFile := {[ "auditor.json" := Parsed policy ]} in
  let cs := [Call_validateToolAccess "planner" "Read"; Call_deletePolicy "guest"] in
  ∃ st', getToolPolicy " AUDITOR " (run_calls (constructor_settled d) cs)
         = (Ok (Some policy), st') ∧
    validatePolicy policy = Ok tt ∧
    cache st' !! "auditor" = Some policy.
Proof.
  intros policy d cs.
  destruct (getToolPolicy " AUDITOR " (run_calls (constructor_settled d) cs))
    as [res st'] eqn:Hget.
  assert (res = Ok (Some policy)) as ->.
  { apply (f_equal fst) in Hget. vm_compute in Hget. by symmetry. }
  exists st'. split; [done|].
  destruct (served_policies_are_valid d cs " AUDITOR " policy st' Hget)
    as (Hv & _ & _ & Hc).
  split; [done|]. exact Hc.
Defined.

Lemma policyCount_run_call st c (bound : nat) :
  cache_backed st →
  (MAX_POLICIES ≤ bound)%nat →
  (policyCount (disk st) ≤ bound)%nat →
  (policyCount (disk (run_call st c)) ≤ bound)%nat.
Proof.
  intros Hst Hb Hn. destruct c; simpl.
  - by rewrite getToolPolicy_disk.
  - destruct (savePolicy policy st) as [[[]|e] st'] eqn:Hsave.
    + pose proof Hsave as Hinv.
      apply savePolicy_inv in Hinv as (Hv & Hdisk & Hcache). simpl. rewrite Hdisk.
      destruct (savePolicy_cases policy st Hv) as [(_ & _ & Hthrow)|[Hcase _]];
        [congruence|].
      destruct Hcase as [[p Hp]|Hlt].
      * rewrite policyCount_insert_present; [done|]. by apply (Hst _ p).
      * pose proof (policyCount_insert_le (disk st)
                      (policyFileName (normalizeRole (role policy))) (Parsed policy)).
        lia.
    + apply savePolicy_throw_frame in Hsave as ->. done.
  - unfold deletePolicy. case_bool_decide; [done|].
    destruct (disk st !! policyFileName (normalizeRole r)); [|done]. simpl.
    pose proof (policyCount_delete_le (disk st) (policyFileName (normalizeRole r))). lia.
  - by rewrite validateToolAccess_state, getToolPolicy_disk.
  - by rewrite getToolFilterForRole_state, getToolPolicy_disk.
Qed.

Lemma policyCount_run_calls st cs (bound : nat) :
  cache_backed st →
  (MAX_POLICIES ≤ bound)%nat →
  (policyCount (disk st) ≤ bound)%nat →
  (policyCount (disk (run_calls st cs)) ≤ bound)%nat.
Proof.
  revert st. induction cs as [|c cs IH]; intros st Hst Hb Hn; [done|].
  apply IH; [by apply cache_backed_run_call|done|by apply policyCount_run_call].
Qed.

(** The limit holds for good: no sequence of calls on a settled service
    takes the number of records above 50, or above the number there was
    after construction when that was more; and construction adds at most
    five records to those of the directory. *)
Theorem policy_limit_is_kept (d : gmap string PolicyFile) (cs : list call) :
  (policyCount (disk (run_calls (constructor_settled d) cs))
   ≤ Nat.max (policyCount (disk (constructor_settled d))) MAX_POLICIES)%nat ∧
  (policyCount (disk (constructor_settled d)) ≤ policyCount d + length DEFAULT_POLICIES)%nat.
Proof.
  split.
  - apply policyCount_run_calls; [apply cache_backed_constructor_settled|lia..].
  - rewrite constructor_settled_loadDefaults. unfold loadDefaults.
    generalize DEFAULT_POLICIES. intros ps.
    change d with (disk {| disk := d; cache := ∅ |}) at 2.
    generalize ({| disk := d; cache := ∅ |}).
    induction ps as [|p ps IH]; intros st; simpl; [lia|].
    etrans; [apply IH|].
    assert (policyCount (disk (loadDefaults_persist p (loadDefaults_cache p st)))
            ≤ S (policyCount (disk st)))%nat; [|lia].
    unfold loadDefaults_persist, loadDefaults_cache. simpl.
    destruct (disk st !! policyFileName (role p)); simpl; [lia|].
    apply policyCount_insert_le.
Qed.

(** ** Listing *)

Lemma getToolPolicy_answer r st x st' :
  getToolPolicy r st = (Ok x, st') →
  x = answer st (normalizeRole r) ∧ disk st' = disk st ∧
  ∀ k, answer st' k = answer st k.
Proof.
  unfold getToolPolicy, answer.
  destruct (cache st !! normalizeRole r) as [p|] eqn:Hc; [intros; by simplify_eq|].
  destruct (disk st !! policyFileName (normalizeRole r)) as [[m|p]|] eqn:Hd;
    [intros; simplify_eq| |intros; by simplify_eq].
  destruct (validatePolicy p); intros; simplify_eq.
  split; [done|]. split; [done|]. intros k. simpl.
  destruct (decide (k = normalizeRole r)) as [->|Hne].
  - by rewrite lookup_insert_eq, Hc, Hd.
  - by rewrite lookup_insert_ne.
Qed.

Lemma listPolicies_loop_disk files acc st :
  disk (listPolicies_loop files acc st).2 = disk st.
Proof.
  revert acc st. induction files as [|file rest IH]; intros acc st; simpl; [done|].
  destruct (Str.endsWith ".json" file); simpl; [|apply IH].
  unfold mbind, M_bind.
  pose proof (getToolPolicy_disk (Str.remove_first ".json" file) st) as Hd.
  destruct (getToolPolicy (Str.remove_first ".json" file) st) as [[[p|]|e] st1];
    simpl in Hd; rewrite ?IH; done.
Qed.

Lemma listPolicies_loop_Ok st0 files acc st ps st' :
  (∀ k, answer st k = answer st0 k) →
  listPolicies_loop files acc st = (Ok ps, st') →
  ps = acc ++ omap (λ file, answer st0 (normalizeRole (Str.remove_first ".json" file)))
                   (filter (λ file, Str.endsWith ".json" file = true) files).
Proof.
  revert acc st. induction files as [|file rest IH]; intros acc st Hst; simpl.
  - intros [= <- <-]. by rewrite (right_id_L [] (++)).
  - rewrite filter_cons. case_decide as He.
    2: { destruct (Str.endsWith ".json" file); [done|]. simpl. by apply IH. }
    rewrite He. simpl. unfold mbind, M_bind.
    destruct (getToolPolicy (Str.remove_first ".json" file) st) as [[x|e] st1] eqn:Hget;
      [|done].
    apply getToolPolicy_answer in Hget as (-> & _ & Hsame).
    assert (∀ k, answer st1 k = answer st0 k) as Hst1.
    { intros k. by rewrite Hsame. }
    rewrite Hst.
    destruct (answer st0 _) as [p|]; intros Hloop; apply IH in Hloop; try done.
    by rewrite Hloop, <-(assoc_L (++)).
Qed.

Lemma remove_first_policyFileName k :
  ¬ occurs "." k → Str.remove_first ".json" (policyFileName k) = k.
Proof. apply remove_first_suffix. Qed.

(** A listing that succeeds gives, in the order of the directory, what
    the service has to say about each name that ends in [.json], read as
    a role with the first [.json] taken out; names without the ending and
    names without an answer are passed over. The directory is not
    written. A policy that the service answers for a normalized role
    without a dot, whose file is in the directory, is in the listing. *)
Theorem listPolicies_lists_answers
    (files : list string) (st st' : Store) (policies : list ToolPolicy) :
  listPolicies files st = (Ok policies, st') →
  policies =
    omap (λ file, answer st (normalizeRole (Str.remove_first ".json" file)))
         (filter (λ file, Str.endsWith ".json" file = true) files) ∧
  disk st' = disk st ∧
  (∀ k policy,
     policyFileName k ∈ files → normalizeRole k = k → ¬ occurs "." k →
     answer st k = Some policy → policy ∈ policies).
Proof.
  intros Hlist.
  pose proof (listPolicies_loop_disk files [] st) as Hdisk.
  unfold listPolicies in Hlist. rewrite Hlist in Hdisk.
  apply (listPolicies_loop_Ok st) in Hlist; [|done]. simpl in Hlist.
  split; [done|]. split; [done|].
  intros k policy Hin Hnorm Hdot Hanswer. rewrite Hlist.
  apply list_elem_of_omap. exists (policyFileName k). split.
  - apply list_elem_of_filter. split; [apply endsWith_app|done].
  - by rewrite remove_first_policyFileName, Hnorm.
Qed.

Lemma listPolicies_lists_answers_witness :
  let auditor := {| role := "Auditor"; allowed := ["Read"]; denied := [];
                    description := None |} in
  let d : gmap string PolicyFile :=
    {[ "auditor.json" := Parsed auditor; "notes.txt" := Unparsable "not JSON" ]} in
  let files := ["notes.txt"; "planner.json"; "auditor.json"; "developer.json";
                "reviewer.json"; "tester.json"; "deployer.json"] in
  ∃ policies st',
    listPolicies files (constructor_settled d) = (Ok policies, st') ∧
    role <$> policies =
      ["planner"; "Auditor"; "developer"; "reviewer"; "tester"; "deployer"] ∧
    disk st' = disk (constructor_settled d).
Proof.
  intros auditor d files.
  destruct (listPolicies files (constructor_settled d)) as [[policies|e] st'] eqn:Hlist;
    [|vm_compute in Hlist; discriminate].
  exists policies, st'. split; [done|].
  destruct (listPolicies_lists_answers files (constructor_settled d) st' policies Hlist)
    as (-> & Hdisk & _).
  split; [vm_compute; reflexivity|exact Hdisk].
Defined.

Lemma getToolPolicy_same_role r r' st :
  normalizeRole r = normalizeRole r' → getToolPolicy r st = getToolPolicy r' st.
Proof. intros Hr. unfold getToolPolicy. by rewrite Hr. Qed.

(** A lookup that fails still fails after a lookup that succeeded. *)
Lemma getToolPolicy_Throw_stable r r' st x st1 e :
  getToolPolicy r' st = (Ok x, st1) →
  (getToolPolicy r st).1 = Throw e →
  (getToolPolicy r st1).1 = Throw e.
Proof.
  intros Hok Hthrow.
  destruct (decide (normalizeRole r = normalizeRole r')) as [Heq|Hne].
  { rewrite (getToolPolicy_same_role r r' st Heq), Hok in Hthrow. by simpl in Hthrow. }
  revert Hok Hthrow. unfold getToolPolicy.
  destruct (cache st !! normalizeRole r) as [p|] eqn:Hc; [done|].
  destruct (cache st !! normalizeRole r') as [p'|].
  { intros [= _ <-]. by rewrite Hc. }
  destruct (disk st !! policyFileName (normalizeRole r')) as [[m'|p']|]; [done| |].
  - destruct (validatePolicy p'); [|done].
    intros [= _ <-]. simpl. rewrite lookup_insert_ne by congruence. rewrite Hc.
    destruct (disk st !! policyFileName (normalizeRole r)) as [[m|p]|]; [done| |done].
    by destruct (validatePolicy p).
  - intros [= _ <-]. by rewrite Hc.
Qed.

Lemma listPolicies_loop_Throw files acc st file e :
  file ∈ files →
  Str.endsWith ".json" file = true →
  (getToolPolicy (Str.remove_first ".json" file) st).1 = Throw e →
  ∃ e' st', listPolicies_loop files acc st = (Throw e', st').
Proof.
  revert acc st. induction files as [|file0 rest IH]; intros acc st Hin He Hthrow.
  { by apply elem_of_nil in Hin. }
  simpl. destruct (Str.endsWith ".json" file0) eqn:He0; simpl.
  - unfold mbind, M_bind.
    destruct (getToolPolicy (Str.remove_first ".json" file0) st) as [[x|e0] st1] eqn:Hget;
      [|eauto].
    apply elem_of_cons in Hin as [->|Hin].
    { rewrite Hget in Hthrow. by simpl in Hthrow. }
    pose proof (getToolPolicy_Throw_stable _ _ _ _ _ _ Hget Hthrow) as Hthrow1.
    destruct x; by apply IH.
  - apply elem_of_cons in Hin as [->|Hin]; [congruence|]. by apply IH.
Qed.

(** One record that cannot be read makes the whole listing fail: if the
    lookup of the role of some listed [.json] file would throw, then
    [listPolicies] throws, whatever the other records are, and the
    directory is as it was. *)
Theorem listPolicies_fails_on_unreadable_record
    (files : list string) (st : Store) (file : string) (e : exn) :
  file ∈ files →
  Str.endsWith ".json" file = true →
  (getToolPolicy (Str.remove_first ".json" file) st).1 = Throw e →
  ∃ e' st', listPolicies files st = (Throw e', st') ∧ disk st' = disk st.
Proof.
  intros Hin He Hthrow.
  destruct (listPolicies_loop_Throw files [] st file e Hin He Hthrow) as (e' & st' & Hlist).
  exists e', st'. split; [done|].
  pose proof (listPolicies_loop_disk files [] st) as Hdisk. by rewrite Hlist in Hdisk.
Qed.

Lemma listPolicies_fails_on_unreadable_record_witness :
  let d : gmap string PolicyFile :=
    {[ "auditor.json" := Unparsable "Unexpected end of JSON input" ]} in
  let files := ["planner.json"; "auditor.json"; "developer.json"] in
  ∃ e st', listPolicies files (constructor_settled d) = (Throw e, st') ∧
    disk st' = disk (constructor_settled d).
Proof.
  intros d files.
  apply (listPolicies_fails_on_unreadable_record files (constructor_settled d)
           "auditor.json"
           (PolicyInvalid "Unexpected end of JSON input")).
  - apply elem_of_cons. right. apply elem_of_cons. by left.
  - vm_compute. reflexivity.
  - vm_compute. reflexivity.
Defined.

(** ** Emptying the cache *)

(** When [clearCache] returns, the directory is as it was and the cache
    holds at most the first built-in policy, the [loadDefaults] it
    started being at its first [await]. A lookup made then, for any role
    but that one, goes by the directory alone: the record there is
    answered if it is valid, also for a built-in role. *)
Theorem clearCache_rereads_directory (st : Store) :
  disk (clearCache st) = disk st ∧
  (∀ k, is_Some (cache (clearCache st) !! k) → k = "planner") ∧
  (∀ r, normalizeRole r ≠ "planner" →
     (getToolPolicy r (clearCache st)).1 =
       match disk st !! policyFileName (normalizeRole r) with
       | None => Ok None
       | Some (Unparsable message) => Throw (PolicyInvalid message)
       | Some (Parsed policy) =>
           match validatePolicy policy with
           | Ok _ => Ok (Some policy)
           | Throw e => Throw (PolicyInvalid (exn_message e))
           end
       end).
Proof.
  split; [done|]. split.
  - intros k. unfold clearCache, loadDefaults_start, loadDefaults_cache. simpl.
    destruct (decide (k = "planner")) as [->|Hne]; [done|].
    rewrite lookup_insert_ne by done. rewrite lookup_empty. by intros [? ?].
  - intros r Hr. unfold getToolPolicy.
    assert (cache (clearCache st) !! normalizeRole r = None) as ->.
    { unfold clearCache, loadDefaults_start, loadDefaults_cache. simpl.
      rewrite lookup_insert_ne by done. apply lookup_empty. }
    change (disk (clearCache st)) with (disk st).
    destruct (disk st !! policyFileName (normalizeRole r)) as [[m|p]|]; [done| |done].
    by destruct (validatePolicy p).
Qed.

End PolicyStoreFacts.

(** * Further properties of the step executor *)

Module StepOutcomeFacts.
Import Js WorkflowStepExecutor Spec Examples StrFacts ExecuteStepFacts.

(** ** The singleton and its [loadDefaults] *)

Lemma only_defaults_written_refl d : only_defaults_written d d.
Proof. intros f. destruct (d !! f); auto. Qed.

Lemma only_defaults_written_trans d1 d2 d3 :
  only_defaults_written d1 d2 → only_defaults_written d2 d3 →
  only_defaults_written d1 d3.
Proof.
  intros H12 H23 f. specialize (H12 f). specialize (H23 f).
  destruct (d1 !! f) as [c|].
  - by rewrite H12 in H23.
  - destruct H12 as [H12|H12].
    + by rewrite H12 in H23.
    + rewrite H12 in H23. destruct (default_files !! f) as [c|]; [|done].
      right. by rewrite H23.
Qed.

(** The policy a step of [loadDefaults] is about. *)
Lemma loadDefaults_steps_policy policies step :
  step ∈ ToolPolicyService.loadDefaults_steps policies →
  ∃ policy, policy ∈ policies ∧
    (step = ToolPolicyService.Cache policy ∨ step = ToolPolicyService.Persist policy).
Proof.
  induction policies as [|p ps IH]; simpl.
  - intros Hin. by apply elem_of_nil in Hin.
  - rewrite !elem_of_cons. intros [->|[->|Hin]].
    + exists p. split; [by left|by left].
    + exists p. split; [by left|by right].
    + destruct (IH Hin) as (q & Hq & Hstep). exists q. split; [by right|done].
Qed.

Lemma run_loadStep_disk st step :
  (∃ policy, policy ∈ ToolPolicyService.DEFAULT_POLICIES ∧
     (step = ToolPolicyService.Cache policy ∨ step = ToolPolicyService.Persist policy)) →
  only_defaults_written (ToolPolicyService.disk st)
    (ToolPolicyService.disk (ToolPolicyService.run_loadStep st step)).
Proof.
  intros (p & Hp & [->| ->]); simpl; [apply only_defaults_written_refl|].
  unfold ToolPolicyService.loadDefaults_persist.
  destruct (ToolPolicyService.disk st !! ToolPolicyService.policyFileName
              (ToolPolicyService.role p)) eqn:Hf; [apply only_defaults_written_refl|].
  intros f. simpl.
  destruct (decide (f = ToolPolicyService.policyFileName (ToolPolicyService.role p)))
    as [->|Hne].
  - rewrite Hf, lookup_insert_eq. right.
    by rewrite (PolicyStoreFacts.default_files_lookup p Hp).
  - rewrite lookup_insert_ne by done.
    destruct (ToolPolicyService.disk st !! f); auto.
Qed.

Lemma run_loadStep_cache st step k :
  k ∉ ToolPolicyService.DEFAULT_ROLES →
  (∃ policy, policy ∈ ToolPolicyService.DEFAULT_POLICIES ∧
     (step = ToolPolicyService.Cache policy ∨ step = ToolPolicyService.Persist policy)) →
  ToolPolicyService.cache (ToolPolicyService.run_loadStep st step) !! k
    = ToolPolicyService.cache st !! k.
Proof.
  intros Hk (p & Hp & [->| ->]); simpl.
  - apply lookup_insert_ne. intros <-.
    by destruct (ToolPolicyFacts.DEFAULT_POLICIES_role p Hp).
  - by rewrite ToolPolicyFacts.loadDefaults_persist_cache.
Qed.

Lemma loadSteps_disk steps st :
  (∀ step, step ∈ steps →
     step ∈ ToolPolicyService.loadDefaults_steps ToolPolicyService.DEFAULT_POLICIES) →
  only_defaults_written (ToolPolicyService.disk st)
    (ToolPolicyService.disk (foldl ToolPolicyService.run_loadStep st steps)).
Proof.
  revert st. induction steps as [|step steps IH]; intros st Hsteps; simpl.
  - apply only_defaults_written_refl.
  - eapply only_defaults_written_trans.
    + apply run_loadStep_disk, loadDefaults_steps_policy, Hsteps. by left.
    + apply IH. intros s Hs. apply Hsteps. by right.
Qed.

Lemma loadSteps_cache steps st k :
  k ∉ ToolPolicyService.DEFAULT_ROLES →
  (∀ step, step ∈ steps →
     step ∈ ToolPolicyService.loadDefaults_steps ToolPolicyService.DEFAULT_POLICIES) →
  ToolPolicyService.cache (foldl ToolPolicyService.run_loadStep st steps) !! k
    = ToolPolicyService.cache st !! k.
Proof.
  intros Hk. revert st. induction steps as [|step steps IH]; intros st Hsteps; simpl.
  - done.
  - rewrite IH by (intros s Hs; apply Hsteps; by right).
    apply run_loadStep_cache; [done|].
    apply loadDefaults_steps_policy, Hsteps. by left.
Qed.

Lemma pending_steps n made step :
  step ∈ take (2 * n) (drop made
                   (ToolPolicyService.loadDefaults_steps ToolPolicyService.DEFAULT_POLICIES)) →
  step ∈ ToolPolicyService.loadDefaults_steps ToolPolicyService.DEFAULT_POLICIES.
Proof.
  intros Hin. by apply subseteq_take, subseteq_drop in Hin.
Qed.

(** While the [loadDefaults] of the singleton goes on, no file of the
    policies directory is changed or removed; what it writes are missing
    files of built-in policies. *)
Lemma advance_disk n w :
  only_defaults_written (ToolPolicyService.disk (policies w))
    (ToolPolicyService.disk (policies (advance n w))).
Proof.
  unfold advance. destruct (service w) as [made|]; simpl.
  - apply loadSteps_disk. intros step. apply pending_steps.
  - apply only_defaults_written_refl.
Qed.

(** It caches built-in roles only. *)
Lemma advance_cache n w k :
  k ∉ ToolPolicyService.DEFAULT_ROLES →
  ToolPolicyService.cache (policies (advance n w)) !! k
    = ToolPolicyService.cache (policies w) !! k.
Proof.
  intros Hk. unfold advance. destruct (service w) as [made|]; simpl; [|done].
  apply loadSteps_cache; [done|]. intros step. apply pending_steps.
Qed.

Lemma advance_service n w : is_Some (service w) → is_Some (service (advance n w)).
Proof. unfold advance. destruct (service w); [by eauto|by intros [? ?]]. Qed.

(** The steps of [loadDefaults], made one after the other from the state
    the constructor returns in, give the settled service. *)
Lemma loadDefaults_steps_loop policies st :
  foldl ToolPolicyService.run_loadStep st (ToolPolicyService.loadDefaults_steps policies)
  = ToolPolicyService.loadDefaults_loop policies st.
Proof.
  revert st. induction policies as [|p ps IH]; intros st; simpl; [done|]. apply IH.
Qed.

Lemma getToolPolicyService_frame w w' :
  getToolPolicyService w = (Ok tt, w') →
  runs w' = runs w ∧
  ToolPolicyService.disk (policies w') = ToolPolicyService.disk (policies w) ∧
  is_Some (service w') ∧
  (∀ k, k ∉ ToolPolicyService.DEFAULT_ROLES →
        is_Some (service w) ∨ ToolPolicyService.cache (policies w') !! k = None) ∧
  (is_Some (service w) → w' = w).
Proof.
  unfold getToolPolicyService. destruct (service w) as [made|] eqn:Hs.
  - intros [= <-]. rewrite Hs. eauto 10.
  - intros [= <-]. simpl. split; [done|]. split; [done|]. split; [by eauto|].
    split; [|by intros [? ?]].
    intros k Hk. right.
    unfold ToolPolicyService.loadDefaults_cache. simpl.
    rewrite lookup_insert_ne; [done|]. intros <-. apply Hk. by vm_compute.
Qed.

Lemma getToolFilterForRole_toolFilter r st :
  ToolPolicyService.getToolFilterForRole r st
  = (let '(policy, st') := ToolPolicyService.getToolPolicy r st in
     match policy with
     | Ok policy => (Ok (ToolPolicyService.toolFilter policy), st')
     | Throw e => (Throw e, st')
     end).
Proof.
  unfold ToolPolicyService.getToolFilterForRole, mbind, M_bind.
  by destruct (ToolPolicyService.getToolPolicy r st) as [[[policy|]|e] st'].
Qed.

Section WithLibraries.
Context `{Realm} `{Libraries} `{EventLoop}.

(** With nothing of [loadDefaults] left to do, the lookup of the
    singleton is [getToolPolicy] of the service. *)
Lemma service_getToolPolicy_settled r w made :
  service w = Some made →
  (length (ToolPolicyService.loadDefaults_steps ToolPolicyService.DEFAULT_POLICIES)
   ≤ made)%nat →
  (service_getToolPolicy r w).1 = (ToolPolicyService.getToolPolicy r (policies w)).1 ∧
  policies (service_getToolPolicy r w).2 = (ToolPolicyService.getToolPolicy r (policies w)).2 ∧
  runs (service_getToolPolicy r w).2 = runs w.
Proof.
  intros Hs Hmade.
  assert (∀ n w0 made0, service w0 = Some made0 →
            (length (ToolPolicyService.loadDefaults_steps ToolPolicyService.DEFAULT_POLICIES)
             ≤ made0)%nat →
            policies (advance n w0) = policies w0 ∧ runs (advance n w0) = runs w0 ∧
            service (advance n w0) = Some (made0 + 2 * n)%nat) as Hidle.
  { intros n w0 made0 Hs0 Hm. unfold advance. rewrite Hs0. cbn [policies runs service].
    rewrite (drop_ge _ _ Hm), take_nil. done. }
  unfold service_getToolPolicy, ToolPolicyService.getToolPolicy.
  destruct (ToolPolicyService.cache (policies w) !! ToolPolicyService.normalizeRole r);
    [done|].
  destruct (Hidle (meanwhile 1) w made Hs Hmade) as (Hp1 & Hr1 & Hs1).
  destruct (Hidle (meanwhile 2) (advance (meanwhile 1) w) _ Hs1 ltac:(lia))
    as (Hp2 & Hr2 & _).
  rewrite Hp1.
  destruct (ToolPolicyService.disk (policies w) !! _) as [[m|p]|];
    [| destruct (ToolPolicyService.validatePolicy p) |]; simpl;
    rewrite ?Hp2, ?Hp1, ?Hr2, ?Hr1; done.
Qed.

Lemma service_getToolPolicy_disk r w res w' :
  service_getToolPolicy r w = (res, w') →
  only_defaults_written (ToolPolicyService.disk (policies w))
    (ToolPolicyService.disk (policies w')).
Proof.
  unfold service_getToolPolicy.
  destruct (ToolPolicyService.cache (policies w) !! ToolPolicyService.normalizeRole r);
    [intros [= _ <-]; apply only_defaults_written_refl|].
  assert (only_defaults_written (ToolPolicyService.disk (policies w))
            (ToolPolicyService.disk
               (policies (advance (meanwhile 2) (advance (meanwhile 1) w))))) as Hdisk.
  { eapply only_defaults_written_trans; apply advance_disk. }
  destruct (ToolPolicyService.disk _ !! _) as [[m|p]|];
    [| destruct (ToolPolicyService.validatePolicy p) |];
    intros [= _ <-]; done.
Qed.

Lemma getToolPolicyForAgent_disk agentDef w res w' :
  getToolPolicyForAgent agentDef w = (res, w') →
  only_defaults_written (ToolPolicyService.disk (policies w))
    (ToolPolicyService.disk (policies w')).
Proof.
  unfold getToolPolicyForAgent.
  destruct (agentDef ≫= WorkflowAgent.role) as [r|];
    [|intros [= _ <-]; apply only_defaults_written_refl].
  case_bool_decide; [intros [= _ <-]; apply only_defaults_written_refl|].
  unfold mbind, M_bind, service_getToolFilterForRole, mbind, M_bind.
  destruct (getToolPolicyService w) as [[[]|e] w0] eqn:Hservice.
  - apply getToolPolicyService_frame in Hservice as (_ & Hd & _). rewrite <-Hd.
    destruct (service_getToolPolicy r w0) as [[policy|e] w1] eqn:Hget;
      intros [= _ <-]; by eapply service_getToolPolicy_disk.
  - revert Hservice. unfold getToolPolicyService. by destruct (service w).
Qed.

(** Up to the output of the agent the policies directory loses nothing:
    the executor only reads it, and the [loadDefaults] of the singleton,
    which the first use of the service starts, writes missing files of
    built-in policies. *)
Lemma agentOutput_disk step run w r w' :
  agentOutput step run w = (r, w') →
  only_defaults_written (ToolPolicyService.disk (policies w))
    (ToolPolicyService.disk (policies w')).
Proof.
  unfold agentOutput, mbind at 1, M_bind at 1, loadProgressFile.
  destruct (valid_runId (WorkflowRun.id run));
    [|intros [= _ <-]; apply only_defaults_written_refl].
  unfold mbind at 1, M_bind at 1, wait.
  unfold mbind at 1, M_bind at 1.
  destruct (renderTemplate _ _) as [prompt|e]; [|intros [= _ <-]; apply advance_disk].
  unfold mbind at 1, M_bind at 1.
  destruct (getToolPolicyForAgent _ _) as [[f|e] w1] eqn:Hfilter;
    intros [= _ <-]; apply getToolPolicyForAgent_disk in Hfilter;
    (eapply only_defaults_written_trans; [apply advance_disk|done]).
Qed.

(** ** Acceptance criteria *)

Lemma validateCriteria_Ok_iff criteria output parsed :
  validateCriteria criteria output parsed = Ok tt ↔
  Forall (fun c => substring c output) criteria.
Proof.
  induction criteria as [|c cs IH]; simpl.
  - split; [constructor|done].
  - unfold validateCriterion. rewrite Forall_cons, <-IH.
    destruct (Str.includes c output) eqn:Hc.
    + apply includes_spec in Hc. tauto.
    + apply includes_false in Hc. split; [done|tauto].
Qed.

Lemma validateAcceptanceCriteria_Ok_inv step output parsed :
  validateAcceptanceCriteria step output parsed = Ok tt →
  ∀ criterion, criterion ∈ default [] (WorkflowStep.acceptance_criteria step) →
    substring criterion output.
Proof.
  unfold validateAcceptanceCriteria. rewrite <-Forall_forall.
  destruct (WorkflowStep.acceptance_criteria step) as [criteria|]; simpl.
  - apply validateCriteria_Ok_iff.
  - constructor.
Qed.

(** The criteria of a step are accepted exactly when each of them is a
    literal substring of the raw output, a step without criteria being
    accepted always; the parsed output plays no part. *)
Theorem validateAcceptanceCriteria_accepts_iff
    (step : WorkflowStep.t) (output : string) (parsed parsed' : value) :
  (validateAcceptanceCriteria step output parsed = Ok tt ↔
   ∀ criterion, criterion ∈ default [] (WorkflowStep.acceptance_criteria step) →
     substring criterion output) ∧
  validateAcceptanceCriteria step output parsed
    = validateAcceptanceCriteria step output parsed'.
Proof.
  unfold validateAcceptanceCriteria.
  destruct (WorkflowStep.acceptance_criteria step) as [criteria|]; simpl.
  - split.
    + rewrite <-Forall_forall. apply validateCriteria_Ok_iff.
    + induction criteria as [|c cs IH]; [done|]. simpl. by rewrite IH.
  - split; [|done]. split; [|done]. intros _ c Hc. by apply elem_of_nil in Hc.
Qed.

(** ** What an append does to the files *)

Lemma appendProgressFile_Ok runId stepId output timestamp w :
  valid_runId runId = true →
  appendProgressFile runId stepId output timestamp w
  = (Ok tt, (appendProgressFile runId stepId output timestamp w).2).
Proof.
  intros Hvalid. unfold appendProgressFile. rewrite Hvalid.
  destruct (runs w !! progressPath runId) as [content|]; [|done].
  by destruct (MAX_PROGRESS_FILE_SIZE <? file_size content)%N.
Qed.

Lemma appendProgressFile_policies runId stepId output timestamp w :
  policies (appendProgressFile runId stepId output timestamp w).2 = policies w.
Proof.
  unfold appendProgressFile. destruct (valid_runId runId); [|done].
  destruct (runs w !! progressPath runId) as [content|]; [|done].
  by destruct (MAX_PROGRESS_FILE_SIZE <? file_size content)%N.
Qed.

Lemma appendProgressFile_other runId stepId output timestamp w p :
  p ≠ progressPath runId →
  runs (appendProgressFile runId stepId output timestamp w).2 !! p = runs w !! p.
Proof.
  intros Hp. unfold appendProgressFile. destruct (valid_runId runId); [|done].
  destruct (runs w !! progressPath runId) as [content|]; simpl.
  - destruct (MAX_PROGRESS_FILE_SIZE <? file_size content)%N; [done|].
    simpl. by rewrite lookup_insert_ne.
  - by rewrite lookup_insert_ne.
Qed.

Lemma appendProgressFile_log runId stepId output timestamp w :
  valid_runId runId = true →
  runs (appendProgressFile runId stepId output timestamp w).2 !! progressPath runId =
    match runs w !! progressPath runId with
    | Some content =>
        if (MAX_PROGRESS_FILE_SIZE <? file_size content)%N then Some content
        else Some (content +:+ progressEntry stepId timestamp output)
    | None => Some (progressEntry stepId timestamp output)
    end.
Proof.
  intros Hvalid. unfold appendProgressFile. rewrite Hvalid.
  destruct (runs w !! progressPath runId) as [content|] eqn:Hlog; simpl.
  - destruct (MAX_PROGRESS_FILE_SIZE <? file_size content)%N; [done|].
    simpl. by rewrite lookup_insert_eq.
  - by rewrite lookup_insert_eq.
Qed.

Lemma appendProgressFile_grows runId stepId output timestamp w p content :
  runs w !! p = Some content →
  ∃ suffix,
    runs (appendProgressFile runId stepId output timestamp w).2 !! p
      = Some (content +:+ suffix) ∧
    (p ≠ progressPath runId → suffix = EmptyString).
Proof.
  intros Hp. destruct (decide (p = progressPath runId)) as [->|Hne].
  - destruct (valid_runId runId) eqn:Hvalid.
    + rewrite appendProgressFile_log, Hp by done.
      destruct (MAX_PROGRESS_FILE_SIZE <? file_size content)%N.
      * exists EmptyString. by rewrite app_nil_r.
      * exists (progressEntry stepId timestamp output). split; [done|]. by intros [].
    + unfold appendProgressFile. rewrite Hvalid. simpl.
      exists EmptyString. by rewrite app_nil_r.
  - rewrite appendProgressFile_other by done.
    exists EmptyString. by rewrite app_nil_r.
Qed.

Lemma appendProgressFile_frozen runId stepId output timestamp w runId' content :
  runs w !! progressPath runId' = Some content →
  (MAX_PROGRESS_FILE_SIZE < file_size content)%N →
  runs (appendProgressFile runId stepId output timestamp w).2 !! progressPath runId'
    = Some content.
Proof.
  intros Hp Hsize. destruct (decide (progressPath runId' = progressPath runId)) as [Heq|Hne].
  - rewrite Heq in *. unfold appendProgressFile.
    destruct (valid_runId runId); [|done]. rewrite Hp.
    apply N.ltb_lt in Hsize. by rewrite Hsize.
  - by rewrite appendProgressFile_other.
Qed.

(** Whatever sequence of appends is made, for whatever runs: a file of
    the runs directory keeps its content as a prefix of what it holds
    afterwards, a progress log that is over the ceiling stays exactly as
    it is, the only files that appear are progress logs of the runs
    appended to, and the policy service is not touched. *)
Theorem progress_logs_only_grow
    (calls : list (string * string * string * string)) (w : World) :
  (∀ p content, runs w !! p = Some content →
     ∃ suffix, runs (run_appends w calls) !! p = Some (content +:+ suffix)) ∧
  (∀ runId content,
     runs w !! progressPath runId = Some content →
     (MAX_PROGRESS_FILE_SIZE < file_size content)%N →
     runs (run_appends w calls) !! progressPath runId = Some content) ∧
  (∀ p, is_Some (runs (run_appends w calls) !! p) →
     is_Some (runs w !! p) ∨ ∃ call, call ∈ calls ∧ p = progressPath call.1.1.1) ∧
  policies (run_appends w calls) = policies w.
Proof.
  revert w. induction calls as [|[[[runId stepId] output] timestamp] calls IH]; intros w.
  - simpl. split; [|split; [done|split; [by left|done]]].
    intros p content Hp. exists EmptyString. by rewrite app_nil_r.
  - simpl.
    destruct (IH (appendProgressFile runId stepId output timestamp w).2)
      as (Hgrow & Hfrozen & Hnew & Hpol).
    split; [|split; [|split]].
    + intros p content Hp.
      destruct (appendProgressFile_grows runId stepId output timestamp w p content Hp)
        as (s1 & Hs1 & _).
      destruct (Hgrow _ _ Hs1) as [s2 Hs2].
      exists (s1 +:+ s2). by rewrite <-app_assoc.
    + intros runId' content Hp Hsize. apply Hfrozen; [|done].
      by apply appendProgressFile_frozen.
    + intros p Hp. destruct (Hnew p Hp) as [Hold|(call & Hin & ->)].
      * destruct (decide (p = progressPath runId)) as [->|Hne].
        -- right. exists (runId, stepId, output, timestamp). split; [|done].
           apply elem_of_cons. by left.
        -- left. by rewrite appendProgressFile_other in Hold.
      * right. exists call. split; [|done]. apply elem_of_cons. by right.
    + by rewrite Hpol, appendProgressFile_policies.
Qed.

(** ** The outcome of a step *)

(** The world a step that succeeds leaves: the artifact is written, the
    entry appended, and the [loadDefaults] of the singleton has gone on
    during both. *)
Lemma executeAgentStep_Ok step run timestamp w output w1 :
  agentOutput step run w = (Ok output, w1) →
  validateAcceptanceCriteria step output (parseStepOutput output step) = Ok tt →
  executeAgentStep step run timestamp w =
    (Ok {| StepExecutionResult.output := parseStepOutput output step;
           StepExecutionResult.outputPath :=
             stepOutputPath (WorkflowRun.id run) (WorkflowStep.id step) |},
     advance (meanwhile 4)
       (appendProgressFile (WorkflowRun.id run) (WorkflowStep.id step) output timestamp
          (advance (meanwhile 3)
             (set_runs
                (<[stepOutputPath (WorkflowRun.id run) (WorkflowStep.id step) := output]>
                   (runs w1)) w1))).2).
Proof.
  intros Hout Hv.
  pose proof (agentOutput_valid_runId _ _ _ _ _ Hout) as Hvalid.
  unfold executeAgentStep, mbind at 1, M_bind at 1. rewrite Hout.
  unfold mbind at 1, M_bind at 1. rewrite Hv.
  unfold mbind at 1, M_bind at 1, saveStepOutput. rewrite Hvalid.
  unfold mbind at 1, M_bind at 1, wait.
  unfold mbind at 1, M_bind at 1.
  rewrite appendProgressFile_Ok by done.
  reflexivity.
Qed.

Lemma executeAgentStep_Throw step run timestamp w e w' :
  executeAgentStep step run timestamp w = (Throw e, w') →
  (agentOutput step run w = (Throw e, w')) ∨
  (∃ output, agentOutput step run w = (Ok output, w') ∧
     validateAcceptanceCriteria step output (parseStepOutput output step) = Throw e).
Proof.
  destruct (agentOutput step run w) as [[output|e0] w1] eqn:Hout.
  - destruct (validateAcceptanceCriteria step output (parseStepOutput output step))
      as [[]|e1] eqn:Hv.
    + by rewrite (executeAgentStep_Ok _ _ _ _ _ _ Hout Hv).
    + unfold executeAgentStep, mbind at 1, M_bind at 1. rewrite Hout.
      unfold mbind at 1, M_bind at 1. rewrite Hv. intros [= <- <-]. right. eauto.
  - unfold executeAgentStep, mbind at 1, M_bind at 1. rewrite Hout.
    intros [= <- <-]. by left.
Qed.

Lemma executeStep_agent step run timestamp w res w' :
  executeStep step run timestamp w = (Ok res, w') →
  WorkflowStep.type step = "agent" ∧
  executeAgentStep step run timestamp w = (Ok res, w').
Proof.
  unfold executeStep. repeat case_bool_decide; done.
Qed.

Lemma executeStep_Ok_inv step run timestamp w res w' :
  executeStep step run timestamp w = (Ok res, w') →
  WorkflowStep.type step = "agent" ∧
  ∃ output w1,
    agentOutput step run w = (Ok output, w1) ∧
    validateAcceptanceCriteria step output (parseStepOutput output step) = Ok tt ∧
    res = {| StepExecutionResult.output := parseStepOutput output step;
             StepExecutionResult.outputPath :=
               stepOutputPath (WorkflowRun.id run) (WorkflowStep.id step) |} ∧
    w' = advance (meanwhile 4)
           (appendProgressFile (WorkflowRun.id run) (WorkflowStep.id step) output timestamp
              (advance (meanwhile 3)
                 (set_runs
                    (<[stepOutputPath (WorkflowRun.id run) (WorkflowStep.id step) := output]>
                       (runs w1)) w1))).2.
Proof.
  intros Hexec. apply executeStep_agent in Hexec as [Htype Hexec]. split; [done|].
  destruct (agentOutput step run w) as [[output|e0] w1] eqn:Hout.
  - destruct (validateAcceptanceCriteria step output (parseStepOutput output step))
      as [[]|e1] eqn:Hv.
    + rewrite (executeAgentStep_Ok _ _ _ _ _ _ Hout Hv) in Hexec.
      injection Hexec as <- <-. eauto 10.
    + unfold executeAgentStep, mbind at 1, M_bind at 1 in Hexec. rewrite Hout in Hexec.
      unfold mbind at 1, M_bind at 1 in Hexec. by rewrite Hv in Hexec.
  - unfold executeAgentStep, mbind at 1, M_bind at 1 in Hexec. by rewrite Hout in Hexec.
Qed.

Lemma executeStep_Throw_frame step run timestamp w e w' :
  executeStep step run timestamp w = (Throw e, w') →
  runs w' = runs w ∧
  only_defaults_written (ToolPolicyService.disk (policies w))
    (ToolPolicyService.disk (policies w')).
Proof.
  intros Hexec.
  destruct (decide (WorkflowStep.type step = "agent")) as [Htype|Htype].
  - unfold executeStep in Hexec. rewrite bool_decide_eq_true_2 in Hexec by done.
    apply executeAgentStep_Throw in Hexec as [Hout|(output & Hout & _)];
      (split; [by apply agentOutput_frame in Hout|by apply agentOutput_disk in Hout]).
  - unfold executeStep in Hexec. rewrite bool_decide_eq_false_2 in Hexec by done.
    revert Hexec. repeat case_bool_decide; intros [= _ <-];
      (split; [done|apply only_defaults_written_refl]).
Qed.

(** A step that fails, for whatever reason (a step type that is not
    executed, a run id that is no file name, a template that cannot be
    rendered, a policy that cannot be read, a criterion that is not met),
    has written nothing in the runs directory. In the policies directory
    no file was changed or removed: what may have appeared there are
    missing files of built-in policies, written by the [loadDefaults] of
    the policy service, which the step starts when it is the first to
    use the service. *)
Theorem executeStep_failure_keeps_files
    (step : WorkflowStep.t) (run : WorkflowRun.t) (timestamp : string)
    (w w' : World) (e : exn) :
  executeStep step run timestamp w = (Throw e, w') →
  runs w' = runs w ∧
  only_defaults_written (ToolPolicyService.disk (policies w))
    (ToolPolicyService.disk (policies w')).
Proof.
  intros Hexec.
  destruct (decide (WorkflowStep.type step = "agent")) as [Htype|Htype].
  - unfold executeStep in Hexec. rewrite bool_decide_eq_true_2 in Hexec by done.
    apply executeAgentStep_Throw in Hexec as [Hout|(output & Hout & _)].
    + split; [by apply agentOutput_frame in Hout|by apply agentOutput_disk in Hout].
    + split; [by apply agentOutput_frame in Hout|by apply agentOutput_disk in Hout].
  - unfold executeStep in Hexec. rewrite bool_decide_eq_false_2 in Hexec by done.
    revert Hexec. repeat case_bool_decide; intros [= _ <-];
      (split; [done|apply only_defaults_written_refl]).
Qed.

(** ** What a step leaves behind *)

(** A step that succeeds was an agent step of a run with a valid id. The
    path it returns is that of its artifact, the artifact holds the raw
    output of the agent, the output it returns is that text parsed, and
    every acceptance criterion of the step is a substring of the
    artifact. In the policies directory no file was changed or removed:
    what may have appeared there are missing files of built-in policies,
    written by the [loadDefaults] of the policy service. *)
Theorem executeStep_success_is_sound
    (step : WorkflowStep.t) (run : WorkflowRun.t) (timestamp : string)
    (w w' : World) (res : StepExecutionResult.t) :
  executeStep step run timestamp w = (Ok res, w') →
  WorkflowStep.type step = "agent" ∧
  valid_runId (WorkflowRun.id run) = true ∧
  StepExecutionResult.outputPath res =
    stepOutputPath (WorkflowRun.id run) (WorkflowStep.id step) ∧
  only_defaults_written (ToolPolicyService.disk (policies w))
    (ToolPolicyService.disk (policies w')) ∧
  ∃ output,
    (agentOutput step run w).1 = Ok output ∧
    runs w' !! StepExecutionResult.outputPath res = Some output ∧
    StepExecutionResult.output res = parseStepOutput output step ∧
    ∀ criterion, criterion ∈ default [] (WorkflowStep.acceptance_criteria step) →
      substring criterion output.
Proof.
  intros (Htype & output & w1 & Hout & Hv & -> & ->)%executeStep_Ok_inv.
  split; [done|]. split; [by eapply agentOutput_valid_runId|]. split; [done|].
  split.
  { eapply only_defaults_written_trans; [by eapply agentOutput_disk|].
    eapply only_defaults_written_trans; [|apply advance_disk].
    rewrite appendProgressFile_policies.
    apply (advance_disk _ (set_runs _ w1)). }
  exists output. rewrite Hout. split; [done|]. cbn [StepExecutionResult.outputPath].
  rewrite runs_advance, appendProgressFile_other by done.
  rewrite runs_advance. cbn [runs set_runs].
  rewrite lookup_insert_eq. split; [done|]. split; [done|].
  by apply (validateAcceptanceCriteria_Ok_inv step output (parseStepOutput output step)).
Qed.

(** Whether a step succeeds or fails, no file of the runs directory is
    removed or cut short by it: apart from the artifact of the step,
    which is overwritten, a file that existed holds afterwards what it
    held, and only the progress log of the run may have text added at its
    end. *)
Theorem executeStep_never_truncates
    (step : WorkflowStep.t) (run : WorkflowRun.t) (timestamp : string)
    (w : World) (p : list string) (content : string) :
  runs w !! p = Some content →
  p ≠ stepOutputPath (WorkflowRun.id run) (WorkflowStep.id step) →
  ∃ suffix,
    runs (executeStep step run timestamp w).2 !! p = Some (content +:+ suffix) ∧
    (p ≠ progressPath (WorkflowRun.id run) → suffix = EmptyString).
Proof.
  intros Hp Hne.
  destruct (executeStep step run timestamp w) as [[res|e] w'] eqn:Hexec.
  - apply executeStep_Ok_inv in Hexec as (_ & output & w1 & Hout & _ & _ & ->).
    pose proof (agentOutput_frame _ _ _ _ _ Hout) as Hruns.
    cbn [snd]. rewrite runs_advance.
    apply appendProgressFile_grows. rewrite runs_advance. cbn [runs set_runs].
    by rewrite lookup_insert_ne, Hruns.
  - apply executeStep_Throw_frame in Hexec as [Hruns _]. simpl.
    rewrite Hruns, Hp. exists EmptyString. by rewrite app_nil_r.
Qed.

(** A run id that the sanitizer does not leave as it is stops an agent
    step at once, with the error that names the id and with nothing read
    from the policy service and nothing written; the three file methods
    refuse it the same way. *)
Theorem executeStep_invalid_runId
    (step : WorkflowStep.t) (run : WorkflowRun.t) (timestamp : string) (w : World) :
  WorkflowStep.type step = "agent" →
  valid_runId (WorkflowRun.id run) = false →
  executeStep step run timestamp w = (Throw (invalidRunId (WorkflowRun.id run)), w) ∧
  loadProgressFile (WorkflowRun.id run) w = (Throw (invalidRunId (WorkflowRun.id run)), w) ∧
  (∀ stepId output,
     saveStepOutput (WorkflowRun.id run) stepId output w
       = (Throw (invalidRunId (WorkflowRun.id run)), w)) ∧
  (∀ stepId output,
     appendProgressFile (WorkflowRun.id run) stepId output timestamp w
       = (Throw (invalidRunId (WorkflowRun.id run)), w)).
Proof.
  intros Htype Hinvalid.
  assert (loadProgressFile (WorkflowRun.id run) w
          = (Throw (invalidRunId (WorkflowRun.id run)), w)) as Hload.
  { unfold loadProgressFile. by rewrite Hinvalid. }
  split; [|split; [done|split]].
  - unfold executeStep. rewrite Htype, bool_decide_eq_true_2 by done.
    unfold executeAgentStep, agentOutput, mbind at 1, M_bind at 1.
    unfold mbind at 1, M_bind at 1. by rewrite Hload.
  - intros stepId output. unfold saveStepOutput. by rewrite Hinvalid.
  - intros stepId output. unfold appendProgressFile. by rewrite Hinvalid.
Qed.

(** A step of an agent whose role has a record that cannot be read does
    not run. The record does not parse or holds no valid policy; the role
    is not a built-in one and the service, if the process has constructed
    it already, has no policy cached for it; the run id is valid and the
    prompt renders. Then the step fails with the [PolicyInvalid] error of
    the record, whether or not it is the first to use the service and
    however far the [loadDefaults] of the service gets meanwhile. The
    runs directory is as it was, no file of the policies directory was
    changed or removed, and the service exists afterwards. *)
Theorem executeStep_fails_when_policy_is_unreadable
    (step : WorkflowStep.t) (run : WorkflowRun.t) (timestamp : string) (w : World)
    (agentDef : WorkflowAgent.t) (r prompt message : string)
    (file : ToolPolicyService.PolicyFile) :
  WorkflowStep.type step = "agent" →
  valid_runId (WorkflowRun.id run) = true →
  getAgentDefinition run (WorkflowStep.agent step) = Some agentDef →
  WorkflowAgent.role agentDef = Some r →
  r ≠ EmptyString →
  renderTemplate (or_string (WorkflowStep.input step) EmptyString)
    (buildSessionContext
       (buildSessionConfig step run (workflow_fresh_session_default (WorkflowRun.context run)))
       run (runs w !! progressPath (WorkflowRun.id run))) = Ok prompt →
  ToolPolicyService.normalizeRole r ∉ ToolPolicyService.DEFAULT_ROLES →
  (is_Some (service w) →
   ToolPolicyService.cache (policies w) !! ToolPolicyService.normalizeRole r = None) →
  ToolPolicyService.disk (policies w)
    !! ToolPolicyService.policyFileName (ToolPolicyService.normalizeRole r)
    = Some file →
  unreadable file message →
  ∃ w',
    executeStep step run timestamp w = (Throw (PolicyInvalid message), w') ∧
    runs w' = runs w ∧
    only_defaults_written (ToolPolicyService.disk (policies w))
      (ToolPolicyService.disk (policies w')) ∧
    is_Some (service w').
Proof.
  intros Htype Hvalid Hagent Hrole Hr Hprompt Hdefault Hcache Hfile Hunreadable.
  destruct (executeStep step run timestamp w) as [res w'] eqn:Hexec.
  assert (res = Throw (PolicyInvalid message) ∧ is_Some (service w')) as [-> Hservice].
  { revert Hexec.
    unfold executeStep. rewrite Htype, bool_decide_eq_true_2 by done.
    unfold executeAgentStep, agentOutput, mbind at 1, M_bind at 1.
    unfold mbind at 1, M_bind at 1, loadProgressFile. rewrite Hvalid.
    unfold mbind at 1, M_bind at 1, wait.
    unfold mbind at 1, M_bind at 1. rewrite Hprompt.
    unfold mbind at 1, M_bind at 1, getToolPolicyForAgent. rewrite Hagent. simpl.
    rewrite Hrole, bool_decide_eq_false_2 by done.
    unfold mbind at 1, M_bind at 1.
    destruct (getToolPolicyService (advance (meanwhile 0) w)) as [[[]|e0] w0] eqn:Hs.
    2: { unfold getToolPolicyService in Hs.
         by destruct (service (advance (meanwhile 0) w)). }
    apply getToolPolicyService_frame in Hs as (_ & Hd0 & Hs0 & Hc0 & Hsame).
    assert (ToolPolicyService.cache (policies w0) !! ToolPolicyService.normalizeRole r = None)
      as Hmiss.
    { destruct (Hc0 _ Hdefault) as [Hconstructed|Hnone]; [|done].
      rewrite (Hsame Hconstructed), advance_cache by done.
      apply Hcache. destruct (service w) as [made|] eqn:Hsw; [by eauto|].
      unfold advance in Hconstructed. by rewrite !Hsw in Hconstructed. }
    unfold service_getToolFilterForRole, mbind, M_bind, service_getToolPolicy.
    rewrite Hmiss.
    assert (ToolPolicyService.disk (policies (advance (meanwhile 1) w0))
              !! ToolPolicyService.policyFileName (ToolPolicyService.normalizeRole r)
            = Some file) as ->.
    { pose proof (advance_disk (meanwhile 1) w0
                    (ToolPolicyService.policyFileName (ToolPolicyService.normalizeRole r)))
        as Hkeep.
      pose proof (advance_disk (meanwhile 0) w
                    (ToolPolicyService.policyFileName (ToolPolicyService.normalizeRole r)))
        as Hkeep0.
      rewrite Hfile in Hkeep0. rewrite Hd0, Hkeep0 in Hkeep. done. }
    destruct file as [m|policy]; simpl in Hunreadable.
    - subst m. intros [= <- <-]. split; [done|]. by do 2 apply advance_service.
    - destruct Hunreadable as (e & -> & <-).
      intros [= <- <-]. split; [done|]. by do 2 apply advance_service. }
  exists w'. split; [done|]. split; [|split; [|done]].
  - by apply executeStep_Throw_frame in Hexec as [? _].
  - by apply executeStep_Throw_frame in Hexec as [_ ?].
Qed.

End WithLibraries.

Lemma plan_agentOutput :
  (agentOutput plan_step review_run review_world).1 = Ok plan_output.
Proof. vm_compute. reflexivity. Qed.

Lemma plan_output_done : Str.includes "STATUS: done" plan_output = true.
Proof. vm_compute. reflexivity. Qed.

Lemma plan_executeStep_Ok :
  ∃ res, (executeStep plan_step review_run "2026-01-01T00:00:00.000Z" review_world).1
         = Ok res.
Proof. vm_compute. eauto. Qed.

Lemma executeStep_accepted_witness :
  ∃ w2,
    executeStep plan_step review_run "2026-01-01T00:00:00.000Z" review_world =
      (Ok {| StepExecutionResult.output := parseStepOutput plan_output plan_step;
             StepExecutionResult.outputPath := ["run-1"; "step-outputs"; "plan.md"] |},
       w2) ∧
    runs w2 !! ["run-1"; "step-outputs"; "plan.md"] = Some plan_output ∧
    runs w2 !! progressPath "run-1" =
      Some ("# Progress" +:+ progressEntry "plan" "2026-01-01T00:00:00.000Z" plan_output).
Proof.
  destruct (agentOutput plan_step review_run review_world) as [r w1] eqn:Hout.
  pose proof plan_agentOutput as Hr. rewrite Hout in Hr. cbn [fst] in Hr. subst r.
  pose proof plan_output_done as Hdone.
  revert Hdone Hout. generalize plan_output. intros output Hdone Hout.
  apply includes_spec in Hdone.
  destruct (executeStep_accepted plan_step review_run "2026-01-01T00:00:00.000Z"
              review_world w1 output eq_refl Hout)
    as (w2 & Hexec & Hartifact & Hlog & _).
  - simpl. by repeat constructor.
  - exists w2. split; [exact Hexec|]. split; [exact Hartifact|].
    apply (Hlog "# Progress"); [done|]. vm_compute. discriminate.
Defined.

Lemma executeStep_failure_keeps_files_witness :
  ∃ w', executeStep review_step audit_run "2026-01-01T00:00:00.000Z" first_use_world
        = (Throw (PolicyInvalid "Unexpected end of JSON input"), w') ∧
    runs w' = runs first_use_world ∧
    ToolPolicyService.disk (policies w') !! "auditor.json"
      = Some (ToolPolicyService.Unparsable "Unexpected end of JSON input") ∧
    ToolPolicyService.disk (policies first_use_world) !! "planner.json" = None ∧
    is_Some (ToolPolicyService.disk (policies w') !! "planner.json").
Proof.
  destruct (executeStep review_step audit_run "2026-01-01T00:00:00.000Z" first_use_world)
    as [[res|e] w'] eqn:Hexec.
  - apply (f_equal fst) in Hexec. vm_compute in Hexec; discriminate.
  - destruct (executeStep_failure_keeps_files _ _ _ _ _ _ Hexec) as [Hruns Hdisk].
    assert (e = PolicyInvalid "Unexpected end of JSON input") as ->.
    { apply (f_equal fst) in Hexec. vm_compute in Hexec. by injection Hexec. }
    exists w'. split; [done|]. split; [exact Hruns|]. split; [|split; [done|]].
    + exact (Hdisk "auditor.json").
    + apply (f_equal (λ x, ToolPolicyService.disk (policies x.2) !! "planner.json"))
        in Hexec.
      simpl in Hexec. rewrite <-Hexec. vm_compute. eauto.
Defined.

Lemma executeStep_success_is_sound_witness :
  ∃ res w' output,
    executeStep plan_step review_run "2026-01-01T00:00:00.000Z" review_world
      = (Ok res, w') ∧
    runs w' !! StepExecutionResult.outputPath res = Some output ∧
    substring "STATUS: done" output.
Proof.
  destruct (executeStep plan_step review_run "2026-01-01T00:00:00.000Z" review_world)
    as [[res|e] w'] eqn:Hexec.
  - destruct (executeStep_success_is_sound _ _ _ _ _ _ Hexec)
      as (_ & _ & _ & _ & output & _ & Hartifact & _ & Hcriteria).
    exists res, w', output. split; [done|]. split; [exact Hartifact|].
    apply Hcriteria. apply elem_of_cons. by left.
  - destruct plan_executeStep_Ok as [res Hres]. by rewrite Hexec in Hres.
Defined.

Lemma executeStep_never_truncates_witness :
  ∃ suffix,
    runs (executeStep plan_step review_run "2026-01-01T00:00:00.000Z" review_world).2
      !! progressPath "run-1" = Some ("# Progress" +:+ suffix).
Proof.
  destruct (executeStep_never_truncates plan_step review_run "2026-01-01T00:00:00.000Z"
              review_world (progressPath "run-1") "# Progress")
    as (suffix & Hsuffix & _); [done|done|].
  exists suffix. exact Hsuffix.
Defined.

Lemma executeStep_invalid_runId_witness :
  executeStep review_step escaping_run "2026-01-01T00:00:00.000Z" review_world
    = (Throw (Error "Invalid run ID: ../run-1"), review_world).
Proof.
  destruct (executeStep_invalid_runId review_step escaping_run "2026-01-01T00:00:00.000Z"
              review_world) as [Hexec _]; [done|vm_compute; reflexivity|].
  exact Hexec.
Defined.

Lemma executeStep_fails_when_policy_is_unreadable_witness :
  ∃ w',
    executeStep review_step audit_run "2026-01-01T00:00:00.000Z" first_use_world
      = (Throw (PolicyInvalid "Unexpected end of JSON input"), w') ∧
    service first_use_world = None ∧
    is_Some (service w') ∧
    runs w' = runs first_use_world.
Proof.
  destruct (executeStep_fails_when_policy_is_unreadable review_step audit_run
              "2026-01-01T00:00:00.000Z" first_use_world
              {| WorkflowAgent.id := "rev"; WorkflowAgent.role := Some "Auditor";
                 WorkflowAgent.model := None |}
              "Auditor" "Review the parser" "Unexpected end of JSON input"
              (ToolPolicyService.Unparsable "Unexpected end of JSON input"))
    as (w' & Hexec & Hruns & _ & Hservice);
    try done; try (vm_compute; reflexivity).
  exists w'. done.
Defined.

End StepOutcomeFacts.

Module DotPathFacts.
Import Js WorkflowStepExecutor Spec Examples StrFacts TemplateFacts.

Lemma split_plain (sep : ascii) (k : string) :
  ¬ occurs sep k → split sep k = [k].
Proof.
  induction k as [|c k IH]; [done|]. simpl. intros Hk.
  rewrite bool_decide_eq_false_2 by tauto. rewrite IH by tauto. done.
Qed.

Lemma split_app_sep (sep : ascii) (k s : string) :
  ¬ occurs sep k → split sep (k +:+ String sep s) = k :: split sep s.
Proof.
  induction k as [|c k IH]; intros Hk.
  - rewrite app_nil_l. simpl. by rewrite bool_decide_eq_true_2.
  - rewrite app_cons. simpl in *.
    rewrite bool_decide_eq_false_2 by tauto. rewrite IH by tauto. done.
Qed.

(** Splitting what [join] made gives the parts back, when no part holds
    the separator. *)
Lemma split_join (sep : ascii) (keys : list string) :
  keys ≠ [] →
  Forall (fun k => ¬ occurs sep k) keys →
  split sep (Str.join (String sep EmptyString) keys) = keys.
Proof.
  induction keys as [|k keys IH]; [done|]. intros _ Hkeys.
  apply Forall_cons in Hkeys as [Hk Hkeys].
  destruct keys as [|k' keys].
  - simpl. by apply split_plain.
  - change (Str.join (String sep EmptyString) (k :: k' :: keys))
      with (k +:+ String sep EmptyString +:+ Str.join (String sep EmptyString) (k' :: keys)).
    rewrite app_cons, app_nil_l, split_app_sep by done.
    by rewrite IH.
Qed.

Section WithRealm.
Context `{Realm}.

(** A dot path names exactly its keys: for keys without a dot,
    [getNestedValue] of the keys joined by dots is the value reached by
    going down the context key by key, through own and inherited
    properties of objects and arrays, and [undefined] when a key is
    missing or the value to go into is not an object. *)
Theorem getNestedValue_walks_path (context : obj) (keys : list string) :
  keys ≠ [] →
  Forall (fun k => ¬ occurs "." k) keys →
  getNestedValue context (Str.join "." keys)
    = default VUndefined (resolve (VObj context) keys).
Proof.
  intros Hne Hkeys. rewrite getNestedValue_resolve. by rewrite split_join.
Qed.

(** A template that does not hold two opening braces in a row is
    rendered as it is, whatever the context: single braces are text,
    also at the end of the template, and rendering does not fail. *)
Theorem renderTemplate_without_double_brace (template : string) (context : obj) :
  ¬ substring "{{" template → renderTemplate template context = Ok template.
Proof.
  intros Hnone. unfold renderTemplate.
  rewrite <-(app_nil_r template) at 1.
  rewrite replace_text.
  - simpl. by rewrite app_nil_r.
  - intros pre post -> Hpost. rewrite app_nil_r.
    destruct (match_placeholder post) as [[key len]|] eqn:Hmatch; [|done].
    apply match_placeholder_inv in Hmatch as (rest & -> & _).
    destruct Hnone. by exists pre, (key +:+ "}}" +:+ rest).
Qed.

Lemma renderTemplate_progress (context : obj) (progress : string) :
  own "progress" context = Some (VStr progress) →
  renderTemplate "{{progress}}" context = Ok progress.
Proof.
  intros Hown. unfold renderTemplate.
  change "{{progress}}" with ("{{" +:+ "progress" +:+ "}}" +:+ EmptyString).
  rewrite replace_placeholder; [|done|].
  2: { simpl. intros Hocc. repeat destruct Hocc as [[=]|Hocc]. done. }
  unfold substitute. change (Str.trim "progress") with "progress".
  rewrite getNestedValue_resolve. change (split "." "progress") with ["progress"].
  simpl. rewrite Hown. simpl. by rewrite app_nil_r.
Qed.

End WithRealm.

Lemma getNestedValue_walks_path_witness :
  getNestedValue greeting_context "a.b" = VStr "x".
Proof.
  apply (getNestedValue_walks_path greeting_context ["a"; "b"]); [done|].
  repeat constructor; simpl; intros Hocc; repeat destruct Hocc as [[=]|Hocc]; done.
Defined.

Lemma renderTemplate_without_double_brace_witness :
  renderTemplate "Summarise { the task } in {one} line {" greeting_context
    = Ok "Summarise { the task } in {one} line {".
Proof.
  apply renderTemplate_without_double_brace.
  apply includes_false. vm_compute. reflexivity.
Defined.

End DotPathFacts.

Module SessionFacts.
Import Js WorkflowStepExecutor Spec Examples StrFacts SessionContextFacts.

Lemma or_string_nonempty a d : d ≠ EmptyString → or_string a d ≠ EmptyString.
Proof. intros Hd. unfold or_string. destruct a as [s|]; [|done]. by case_bool_decide. Qed.

Lemma or_number_nonzero a d : d ≠ 0 → or_number a d ≠ 0.
Proof.
  intros Hd. unfold or_number. destruct a as [n|]; [|done].
  destruct (n =? 0) eqn:Hn; [done|]. by apply Z.eqb_neq in Hn.
Qed.

(** The resolved session configuration has no empty field: mode, context
    and cleanup are never the empty string and the timeout is never
    zero, whatever the step declares. Without a session block the mode is
    [fresh] or [reuse] and no step outputs are asked for. *)
Theorem buildSessionConfig_never_falsy
    (step : WorkflowStep.t) (run : WorkflowRun.t) (defaultConfig : option bool) :
  let config := buildSessionConfig step run defaultConfig in
  StepSessionConfig.mode config ≠ EmptyString ∧
  StepSessionConfig.context config ≠ EmptyString ∧
  StepSessionConfig.cleanup config ≠ EmptyString ∧
  StepSessionConfig.timeout config ≠ 0 ∧
  (WorkflowStep.session step = None →
     StepSessionConfig.mode config ∈ ["fresh"; "reuse"] ∧
     StepSessionConfig.includeOutputsFrom config = None).
Proof.
  unfold buildSessionConfig.
  destruct (WorkflowStep.session step) as [session|];
    [|destruct (WorkflowStep.fresh_session step) as [[]|];
      [| |destruct defaultConfig as [[]|]]];
    simpl;
    (repeat split;
     try done;
     try (by apply or_string_nonempty);
     try (by do 2 apply or_number_nonzero);
     try (by apply or_number_nonzero);
     set_solver).
Qed.

Section WithRealm.
Context `{Realm}.

Lemma own_baseContext run k :
  own k (baseContext run) =
    if bool_decide (k = "task") then Some (get (WorkflowRun.context run) "task")
    else if bool_decide (k = "workflow") then
      Some (VObj [("id", VStr (WorkflowRun.workflowId run));
                  ("runId", VStr (WorkflowRun.id run))])
    else None.
Proof.
  unfold baseContext. simpl.
  repeat (case_bool_decide; simplify_eq; try done).
Qed.

(** What the loop of the [custom] mode leaves in the steps entry. *)
Lemma own_customStepsContext_loop run ids (stepsContext : obj) k :
  own k
    (foldl
       (fun stepsContext stepId =>
          if truthy (get (WorkflowRun.context run) stepId)
          then assign stepId
                 (VObj [("output", get (WorkflowRun.context run) stepId)]) stepsContext
          else stepsContext)
       stepsContext ids)
  = if bool_decide (k ∈ ids ∧ k ≠ "__proto__"
                    ∧ truthy (get (WorkflowRun.context run) k) = true)
    then Some (VObj [("output", get (WorkflowRun.context run) k)])
    else own k stepsContext.
Proof.
  revert stepsContext. induction ids as [|stepId ids IH]; intros stepsContext.
  - cbn [foldl]. case_bool_decide as Hk; [|done]. destruct Hk as [Hin _]. set_solver.
  - cbn [foldl]. rewrite IH.
    destruct (truthy (get (WorkflowRun.context run) stepId)) eqn:Htruthy.
    + rewrite own_assign.
      repeat case_bool_decide; simplify_eq; try done;
        exfalso; set_unfold; naive_solver congruence.
    + repeat case_bool_decide; simplify_eq; try done;
        exfalso; set_unfold; naive_solver congruence.
Qed.

Lemma own_customStepsContext run ids k v :
  own k (customStepsContext run ids) = Some v ↔
  k ∈ ids ∧ k ≠ "__proto__" ∧ truthy (get (WorkflowRun.context run) k) = true ∧
  v = VObj [("output", get (WorkflowRun.context run) k)].
Proof.
  unfold customStepsContext. rewrite own_customStepsContext_loop.
  case_bool_decide as Hk; simpl; [|naive_solver]. split.
  - intros [= <-]. naive_solver.
  - intros (_ & _ & _ & ->). done.
Qed.

Lemma customStepsContext_loop_ext run run' ids :
  (∀ k, k ∈ ids →
     get (WorkflowRun.context run') k = get (WorkflowRun.context run) k) →
  ∀ stepsContext : obj,
    foldl
      (fun stepsContext stepId =>
         if truthy (get (WorkflowRun.context run') stepId)
         then assign stepId
                (VObj [("output", get (WorkflowRun.context run') stepId)]) stepsContext
         else stepsContext)
      stepsContext ids
    = foldl
        (fun stepsContext stepId =>
           if truthy (get (WorkflowRun.context run) stepId)
           then assign stepId
                  (VObj [("output", get (WorkflowRun.context run) stepId)]) stepsContext
           else stepsContext)
        stepsContext ids.
Proof.
  induction ids as [|stepId ids IH]; intros Hids stepsContext; [done|].
  cbn [foldl]. rewrite (Hids stepId) by (by left).
  apply IH. intros k Hk. apply Hids. by right.
Qed.

(** The steps entry of the [custom] mode depends on the run through the
    context entries of the listed steps only. *)
Lemma customStepsContext_ext run run' ids :
  (∀ k, k ∈ ids →
     get (WorkflowRun.context run') k = get (WorkflowRun.context run) k) →
  customStepsContext run' ids = customStepsContext run ids.
Proof.
  intros Hids. unfold customStepsContext.
  apply (customStepsContext_loop_ext run run' ids Hids).
Qed.

Lemma baseContext_ext run run' :
  WorkflowRun.id run' = WorkflowRun.id run →
  WorkflowRun.workflowId run' = WorkflowRun.workflowId run →
  get (WorkflowRun.context run') "task" = get (WorkflowRun.context run) "task" →
  baseContext run' = baseContext run.
Proof. unfold baseContext. by intros -> -> ->. Qed.

(** Outside the [full] mode a session is handed only what it asks for.
    The keys of the session context are among [task], [workflow],
    [progress] and [steps]; the workflow entry is reduced to the two ids;
    the progress text is there in the [minimal] and [custom] modes only,
    and a steps entry only in the [custom] mode with an
    [includeOutputsFrom] list. That entry holds, under the id of each
    listed step whose context entry is truthy, the output of the step,
    and nothing else. Of the run the session context depends on its two
    ids, its task and, in the [custom] mode, the context entries of the
    listed steps: two runs that agree on these give the same session
    context. *)
Theorem buildSessionContext_passes_only_what_is_asked
    (sessionConfig : StepSessionConfig.t) (run : WorkflowRun.t)
    (progress : option string) :
  StepSessionConfig.context sessionConfig ≠ "full" →
  let context := buildSessionContext sessionConfig run progress in
  (∀ k, is_Some (own k context) → k ∈ ["task"; "workflow"; "progress"; "steps"]) ∧
  own "task" context = Some (get (WorkflowRun.context run) "task") ∧
  own "workflow" context =
    Some (VObj [("id", VStr (WorkflowRun.workflowId run));
                ("runId", VStr (WorkflowRun.id run))]) ∧
  (is_Some (own "progress" context) ↔
     StepSessionConfig.context sessionConfig ∈ ["minimal"; "custom"]) ∧
  (is_Some (own "steps" context) ↔
     StepSessionConfig.context sessionConfig = "custom" ∧
     is_Some (StepSessionConfig.includeOutputsFrom sessionConfig)) ∧
  (∀ stepsEntry, own "steps" context = Some stepsEntry →
     ∃ ids stepsContext,
       StepSessionConfig.includeOutputsFrom sessionConfig = Some ids ∧
       stepsEntry = VObj stepsContext ∧
       ∀ k v, own k stepsContext = Some v ↔
         k ∈ ids ∧ k ≠ "__proto__" ∧
         truthy (get (WorkflowRun.context run) k) = true ∧
         v = VObj [("output", get (WorkflowRun.context run) k)]) ∧
  (∀ run',
     WorkflowRun.id run' = WorkflowRun.id run →
     WorkflowRun.workflowId run' = WorkflowRun.workflowId run →
     get (WorkflowRun.context run') "task" = get (WorkflowRun.context run) "task" →
     (StepSessionConfig.context sessionConfig = "custom" →
      ∀ ids k, StepSessionConfig.includeOutputsFrom sessionConfig = Some ids → k ∈ ids →
        get (WorkflowRun.context run') k = get (WorkflowRun.context run) k) →
     buildSessionContext sessionConfig run' progress = context).
Proof.
  intros Hfull context. subst context.
  match goal with |- _ ∧ _ ∧ _ ∧ _ ∧ _ ∧ _ ∧ ?G => assert G as Hsame end.
  { intros run' Hid Hwf Htask Hsteps. unfold buildSessionContext.
    rewrite (baseContext_ext run run' Hid Hwf Htask).
    case_bool_decide; [done|]. rewrite bool_decide_eq_false_2 by done.
    case_bool_decide as Hcustom; [|done].
    destruct (StepSessionConfig.includeOutputsFrom sessionConfig) as [ids|]; [|done].
    rewrite (customStepsContext_ext run run' ids); [done|].
    intros k Hk. by apply (Hsteps Hcustom ids). }
  revert Hsame. match goal with |- ?G → _ => generalize G end.
  intros same Hsame. unfold buildSessionContext.
  case_bool_decide as Hmin.
  { rewrite Hmin. split; [|split; [|split; [|split; [|split; [|split; [|exact Hsame]]]]]].
    - intros k. rewrite own_set, own_baseContext.
      repeat case_bool_decide; subst; intros [? ?]; try done; set_solver.
    - by rewrite own_set, own_baseContext.
    - by rewrite own_set, own_baseContext.
    - rewrite own_set. simpl. split; [set_solver|eauto].
    - rewrite own_set, own_baseContext. simpl. split; [by intros [? ?]|by intros [? _]].
    - intros stepsEntry. by rewrite own_set, own_baseContext. }
  rewrite bool_decide_eq_false_2 by done.
  case_bool_decide as Hcustom.
  { rewrite Hcustom.
    destruct (StepSessionConfig.includeOutputsFrom sessionConfig) as [ids|].
    - split; [|split; [|split; [|split; [|split; [|split; [|exact Hsame]]]]]].
      + intros k. rewrite own_assign, own_set, own_baseContext. simpl.
        repeat case_bool_decide; subst; intros [? ?]; try done; set_solver.
      + by rewrite own_assign, own_set, own_baseContext.
      + by rewrite own_assign, own_set, own_baseContext.
      + rewrite own_assign, own_set. simpl. split; [set_solver|eauto].
      + rewrite own_assign. simpl. split; [eauto|eauto].
      + intros stepsEntry. rewrite own_assign. simpl. intros [= <-].
        exists ids, (customStepsContext run ids). split; [done|]. split; [done|].
        apply own_customStepsContext.
    - split; [|split; [|split; [|split; [|split; [|split; [|exact Hsame]]]]]].
      + intros k. rewrite own_set, own_baseContext.
        repeat case_bool_decide; subst; intros [? ?]; try done; set_solver.
      + by rewrite own_set, own_baseContext.
      + by rewrite own_set, own_baseContext.
      + rewrite own_set. simpl. split; [set_solver|eauto].
      + rewrite own_set, own_baseContext. simpl.
        split; [by intros [? ?]|by intros [_ [? ?]]].
      + intros stepsEntry. by rewrite own_set, own_baseContext. }
  split; [|split; [|split; [|split; [|split; [|split; [|exact Hsame]]]]]].
  - intros k. rewrite own_baseContext.
    repeat case_bool_decide; subst; intros [? ?]; try done; set_solver.
  - by rewrite own_baseContext.
  - by rewrite own_baseContext.
  - rewrite own_baseContext. simpl. split; [by intros [? ?]|].
    intros Hin. set_solver.
  - rewrite own_baseContext. simpl. split; [by intros [? ?]|by intros [? _]].
  - intros stepsEntry. by rewrite own_baseContext.
Qed.

Lemma own_progress_buildSessionContext sessionConfig run progress :
  StepSessionConfig.context sessionConfig ∈ ["minimal"; "full"; "custom"] →
  own "progress" (buildSessionContext sessionConfig run (Some progress))
    = Some (VStr progress).
Proof.
  intros Hmode. unfold buildSessionContext.
  case_bool_decide; [by rewrite own_set|].
  case_bool_decide; [by rewrite !own_set|].
  case_bool_decide; [|set_solver].
  destruct (StepSessionConfig.includeOutputsFrom sessionConfig);
    by rewrite ?own_assign, own_set.
Qed.

End WithRealm.

Lemma buildSessionContext_passes_only_what_is_asked_witness :
  let config := config_with "custom" (Some ["build"]) in
  let context := buildSessionContext config checked_run (Some "log") in
  own "lint" (WorkflowRun.context checked_run) = Some (VBool false) ∧
  (∀ k, is_Some (own k context) → k ∈ ["task"; "workflow"; "progress"; "steps"]) ∧
  own "workflow" context = Some (VObj [("id", VStr "wf"); ("runId", VStr "run-1")]) ∧
  (∃ stepsContext,
     own "steps" context = Some (VObj stepsContext) ∧
     own "build" stepsContext = Some (VObj [("output", VStr "ok")]) ∧
     own "lint" stepsContext = None) ∧
  renderTemplate "{{steps.build.output}}" context = Ok "ok".
Proof.
  intros config context. split; [done|].
  destruct (buildSessionContext_passes_only_what_is_asked config checked_run (Some "log"))
    as (Hkeys & _ & Hworkflow & _ & _ & Hsteps & _); [done|].
  split; [exact Hkeys|]. split; [exact Hworkflow|]. split; [|vm_compute; reflexivity].
  destruct (Hsteps (VObj [("build", VObj [("output", VStr "ok")])]))
    as (ids & stepsContext & Hids & Hentry & Hown); [vm_compute; reflexivity|].
  injection Hids as <-. injection Hentry as <-.
  eexists. split; [vm_compute; reflexivity|]. split; [done|done].
Defined.

End SessionFacts.

Module HandoverFacts.
Import Js WorkflowStepExecutor Spec Examples StrFacts.
Import ExecuteStepFacts StepOutcomeFacts DotPathFacts SessionFacts.

Section WithLibraries.
Context `{Realm} `{Libraries} `{EventLoop}.

Lemma substring_progressEntry stepId timestamp output before :
  substring output (before +:+ progressEntry stepId timestamp output).
Proof.
  unfold progressEntry.
  exists (before +:+ "## Step: " +:+ stepId +:+ " (" +:+ timestamp +:+ ")" +:+ nl +:+ nl),
         (nl +:+ nl +:+ "---" +:+ nl +:+ nl).
  by rewrite !app_assoc.
Qed.

(** What a step wrote is what the next step reads: after a step has
    succeeded on a run whose progress log was within the ceiling, the log
    is the old log followed by one entry, it holds the text of the
    artifact, [loadProgressFile] reads it, and a template that says
    [{{progress}}] is rendered to it in every session context mode that
    carries the progress. *)
Theorem step_output_reaches_the_next_prompt
    (step : WorkflowStep.t) (run : WorkflowRun.t) (timestamp : string)
    (w w' : World) (res : StepExecutionResult.t) :
  executeStep step run timestamp w = (Ok res, w') →
  (∀ content, runs w !! progressPath (WorkflowRun.id run) = Some content →
     (file_size content ≤ MAX_PROGRESS_FILE_SIZE)%N) →
  ∃ output progress,
    runs w' !! StepExecutionResult.outputPath res = Some output ∧
    loadProgressFile (WorkflowRun.id run) w' = (Ok (Some progress), w') ∧
    progress = default EmptyString (runs w !! progressPath (WorkflowRun.id run))
               +:+ progressEntry (WorkflowStep.id step) timestamp output ∧
    substring output progress ∧
    ∀ sessionConfig run',
      StepSessionConfig.context sessionConfig ∈ ["minimal"; "full"; "custom"] →
      renderTemplate "{{progress}}" (buildSessionContext sessionConfig run' (Some progress))
        = Ok progress.
Proof.
  intros (Htype & output & w1 & Hout & Hv & -> & ->)%executeStep_Ok_inv Hsize.
  pose proof (agentOutput_valid_runId _ _ _ _ _ Hout) as Hvalid.
  pose proof (agentOutput_frame _ _ _ _ _ Hout) as Hruns.
  set (artifact := stepOutputPath (WorkflowRun.id run) (WorkflowStep.id step)).
  set (log := progressPath (WorkflowRun.id run)).
  set (w2 := advance (meanwhile 3) (set_runs (<[artifact := output]> (runs w1)) w1)).
  assert (artifact ≠ log) as Hne by done.
  assert (runs w2 = <[artifact := output]> (runs w)) as Hw2.
  { unfold w2. rewrite runs_advance. cbn [runs set_runs]. by rewrite Hruns. }
  assert (runs w2 !! log = runs w !! log) as Hlog.
  { by rewrite Hw2, lookup_insert_ne. }
  exists output,
    (default EmptyString (runs w !! log)
     +:+ progressEntry (WorkflowStep.id step) timestamp output).
  split.
  { cbn [StepExecutionResult.outputPath]. rewrite runs_advance.
    rewrite appendProgressFile_other by done.
    fold artifact. by rewrite Hw2, lookup_insert_eq. }
  split.
  { unfold loadProgressFile. rewrite Hvalid. f_equal. f_equal.
    rewrite runs_advance.
    fold log. unfold log at 1. rewrite appendProgressFile_log by done.
    fold log. rewrite Hlog.
    destruct (runs w !! log) as [content|] eqn:Hcontent; simpl.
    - specialize (Hsize content Hcontent).
      assert ((MAX_PROGRESS_FILE_SIZE <? file_size content)%N = false) as ->
        by (apply N.ltb_ge; lia).
      done.
    - by rewrite app_nil_l. }
  split; [done|]. split; [apply substring_progressEntry|].
  intros sessionConfig run' Hmode.
  by apply renderTemplate_progress, own_progress_buildSessionContext.
Qed.

End WithLibraries.

Lemma step_output_reaches_the_next_prompt_witness :
  ∃ res w' output progress,
    executeStep plan_step review_run "2026-01-01T00:00:00.000Z" review_world
      = (Ok res, w') ∧
    runs w' !! StepExecutionResult.outputPath res = Some output ∧
    loadProgressFile "run-1" w' = (Ok (Some progress), w') ∧
    substring output progress ∧
    renderTemplate "{{progress}}"
      (buildSessionContext (config_with "minimal" None) review_run (Some progress))
      = Ok progress.
Proof.
  destruct (executeStep plan_step review_run "2026-01-01T00:00:00.000Z" review_world)
    as [[res|e] w'] eqn:Hexec.
  - destruct (step_output_reaches_the_next_prompt _ _ _ _ _ _ Hexec)
      as (output & progress & Hartifact & Hload & _ & Hsub & Hprompt).
    + intros content Hcontent. vm_compute in Hcontent.
      injection Hcontent as <-. vm_compute. discriminate.
    + exists res, w', output, progress.
      split; [done|]. split; [exact Hartifact|]. split; [exact Hload|].
      split; [exact Hsub|]. apply Hprompt. apply elem_of_cons. by left.
  - destruct plan_executeStep_Ok as [res Hres]. by rewrite Hexec in Hres.
Defined.

End HandoverFacts.
